(** * srsRAN: RA scheduler and HARQ transmit buffer pool

    Shallow embedding of
    - [lib/scheduler/common_scheduling/ra_scheduler.cpp]
    - [lib/phy/upper/tx_buffer_pool_impl.cpp]
    together with the properties of these two units that the design
    document states.

    Conventions.  C++ [unsigned] arithmetic that feeds a radio identifier is
    written on [Z] with its wrap-around spelled out ([u32], [u16]);
    container sizes and indices are [nat]; arrays are lists read with
    [!!] and written with [<[i:=x]>]; a failed [srsgnb_sanity_check] or an
    access outside a container is the outcome [Abort]. *)

From stdpp Require Import base option list numbers strings.
From Stdlib Require Import ZArith Lia.

Set Default Proof Using "Type".
Open Scope Z_scope.

(** ** Outcomes of code that may trip an assertion *)

Inductive outcome (A : Type) : Type :=
  | Ok (a : A)
  | Abort (reason : string).
Arguments Ok {A} a.
Arguments Abort {A} reason.

Global Instance outcome_ret : MRet outcome := fun _ a => Ok a.
Global Instance outcome_bind : MBind outcome := fun _ _ k m =>
  match m with
  | Ok a => k a
  | Abort r => Abort r
  end.

(** Modelled from the spec: [srsgnb_sanity_check] and [srsgnb_assert] (the
    macros are not part of the sources).  A contract violation is fatal: the
    call does not return a value. *)
Definition sanity_check (cond : bool) (msg : string) : outcome unit :=
  if cond then Ok tt else Abort msg.

Definition is_ok {A} (m : outcome A) : bool :=
  match m with Ok _ => true | Abort _ => false end.

(** ** Machine integers *)

Definition u32 (x : Z) : Z := x mod 2 ^ 32.
Definition u16 (x : Z) : Z := x mod 2 ^ 16.
Definition u32_add (a b : Z) : Z := u32 (a + b).
Definition u32_mul (a b : Z) : Z := u32 (a * b).
(** [static_cast<int>] of an [unsigned], as a two's complement value. *)
Definition int_of_u32 (x : Z) : Z := if x <? 2 ^ 31 then x else x - 2 ^ 32.

(** ** Slot points

    [srsran/ran/slot_point.h] is not part of the sources; the operations the
    two units use are taken as an interface.  The derived comparisons are
    the usual ones of the class: [<=] is [== or <], [>=] is [not <]. *)

Class SlotPoint (slot_point : Type) := {
  slot_eq_dec :: EqDecision slot_point;
  (** [operator<] *)
  slot_lt : slot_point -> slot_point -> bool;
  (** [operator+(unsigned)] *)
  slot_add : slot_point -> Z -> slot_point;
  (** [operator-(unsigned)] *)
  slot_sub : slot_point -> Z -> slot_point;
  (** [operator-(slot_point)]: number of slots between two slot points *)
  slot_diff : slot_point -> slot_point -> Z;
  (** [slot_index()]: index of the slot within its radio frame *)
  slot_index : slot_point -> Z;
  (** [slot_point()]: the default, invalid slot point *)
  slot_default : slot_point;
}.

Section slot_ops.
Context `{SlotPoint slot_point}.

Definition slot_le (a b : slot_point) : bool := bool_decide (a = b) || slot_lt a b.
Definition slot_ge (a b : slot_point) : bool := negb (slot_lt a b).

(** [interval<slot_point>], half open. *)
Record slot_interval := { start_ : slot_point; stop_ : slot_point }.

Definition contains (w : slot_interval) (x : slot_point) : bool :=
  slot_le (start_ w) x && slot_lt x (stop_ w).

Definition interval_length (w : slot_interval) : Z := slot_diff (stop_ w) (start_ w).
End slot_ops.
Arguments slot_interval slot_point : clear implicits.

(** Modelled from the spec: SlotPoint is an absolute slot index parameterized
    by the numerology mu in 0..4, comparable modulo its hyper-frame (1024
    frames of 10 * 2^mu slots); arithmetic adds slots within the same
    numerology.  Used to run the definitions on concrete slots. *)
Record nr_slot := { numerology : Z; count : Z }.

Global Instance nr_slot_eq_dec : EqDecision nr_slot.
Proof. solve_decision. Defined.

Definition nof_slots_per_frame (mu : Z) : Z := 10 * 2 ^ mu.
Definition nof_slots_per_hyper_frame (mu : Z) : Z := 1024 * nof_slots_per_frame mu.

Definition nr_slot_lt (a b : nr_slot) : bool :=
  let v := count b - count a in
  let half := nof_slots_per_hyper_frame (numerology a) / 2 in
  if 0 <? v then v <? half else v <? - half.

Definition nr_slot_add (a : nr_slot) (n : Z) : nr_slot :=
  {| numerology := numerology a;
     count := (count a + n) mod nof_slots_per_hyper_frame (numerology a) |}.

Definition nr_slot_sub (a : nr_slot) (n : Z) : nr_slot :=
  {| numerology := numerology a;
     count := (count a - n) mod nof_slots_per_hyper_frame (numerology a) |}.

Definition nr_slot_diff (a b : nr_slot) : Z :=
  let period := nof_slots_per_hyper_frame (numerology a) in
  let v := (count a - count b) mod period in
  if v <? period / 2 then v else v - period.

Definition nr_slot_index (a : nr_slot) : Z := count a mod nof_slots_per_frame (numerology a).

Global Instance nr_slot_point : SlotPoint nr_slot := {|
  slot_lt := nr_slot_lt;
  slot_add := nr_slot_add;
  slot_sub := nr_slot_sub;
  slot_diff := nr_slot_diff;
  slot_index := nr_slot_index;
  slot_default := {| numerology := 5; count := 0 |};
|}.

(** ** [get_msg3_delay] and [get_ra_rnti] (ra_scheduler.cpp, lines 21-48) *)

(** Numerology of a subcarrier spacing: kHz15 = 0, ..., kHz120 = 3, kHz240 = 4. *)
Inductive subcarrier_spacing := kHz15 | kHz30 | kHz60 | kHz120 | kHz240.

Definition to_numerology_value (scs : subcarrier_spacing) : nat :=
  match scs with
  | kHz15 => 0 | kHz30 => 1 | kHz60 => 2 | kHz120 => 3 | kHz240 => 4
  end%nat.

(** [ofdm_symbol_range], half open. *)
Record ofdm_symbol_range := { sym_start : nat; sym_stop : nat }.

Record pusch_time_domain_resource_allocation := {
  k2 : Z;
  pusch_symbols : ofdm_symbol_range;
}.

(** Table 6.1.2.1.1-5 of TS 38.214. *)
Definition DELTAS : list Z := [2; 3; 4; 6].

Definition get_msg3_delay (pusch_td_res_alloc : pusch_time_domain_resource_allocation)
    (pusch_scs : subcarrier_spacing) : outcome Z :=
  _ ← sanity_check (bool_decide (to_numerology_value pusch_scs <= to_numerology_value kHz120)%nat)
        "PUSCH subcarrier spacing not supported for MSG3 delay";
  match DELTAS !! to_numerology_value pusch_scs with
  | Some delta => Ok (u32 (int_of_u32 (u32_add (k2 pusch_td_res_alloc) delta)))
  | None => Abort "DELTAS: index out of range"
  end.

Section ra_rnti.
Context `{SlotPoint slot_point}.

Definition get_ra_rnti (sl_rx : slot_point) (symbol_index frequency_index : Z)
    (is_sul : bool) : Z :=
  u16 (u32_add
         (u32_add
            (u32_add (u32_add 1 symbol_index) (u32_mul 14 (slot_index sl_rx)))
            (u32_mul (u32_mul 14 80) frequency_index))
         (u32_mul (u32_mul (u32_mul 14 80) 8) (if is_sul then 1 else 0))).
End ra_rnti.

(** ** Containers *)

(** [container[i]] of a fixed-size array. *)
Definition at_index {A} (l : list A) (i : nat) : outcome A :=
  match l !! i with
  | Some x => Ok x
  | None => Abort "index out of range"
  end.

(** [std::find(begin, end, x) - begin], [None] for [end]. *)
Definition std_find `{EqDecision A} (x : A) (l : list A) : option nat :=
  fst <$> list_find (fun y => y = x) l.

(** [static_vector::full()] and [static_vector::emplace_back], which asserts
    that the vector is not full. *)
Definition full {A} (capacity : nat) (l : list A) : bool :=
  bool_decide (capacity <= length l)%nat.

Definition emplace_back {A} (capacity : nat) (l : list A) (x : A) : outcome (list A) :=
  if full capacity l then Abort "static_vector is full" else Ok (l ++ [x]).

(** [container.back()] *)
Definition back {A} (l : list A) : outcome A :=
  match last l with
  | Some x => Ok x
  | None => Abort "back() of an empty container"
  end.

(** [container.back() = x] *)
Definition set_back {A} (l : list A) (x : A) : list A := <[pred (length l) := x]> l.

(** A [for] loop over the elements (or the indices) [xs], threading the
    state. *)
Fixpoint for_each {S X} (body : S -> X -> outcome S) (s : S) (xs : list X) : outcome S :=
  match xs with
  | [] => Ok s
  | x :: xs' => s' ← body s x; for_each body s' xs'
  end.

(** ** Transmit buffer pool (tx_buffer_pool_impl.cpp) *)

Module TxBufferPool.

(** Modelled from the spec: [trx_buffer_identifier]
    (srsran/phy/upper/trx_buffer_identifier.h is not part of the sources).
    Identifier values are [invalid] (free), [unknown] (anonymous reservation)
    or a tagged (rnti, harq_id, is_dl) triple. *)
Inductive trx_buffer_identifier :=
  | id_invalid
  | id_unknown
  | id_harq (rnti : Z) (harq_id : Z) (is_dl : bool).

Global Instance trx_buffer_identifier_eq_dec : EqDecision trx_buffer_identifier.
Proof. solve_decision. Defined.

Inductive tx_buffer_state := st_available | st_reserved | st_locked.

Global Instance tx_buffer_state_eq_dec : EqDecision tx_buffer_state.
Proof. solve_decision. Defined.

Inductive tx_buffer_status := successful | already_in_use | insufficient_cb.

Global Instance tx_buffer_status_eq_dec : EqDecision tx_buffer_status.
Proof. solve_decision. Defined.

(** Modelled from the spec: [tx_buffer_impl] (tx_buffer_impl.h is not part
    of the sources).  A buffer is available, reserved or locked and holds a
    number of codeblocks taken from the codeblock pool shared by all buffers;
    while locked it cannot be reserved again ("HARQ already in use") nor
    expired; a reservation fails with "insufficient CBs" when the shared pool
    cannot provide the codeblocks; the unique buffer handle locks the buffer
    while it lives. *)
Record tx_buffer_impl := {
  current_state : tx_buffer_state;
  nof_codeblocks : nat;
}.

Definition is_free (b : tx_buffer_impl) : bool := bool_decide (current_state b = st_available).
Definition is_locked (b : tx_buffer_impl) : bool := bool_decide (current_state b = st_locked).
Definition get_nof_codeblocks (b : tx_buffer_impl) : nat := nof_codeblocks b.

(** [buffer.reserve(nof_codeblocks)]; the second component is the buffer
    afterwards, the third the free codeblocks of the shared pool. *)
Definition buffer_reserve (b : tx_buffer_impl) (n : nat) (free_cbs : nat)
    : tx_buffer_status * tx_buffer_impl * nat :=
  if is_locked b then (already_in_use, b, free_cbs)
  else
    let avail := (free_cbs + nof_codeblocks b)%nat in
    if bool_decide (n <= avail)%nat
    then (successful, {| current_state := st_reserved; nof_codeblocks := n |}, (avail - n)%nat)
    else (insufficient_cb, {| current_state := current_state b; nof_codeblocks := 0 |}, avail).

(** [buffer.expire()]: frees the buffer unless it is locked. *)
Definition buffer_expire (b : tx_buffer_impl) (free_cbs : nat) : bool * tx_buffer_impl * nat :=
  if is_locked b then (false, b, free_cbs)
  else (true, {| current_state := st_available; nof_codeblocks := 0 |},
        (free_cbs + nof_codeblocks b)%nat).

(** Construction of [unique_tx_buffer(buffer)]: takes the lock. *)
Definition buffer_lock (b : tx_buffer_impl) : tx_buffer_impl :=
  {| current_state := st_locked; nof_codeblocks := nof_codeblocks b |}.

(** Destruction of the unique buffer on the encoder thread: drops the lock. *)
Definition buffer_unlock (b : tx_buffer_impl) : tx_buffer_impl :=
  if is_locked b then {| current_state := st_reserved; nof_codeblocks := nof_codeblocks b |}
  else b.

(** The warnings [reserve] logs, one constructor per message. *)
Inductive pool_warning :=
  | warn_retx_identifier_not_found   (* "identifier for retransmissions not found." *)
  | warn_insufficient_buffers        (* "insufficient buffers in the pool." *)
  | warn_codeblocks_do_not_match     (* "number of codeblocks for retransmissions do not match." *)
  | warn_harq_already_in_use         (* "HARQ already in use" *)
  | warn_insufficient_cbs.           (* "insufficient CBs" *)

Global Instance pool_warning_eq_dec : EqDecision pool_warning.
Proof. solve_decision. Defined.

(** A [unique_tx_buffer]: the index of the buffer it owns, [None] when invalid. *)
Definition unique_tx_buffer := option nat.
Definition is_valid (b : unique_tx_buffer) : bool := bool_decide (is_Some b).

Section tx_buffer_pool.
Context `{SlotPoint slot_point}.

Record tx_buffer_pool_impl := {
  stopped : bool;
  identifiers : list trx_buffer_identifier;
  (** [None] is [null_expiration]. *)
  expirations : list (option slot_point);
  buffers : list tx_buffer_impl;
  (** free codeblocks of the codeblock pool *)
  codeblock_pool : nat;
  expire_timeout_slots : Z;
  pool_log : list pool_warning;
}.

Definition log_warning (w : pool_warning) (p : tx_buffer_pool_impl) : tx_buffer_pool_impl :=
  {| stopped := stopped p; identifiers := identifiers p; expirations := expirations p;
     buffers := buffers p; codeblock_pool := codeblock_pool p;
     expire_timeout_slots := expire_timeout_slots p;
     pool_log := pool_log p ++ [w] |}.

Definition status_warning (status : tx_buffer_status) : pool_warning :=
  if bool_decide (status = already_in_use) then warn_harq_already_in_use
  else warn_insufficient_cbs.

(** Lines 56-89 and 109-132: the part both overloads share once the
    buffer index is known; [check_retx] is [!new_data]. *)
Definition reserve_at (slot : slot_point) (id : trx_buffer_identifier)
    (nof_cbs : nat) (check_retx : bool) (i_buffer : nat) (p : tx_buffer_pool_impl)
    : outcome (tx_buffer_pool_impl * unique_tx_buffer) :=
  buffer ← at_index (buffers p) i_buffer;
  if check_retx && negb (bool_decide (nof_cbs = get_nof_codeblocks buffer)) then
    Ok (log_warning warn_codeblocks_do_not_match p, None)
  else
    let '(status, buffer', cbs') := buffer_reserve buffer nof_cbs (codeblock_pool p) in
    if negb (bool_decide (status = successful)) then
      Ok (log_warning (status_warning status)
            {| stopped := stopped p; identifiers := identifiers p;
               expirations := expirations p;
               buffers := <[i_buffer := buffer']> (buffers p);
               codeblock_pool := cbs';
               expire_timeout_slots := expire_timeout_slots p;
               pool_log := pool_log p |}, None)
    else
      Ok ({| stopped := stopped p;
             identifiers := <[i_buffer := id]> (identifiers p);
             expirations :=
               <[i_buffer := Some (slot_add slot (expire_timeout_slots p))]> (expirations p);
             buffers := <[i_buffer := buffer_lock buffer']> (buffers p);
             codeblock_pool := cbs';
             expire_timeout_slots := expire_timeout_slots p;
             pool_log := pool_log p |}, Some i_buffer).

(** [reserve(slot, id, nof_codeblocks, new_data)], lines 24-90. *)
Definition reserve (slot : slot_point) (id : trx_buffer_identifier) (nof_cbs : nat)
    (new_data : bool) (p : tx_buffer_pool_impl)
    : outcome (tx_buffer_pool_impl * unique_tx_buffer) :=
  if stopped p then Ok (p, None)
  else
    match std_find id (identifiers p) with
    | Some i_buffer => reserve_at slot id nof_cbs (negb new_data) i_buffer p
    | None =>
        if new_data then
          match std_find id_invalid (identifiers p) with
          | Some i_buffer => reserve_at slot id nof_cbs (negb new_data) i_buffer p
          | None => Ok (log_warning warn_insufficient_buffers p, None)
          end
        else Ok (log_warning warn_retx_identifier_not_found p, None)
    end.

(** [reserve(slot, nof_codeblocks)], lines 92-133. *)
Definition reserve_anonymous (slot : slot_point) (nof_cbs : nat) (p : tx_buffer_pool_impl)
    : outcome (tx_buffer_pool_impl * unique_tx_buffer) :=
  if stopped p then Ok (p, None)
  else
    match std_find id_invalid (identifiers p) with
    | Some i_buffer => reserve_at slot id_unknown nof_cbs false i_buffer p
    | None => Ok (log_warning warn_insufficient_buffers p, None)
    end.

(** Body of the loop of [run_slot], lines 143-167, at the index [i_buffer];
    [std::find_if] skips the indices whose identifier is invalid. *)
Definition run_slot_body (slot : slot_point) (p : tx_buffer_pool_impl) (i_buffer : nat)
    : outcome tx_buffer_pool_impl :=
  id ← at_index (identifiers p) i_buffer;
  if bool_decide (id = id_invalid) then Ok p
  else
    buffer ← at_index (buffers p) i_buffer;
    expiration ← at_index (expirations p) i_buffer;
    let expired :=
      match expiration with
      | Some e => slot_le e slot
      | None => false
      end in
    let '(free, buffer', cbs') :=
      if expired then buffer_expire buffer (codeblock_pool p)
      else (is_free buffer, buffer, codeblock_pool p) in
    let expiration' :=
      if expired && negb free then Some (slot_add slot (expire_timeout_slots p))
      else expiration in
    Ok {| stopped := stopped p;
          identifiers :=
            if free then <[i_buffer := id_invalid]> (identifiers p) else identifiers p;
          expirations :=
            <[i_buffer := if free then None else expiration']> (expirations p);
          buffers := <[i_buffer := buffer']> (buffers p);
          codeblock_pool := cbs';
          expire_timeout_slots := expire_timeout_slots p;
          pool_log := pool_log p |}.

(** [run_slot(slot)], lines 135-169. *)
Definition run_slot (slot : slot_point) (p : tx_buffer_pool_impl)
    : outcome tx_buffer_pool_impl :=
  for_each (run_slot_body slot) p (seq 0 (length (identifiers p))).

(** What the encoder threads do while [stop] sleeps: one step of the
    schedule unlocks the buffer of the given index. *)
Definition encoder_unlock (i : nat) (p : tx_buffer_pool_impl) : tx_buffer_pool_impl :=
  {| stopped := stopped p; identifiers := identifiers p; expirations := expirations p;
     buffers := alter buffer_unlock i (buffers p);
     codeblock_pool := codeblock_pool p;
     expire_timeout_slots := expire_timeout_slots p;
     pool_log := pool_log p |}.

(** [while (buffer.is_locked()) sleep_for(10us)], lines 182-184: every
    sleep lets the next step of the encoder schedule happen; [None] when the
    schedule ends with the buffer still locked (the loop never exits). *)
Fixpoint wait_unlocked (i : nat) (sched : list nat) (p : tx_buffer_pool_impl)
    : option (list nat * tx_buffer_pool_impl) :=
  match buffers p !! i with
  | None => Some (sched, p)
  | Some buffer =>
      if is_locked buffer then
        match sched with
        | [] => None
        | j :: sched' => wait_unlocked i sched' (encoder_unlock j p)
        end
      else Some (sched, p)
  end.

Fixpoint wait_all_unlocked (idxs : list nat) (sched : list nat) (p : tx_buffer_pool_impl)
    : option (list nat * tx_buffer_pool_impl) :=
  match idxs with
  | [] => Some (sched, p)
  | i :: idxs' =>
      match wait_unlocked i sched p with
      | None => None
      | Some (sched', p') => wait_all_unlocked idxs' sched' p'
      end
  end.

(** [stop()], lines 175-186, against the encoder schedule [sched]. *)
Definition stop (sched : list nat) (p : tx_buffer_pool_impl) : option tx_buffer_pool_impl :=
  let p1 := {| stopped := true; identifiers := identifiers p;
               expirations := expirations p; buffers := buffers p;
               codeblock_pool := codeblock_pool p;
               expire_timeout_slots := expire_timeout_slots p;
               pool_log := pool_log p |} in
  snd <$> wait_all_unlocked (seq 0 (length (buffers p1))) sched p1.

(** The parallel arrays of the pool have one entry per buffer. *)
Definition pool_wf (p : tx_buffer_pool_impl) : Prop :=
  length (identifiers p) = length (buffers p) /\
  length (expirations p) = length (buffers p).

(** [i] is the first index of [l] that holds [x]: where a search in index
    order for [x] ends. *)
Definition is_first {A} (x : A) (l : list A) (i : nat) : Prop :=
  l !! i = Some x /\ forall j, (j < i)%nat -> l !! j <> Some x.

(** What a slot tick owes the buffer at index [i], [p] being the pool before
    and [p'] the pool after: an expired buffer is freed unless it is locked,
    a locked one gets a new deadline, and a buffer that is neither expired nor
    free is left as it is. *)
Definition expiration_handled (slot : slot_point) (p p' : tx_buffer_pool_impl) (i : nat)
  : Prop :=
  forall id buffer exp,
    identifiers p !! i = Some id -> buffers p !! i = Some buffer ->
    expirations p !! i = Some exp -> id <> id_invalid ->
    (forall e, exp = Some e -> slot_le e slot = true -> is_locked buffer = false ->
       identifiers p' !! i = Some id_invalid /\ expirations p' !! i = Some None /\
       (exists b', buffers p' !! i = Some b' /\ is_free b' = true)) /\
    (forall e, exp = Some e -> slot_le e slot = true -> is_locked buffer = true ->
       identifiers p' !! i = Some id /\
       expirations p' !! i = Some (Some (slot_add slot (expire_timeout_slots p))) /\
       buffers p' !! i = Some buffer) /\
    ((forall e, exp = Some e -> slot_le e slot = false) -> is_free buffer = false ->
       identifiers p' !! i = Some id /\ expirations p' !! i = Some exp /\
       buffers p' !! i = Some buffer).

(** The entry of index [j] is the same in both pools. *)
Definition same_entry (p p' : tx_buffer_pool_impl) (j : nat) : Prop :=
  identifiers p' !! j = identifiers p !! j /\
  expirations p' !! j = expirations p !! j /\
  buffers p' !! j = buffers p !! j.

(** No two buffers are reserved under the same HARQ identifier. *)
Definition identifiers_unique (p : tx_buffer_pool_impl) : Prop :=
  forall i j rnti harq_id is_dl,
    identifiers p !! i = Some (id_harq rnti harq_id is_dl) ->
    identifiers p !! j = Some (id_harq rnti harq_id is_dl) -> i = j.

(** Every buffer that is held under an identifier is in use (reserved or
    locked): no entry keeps an identifier for a buffer that is free. *)
Definition reserved_in_use (p : tx_buffer_pool_impl) : Prop :=
  forall i id buffer,
    identifiers p !! i = Some id -> id <> id_invalid ->
    buffers p !! i = Some buffer -> is_free buffer = false.

(** The buffer at index [i] is locked. *)
Definition locked_at (p : tx_buffer_pool_impl) (i : nat) : Prop :=
  exists buffer, buffers p !! i = Some buffer /\ is_locked buffer = true.

(** The entry of index [i] needs nothing more from a tick at [slot]: if it
    holds an identifier its buffer is in use, and if its expiration slot has
    been reached the buffer is locked and the expiration is the one a tick
    at [slot] gives a locked buffer. *)
Definition tick_settled (slot : slot_point) (p : tx_buffer_pool_impl) (i : nat) : Prop :=
  forall id buffer exp,
    identifiers p !! i = Some id -> buffers p !! i = Some buffer ->
    expirations p !! i = Some exp -> id <> id_invalid ->
    is_free buffer = false /\
    (forall e, exp = Some e -> slot_le e slot = true ->
       is_locked buffer = true /\ e = slot_add slot (expire_timeout_slots p)).
End tx_buffer_pool.
Arguments tx_buffer_pool_impl slot_point : clear implicits.

End TxBufferPool.

(** ** RA scheduler (ra_scheduler.cpp) *)

Module RaScheduler.

(** [crb_interval] and [prb_interval], half open. *)
Record rb_interval := { rb_start : nat; rb_stop : nat }.

Global Instance rb_interval_eq_dec : EqDecision rb_interval.
Proof. solve_decision. Defined.

Definition rb_length (iv : rb_interval) : nat := (rb_stop iv - rb_start iv)%nat.
Definition rb_resize (iv : rb_interval) (n : nat) : rb_interval :=
  {| rb_start := rb_start iv; rb_stop := (rb_start iv + n)%nat |}.

Record bwp_configuration := {
  scs : subcarrier_spacing;
  crbs : rb_interval;
}.

(** Modelled from the spec: the CRB/PRB conversion depends on the start of the
    active BWP, and [crb_to_prb (prb_to_crb x) = x]. *)
Definition crb_to_prb (bwp : bwp_configuration) (iv : rb_interval) : rb_interval :=
  {| rb_start := (rb_start iv - rb_start (crbs bwp))%nat;
     rb_stop := (rb_stop iv - rb_start (crbs bwp))%nat |}.
Definition prb_to_crb (bwp : bwp_configuration) (iv : rb_interval) : rb_interval :=
  {| rb_start := (rb_start iv + rb_start (crbs bwp))%nat;
     rb_stop := (rb_stop iv + rb_start (crbs bwp))%nat |}.

Record grant_info := {
  grant_scs : subcarrier_spacing;
  grant_symbols : ofdm_symbol_range;
  grant_crbs : rb_interval;
}.

(** A bitmap over CRBs, bit set = used. *)
Definition crb_bitmap := list bool.

(** Interface of the slot resource grid ([cell_slot_resource_grid], not part
    of the sources): [used_crbs], [fill] and [collides]. *)
Class ResourceGrid (grid : Type) := {
  used_crbs : grid -> bwp_configuration -> ofdm_symbol_range -> crb_bitmap;
  fill : grid -> grant_info -> grid;
  collides : grid -> grant_info -> bool;
}.

(** Interface of the UL HARQ process of a pending Msg3 ([ul_harq_process],
    not part of the sources).  Calls that mutate the process return it. *)
Class UlHarqProcess (slot_point harq_t : Type) := {
  harq_pid : harq_t -> Z;
  harq_empty : harq_t -> bool;
  harq_has_pending_retx : harq_t -> bool;
  harq_prbs : harq_t -> rb_interval;
  harq_nof_retx : harq_t -> nat;
  harq_mcs : harq_t -> nat -> Z;
  harq_ack_info : harq_t -> nat -> bool -> harq_t;
  harq_slot_indication : harq_t -> slot_point -> harq_t;
  harq_new_tx : harq_t -> slot_point -> rb_interval -> Z -> nat -> bool * harq_t;
  harq_new_retx : harq_t -> slot_point -> rb_interval -> bool * harq_t;
  harq_reset : harq_t -> harq_t;
  harq_set_tbs : harq_t -> nat -> harq_t;
}.

(** Helpers of the scheduler that are not part of the sources:
    [find_empty_interval_of_length], [ra_frequency_type1_get_riv],
    [tbs_calculator_calculate] (here by number of symbols, MCS index and number
    of PRBs) and the CCE search of the PDCCH allocator, which returns the
    allocator with the CCEs recorded, or [None] when no candidate fits. *)
Class SchedHelpers (slot_point pdcch_sch_t : Type) := {
  find_empty_interval_of_length : crb_bitmap -> nat -> nat -> rb_interval;
  ra_frequency_type1_get_riv : nat -> nat -> nat -> Z;
  tbs_calculator_calculate : nat -> Z -> nat -> nat;
  alloc_cces : pdcch_sch_t -> slot_point -> Z -> nat -> nat -> option pdcch_sch_t;
}.

(** *** Scheduler results *)

(** The records keep the fields that the scheduler computes from the
    allocation (RNTI, PRBs, symbols, DCI payload, MCS and RV indices, HARQ id,
    TB size, the grants of a RAR).  Fields that only repeat the cell
    configuration or a constant (BWP and CORESET pointers, MCS table,
    modulation, code rate, DM-RS, [n_id], ...) are left out; the timing
    advance is kept as received, without the conversion [to_Ta]. *)

Inductive dci_dl_rnti_config_type := dci_dl_unset | ra_f1_0.
Inductive dci_ul_rnti_config_type := dci_ul_unset | tc_rnti_f0_0.

Record dci_1_0_ra_rnti_configuration := {
  N_rb_dl_bwp : nat;
  dl_frequency_resource : Z;
  dl_time_resource : nat;
  vrb_to_prb_mapping : Z;
  dl_modulation_coding_scheme : Z;
  tb_scaling : Z;
}.

Record dci_0_0_tc_rnti_configuration := {
  N_rb_ul_bwp : nat;
  ul_frequency_resource : Z;
  ul_time_resource : nat;
  frequency_hopping_flag : Z;
  ul_modulation_coding_scheme : Z;
  redundancy_version : Z;
  tpc_command : Z;
}.

Record pdcch_dl_information := {
  dl_ctx_rnti : Z;
  dl_dci_type : dci_dl_rnti_config_type;
  dl_dci : option dci_1_0_ra_rnti_configuration;
}.

Record pdcch_ul_information := {
  ul_ctx_rnti : Z;
  ul_dci_type : dci_ul_rnti_config_type;
  ul_dci : option dci_0_0_tc_rnti_configuration;
}.

Record rar_ul_grant := {
  rapid : Z;
  ta : Z;
  temp_crnti : Z;
  time_resource_assignment : nat;
  freq_resource_assignment : Z;
  grant_mcs : Z;
  tpc : Z;
  csi_req : bool;
}.

Record rar_information := {
  pdsch_rnti : Z;
  pdsch_prbs : rb_interval;
  pdsch_symbols : ofdm_symbol_range;
  cw_mcs_index : Z;
  cw_rv_index : Z;
  cw_tb_size_bytes : nat;
  grants : list rar_ul_grant;
}.

Record ul_sched_info := {
  pusch_rnti : Z;
  pusch_prbs : rb_interval;
  pusch_cfg_symbols : ofdm_symbol_range;
  pusch_mcs_index : Z;
  pusch_rv_index : Z;
  pusch_harq_id : Z;
  pusch_new_data : bool;
  pusch_tb_size_bytes : nat;
}.

Record sched_prbs_tbs := { nof_prbs : nat; tbs_bytes : nat }.

Record msg3_alloc_candidate := {
  cand_crbs : rb_interval;
  pusch_td_res_index : nat;
}.

Record pdsch_time_domain_resource_allocation := {
  k0 : nat;
  pdsch_td_symbols : ofdm_symbol_range;
}.

(** Capacities of the fixed-size containers and [MAX_NOF_MSG3]; the headers
    that set them are not part of the sources. *)
Record sched_constants := {
  MAX_NOF_MSG3 : nat;
  MAX_PREAMBLES_PER_PRACH_OCCASION : nat;
  MAX_GRANTS_PER_RAR : nat;
  MAX_RAR_PDUS_PER_SLOT : nat;
  MAX_DL_PDCCH_PDUS_PER_SLOT : nat;
  MAX_UL_PDCCH_PDUS_PER_SLOT : nat;
  MAX_PUSCH_PDUS_PER_SLOT : nat;
}.

Record rach_preamble := {
  preamble_id : Z;
  tc_rnti : Z;
  time_advance : Z;
}.

Record rach_occasion := {
  start_symbol : Z;
  frequency_index : Z;
  preambles : list rach_preamble;
}.

Record ul_crc_pdu_indication := {
  (** [None] is [INVALID_DU_UE_INDEX]. *)
  crc_ue_index : option nat;
  crc_rnti : Z;
  crc_harq_id : Z;
  tb_crc_success : bool;
}.

(** What the scheduler logs. *)
Inductive ra_log :=
  | info_new_prach (preamble : Z) (ra_rnti : Z) (temp_crnti : Z)
  | warn_prach_ignored (tc_rnti : Z)
  | warn_invalid_crc_rnti (rnti : Z)
  | warn_invalid_crc_harq (rnti : Z)
  | warn_rar_window_passed (ra_rnti : Z)
  | debug_rar_postponed (ra_rnti : Z) (cause : string)
  | warn_no_space_in_output_list
  | warn_failed_pdcch_msg3_retx
  | warn_failed_msg3_retx.

Section ra_scheduler.
Context {slot_point harq_t grid_t pdcch_sch_t : Type}.
Context `{!SlotPoint slot_point} `{!UlHarqProcess slot_point harq_t}.
Context `{!ResourceGrid grid_t} `{!SchedHelpers slot_point pdcch_sch_t}.

Record rach_indication_message := {
  rach_slot_rx : slot_point;
  occasions : list rach_occasion;
}.

Record ul_crc_indication := {
  crcs : list ul_crc_pdu_indication;
}.

Record pending_rar_t := {
  ra_rnti : Z;
  prach_slot_rx : slot_point;
  rar_window : slot_interval slot_point;
  tc_rntis : list Z;
}.

Record pending_msg3 := {
  preamble : rach_preamble;
  harq : harq_t;
}.

(** The part of [cell_configuration] the RA scheduler reads.  The TDD
    pattern is kept as its period in slots and the two predicates;
    [pusch_td_alloc_list] is the PUSCH time-domain resource table of the
    common PUSCH configuration. *)
Record cell_configuration := {
  nof_slots_per_tdd_period : option nat;
  is_dl_enabled : slot_point -> bool;
  is_ul_enabled : slot_point -> bool;
  is_pdcch_monitoring_active : slot_point -> bool;
  ra_search_space_id : nat;
  ra_resp_window : Z;
  dl_bwp_cfg : bwp_configuration;
  ul_bwp_cfg : bwp_configuration;
  pdsch_td_alloc_list : list pdsch_time_domain_resource_allocation;
  pusch_td_alloc_list : list pusch_time_domain_resource_allocation;
  limits : sched_constants;
}.

(** [cell_slot_resource_allocator]: the grids and the results of one slot. *)
Record cell_slot_resource_allocator := {
  slot : slot_point;
  dl_res_grid : grid_t;
  ul_res_grid : grid_t;
  dl_pdcchs : list pdcch_dl_information;
  ul_pdcchs : list pdcch_ul_information;
  rar_grants : list rar_information;
  puschs : list ul_sched_info;
}.

(** The scheduler together with the objects it writes during a slot: the
    cell resource allocator (entry [k] is slot [slot_tx + k]) and the PDCCH
    allocator. *)
Record ra_scheduler := {
  cfg : cell_configuration;
  initial_active_dl_bwp : bwp_configuration;
  rar_data : list sched_prbs_tbs;
  msg3_data : list sched_prbs_tbs;
  pending_rachs : list rach_indication_message;
  pending_crcs : list ul_crc_indication;
  pending_rars : list pending_rar_t;
  pending_msg3s : list pending_msg3;
  res_alloc : list cell_slot_resource_allocator;
  pdcch_sch : pdcch_sch_t;
  logger : list ra_log;
}.

Definition set_pending_rars (v : list pending_rar_t) (s : ra_scheduler) : ra_scheduler :=
  {| cfg := cfg s; initial_active_dl_bwp := initial_active_dl_bwp s; rar_data := rar_data s;
     msg3_data := msg3_data s; pending_rachs := pending_rachs s; pending_crcs := pending_crcs s;
     pending_rars := v; pending_msg3s := pending_msg3s s; res_alloc := res_alloc s;
     pdcch_sch := pdcch_sch s; logger := logger s |}.

Definition set_pending_msg3s (v : list pending_msg3) (s : ra_scheduler) : ra_scheduler :=
  {| cfg := cfg s; initial_active_dl_bwp := initial_active_dl_bwp s; rar_data := rar_data s;
     msg3_data := msg3_data s; pending_rachs := pending_rachs s; pending_crcs := pending_crcs s;
     pending_rars := pending_rars s; pending_msg3s := v; res_alloc := res_alloc s;
     pdcch_sch := pdcch_sch s; logger := logger s |}.

Definition set_res_alloc (v : list cell_slot_resource_allocator) (s : ra_scheduler)
  : ra_scheduler :=
  {| cfg := cfg s; initial_active_dl_bwp := initial_active_dl_bwp s; rar_data := rar_data s;
     msg3_data := msg3_data s; pending_rachs := pending_rachs s; pending_crcs := pending_crcs s;
     pending_rars := pending_rars s; pending_msg3s := pending_msg3s s; res_alloc := v;
     pdcch_sch := pdcch_sch s; logger := logger s |}.

Definition set_pdcch_sch (v : pdcch_sch_t) (s : ra_scheduler) : ra_scheduler :=
  {| cfg := cfg s; initial_active_dl_bwp := initial_active_dl_bwp s; rar_data := rar_data s;
     msg3_data := msg3_data s; pending_rachs := pending_rachs s; pending_crcs := pending_crcs s;
     pending_rars := pending_rars s; pending_msg3s := pending_msg3s s; res_alloc := res_alloc s;
     pdcch_sch := v; logger := logger s |}.

Definition set_queues (rachs : list rach_indication_message) (crc_inds : list ul_crc_indication)
    (s : ra_scheduler) : ra_scheduler :=
  {| cfg := cfg s; initial_active_dl_bwp := initial_active_dl_bwp s; rar_data := rar_data s;
     msg3_data := msg3_data s; pending_rachs := rachs; pending_crcs := crc_inds;
     pending_rars := pending_rars s; pending_msg3s := pending_msg3s s; res_alloc := res_alloc s;
     pdcch_sch := pdcch_sch s; logger := logger s |}.

Definition log (e : ra_log) (s : ra_scheduler) : ra_scheduler :=
  {| cfg := cfg s; initial_active_dl_bwp := initial_active_dl_bwp s; rar_data := rar_data s;
     msg3_data := msg3_data s; pending_rachs := pending_rachs s; pending_crcs := pending_crcs s;
     pending_rars := pending_rars s; pending_msg3s := pending_msg3s s; res_alloc := res_alloc s;
     pdcch_sch := pdcch_sch s; logger := logger s ++ [e] |}.

Definition set_slot_alloc (k : nat) (a : cell_slot_resource_allocator) (s : ra_scheduler)
  : ra_scheduler :=
  set_res_alloc (<[k := a]> (res_alloc s)) s.

(** [res_alloc.slot_tx()] *)
Definition slot_tx (s : ra_scheduler) : outcome slot_point :=
  a ← at_index (res_alloc s) 0; Ok (slot a).

(** [MAX_NOF_MSG3] index of a TC-RNTI: [tc_rnti % MAX_NOF_MSG3]. *)
Definition msg3_index (s : ra_scheduler) (rnti : Z) : nat :=
  Z.to_nat (rnti mod Z.of_nat (MAX_NOF_MSG3 (limits (cfg s)))).

(** *** RACH indications (lines 99-166) *)

(** [handle_rach_indication]: buffered until the next slot. *)
Definition handle_rach_indication (msg : rach_indication_message) (s : ra_scheduler)
  : ra_scheduler :=
  set_queues (pending_rachs s ++ [msg]) (pending_crcs s) s.

(** Lines 112-118: the pending RAR of the PRACH occasion, if there is one. *)
Definition find_pending_rar (rnti : Z) (slot_rx : slot_point) (rars : list pending_rar_t)
  : option nat :=
  fst <$> list_find (fun rar => ra_rnti rar = rnti /\ prach_slot_rx rar = slot_rx) rars.

Definition set_rar_window (w : slot_interval slot_point) (rar : pending_rar_t) : pending_rar_t :=
  {| ra_rnti := ra_rnti rar; prach_slot_rx := prach_slot_rx rar; rar_window := w;
     tc_rntis := tc_rntis rar |}.

Definition set_tc_rntis (l : list Z) (rar : pending_rar_t) : pending_rar_t :=
  {| ra_rnti := ra_rnti rar; prach_slot_rx := prach_slot_rx rar;
     rar_window := rar_window rar; tc_rntis := l |}.

Definition prach_duration : Z := 1.

(** Lines 127-143: the RAR window of the request. *)
Definition update_rar_window (c : cell_configuration) (w_nof_slots : Z) (rar : pending_rar_t)
  : outcome pending_rar_t :=
  match nof_slots_per_tdd_period c with
  | Some period =>
      let sl_start_of (sl_idx : nat) :=
        slot_add (slot_add (prach_slot_rx rar) prach_duration) (Z.of_nat sl_idx) in
      let rar' :=
        match list_find (fun sl_idx => is_dl_enabled c (sl_start_of sl_idx) = true)
                (seq 0 period) with
        | Some (sl_idx, _) =>
            set_rar_window {| start_ := sl_start_of sl_idx;
                              stop_ := slot_add (sl_start_of sl_idx) w_nof_slots |} rar
        | None => rar
        end in
      _ ← sanity_check (negb (bool_decide (interval_length (rar_window rar') = 0)))
            "Invalid configuration";
      Ok rar'
  | None =>
      Ok (set_rar_window
            {| start_ := slot_add (prach_slot_rx rar) prach_duration;
               stop_ := slot_add (slot_add (prach_slot_rx rar) prach_duration) w_nof_slots |}
            rar)
  end.

(** Lines 145-164: one preamble of the occasion whose pending RAR is at
    index [rar_idx]. *)
Definition handle_preamble (ra_rnti_ : Z) (rar_idx : nat) (s : ra_scheduler)
    (prach_preamble : rach_preamble) : outcome ra_scheduler :=
  let s := log (info_new_prach (preamble_id prach_preamble) ra_rnti_ (tc_rnti prach_preamble)) s in
  let i := msg3_index s (tc_rnti prach_preamble) in
  msg3 ← at_index (pending_msg3s s) i;
  if negb (harq_empty (harq msg3)) then
    Ok (log (warn_prach_ignored (tc_rnti prach_preamble)) s)
  else
    rar_req ← at_index (pending_rars s) rar_idx;
    rntis ← emplace_back (MAX_PREAMBLES_PER_PRACH_OCCASION (limits (cfg s)))
              (tc_rntis rar_req) (tc_rnti prach_preamble);
    let s := set_pending_rars (<[rar_idx := set_tc_rntis rntis rar_req]> (pending_rars s)) s in
    Ok (set_pending_msg3s
          (<[i := {| preamble := prach_preamble; harq := harq msg3 |}]> (pending_msg3s s)) s).

(** Lines 109-165: one PRACH occasion. *)
Definition handle_prach_occasion (slot_rx : slot_point) (s : ra_scheduler)
    (prach_occ : rach_occasion) : outcome ra_scheduler :=
  let rnti := get_ra_rnti slot_rx (start_symbol prach_occ) (frequency_index prach_occ) false in
  let '(rar_idx, s) :=
    match find_pending_rar rnti slot_rx (pending_rars s) with
    | Some i => (i, s)
    | None =>
        (length (pending_rars s),
         set_pending_rars
           (pending_rars s ++
              [{| ra_rnti := rnti; prach_slot_rx := slot_rx;
                  rar_window := {| start_ := slot_default; stop_ := slot_default |};
                  tc_rntis := [] |}]) s)
    end in
  rar_req ← at_index (pending_rars s) rar_idx;
  rar_req ← update_rar_window (cfg s) (ra_resp_window (cfg s)) rar_req;
  let s := set_pending_rars (<[rar_idx := rar_req]> (pending_rars s)) s in
  for_each (handle_preamble rnti rar_idx) s (preambles prach_occ).

Definition handle_rach_indication_impl (s : ra_scheduler) (msg : rach_indication_message)
  : outcome ra_scheduler :=
  for_each (handle_prach_occasion (rach_slot_rx msg)) s (occasions msg).

(** *** Slot allocations *)

Definition set_dl_res_grid (g : grid_t) (a : cell_slot_resource_allocator)
  : cell_slot_resource_allocator :=
  {| slot := slot a; dl_res_grid := g; ul_res_grid := ul_res_grid a; dl_pdcchs := dl_pdcchs a;
     ul_pdcchs := ul_pdcchs a; rar_grants := rar_grants a; puschs := puschs a |}.

Definition set_ul_res_grid (g : grid_t) (a : cell_slot_resource_allocator)
  : cell_slot_resource_allocator :=
  {| slot := slot a; dl_res_grid := dl_res_grid a; ul_res_grid := g; dl_pdcchs := dl_pdcchs a;
     ul_pdcchs := ul_pdcchs a; rar_grants := rar_grants a; puschs := puschs a |}.

Definition set_dl_pdcchs (l : list pdcch_dl_information) (a : cell_slot_resource_allocator)
  : cell_slot_resource_allocator :=
  {| slot := slot a; dl_res_grid := dl_res_grid a; ul_res_grid := ul_res_grid a; dl_pdcchs := l;
     ul_pdcchs := ul_pdcchs a; rar_grants := rar_grants a; puschs := puschs a |}.

Definition set_ul_pdcchs (l : list pdcch_ul_information) (a : cell_slot_resource_allocator)
  : cell_slot_resource_allocator :=
  {| slot := slot a; dl_res_grid := dl_res_grid a; ul_res_grid := ul_res_grid a;
     dl_pdcchs := dl_pdcchs a; ul_pdcchs := l; rar_grants := rar_grants a; puschs := puschs a |}.

Definition set_rar_grants (l : list rar_information) (a : cell_slot_resource_allocator)
  : cell_slot_resource_allocator :=
  {| slot := slot a; dl_res_grid := dl_res_grid a; ul_res_grid := ul_res_grid a;
     dl_pdcchs := dl_pdcchs a; ul_pdcchs := ul_pdcchs a; rar_grants := l; puschs := puschs a |}.

Definition set_puschs (l : list ul_sched_info) (a : cell_slot_resource_allocator)
  : cell_slot_resource_allocator :=
  {| slot := slot a; dl_res_grid := dl_res_grid a; ul_res_grid := ul_res_grid a;
     dl_pdcchs := dl_pdcchs a; ul_pdcchs := ul_pdcchs a; rar_grants := rar_grants a; puschs := l |}.

(** [aggregation_level::n4] *)
Definition aggregation_level_n4 : nat := 4.

(** Modelled from the spec: [alloc_pdcch_common(slot_alloc, rnti, ss_id,
    aggregation_level)] of the PDCCH resource allocator, which is not part of
    the sources.  It returns null, touching nothing, when the list is full or
    no CCE candidate fits; otherwise the CCEs are recorded and the new entry
    is the last one of [dl_pdcchs].  [None] is the null pointer. *)
Definition alloc_pdcch_common (k : nat) (rnti : Z) (ss_id aggr_lvl : nat) (s : ra_scheduler)
  : outcome (option ra_scheduler) :=
  a ← at_index (res_alloc s) k;
  if full (MAX_DL_PDCCH_PDUS_PER_SLOT (limits (cfg s))) (dl_pdcchs a) then Ok None
  else
    match alloc_cces (pdcch_sch s) (slot a) rnti ss_id aggr_lvl with
    | None => Ok None
    | Some sch' =>
        let pdcch := {| dl_ctx_rnti := rnti; dl_dci_type := dci_dl_unset; dl_dci := None |} in
        Ok (Some (set_pdcch_sch sch' (set_slot_alloc k (set_dl_pdcchs (dl_pdcchs a ++ [pdcch]) a) s)))
    end.

(** Modelled from the spec: [alloc_ul_pdcch_common], as above for [ul_pdcchs]. *)
Definition alloc_ul_pdcch_common (k : nat) (rnti : Z) (ss_id aggr_lvl : nat) (s : ra_scheduler)
  : outcome (option ra_scheduler) :=
  a ← at_index (res_alloc s) k;
  if full (MAX_UL_PDCCH_PDUS_PER_SLOT (limits (cfg s))) (ul_pdcchs a) then Ok None
  else
    match alloc_cces (pdcch_sch s) (slot a) rnti ss_id aggr_lvl with
    | None => Ok None
    | Some sch' =>
        let pdcch := {| ul_ctx_rnti := rnti; ul_dci_type := dci_ul_unset; ul_dci := None |} in
        Ok (Some (set_pdcch_sch sch' (set_slot_alloc k (set_ul_pdcchs (ul_pdcchs a ++ [pdcch]) a) s)))
    end.

(** *** [schedule_rar] (lines 315-406) *)

(** [a - b] on [unsigned]. *)
Definition unsigned_sub (a b : nat) : nat := Z.to_nat (u32 (Z.of_nat a - Z.of_nat b)).

(** [a / b] on [unsigned]; dividing by zero is undefined. *)
Definition unsigned_div (a b : nat) : outcome nat :=
  if bool_decide (b = 0%nat) then Abort "division by zero" else Ok (a / b)%nat.

Definition log_postponed_rar (rar : pending_rar_t) (cause : string) (s : ra_scheduler)
  : ra_scheduler :=
  log (debug_rar_postponed (ra_rnti rar) cause) s.

(** Lines 381-387: the Msg3 candidates registered for one PUSCH resource. *)
Definition register_msg3_candidates (capacity puschidx nof_prbs_per_msg3 : nat)
    (acc : list msg3_alloc_candidate * nat) (i : nat)
  : outcome (list msg3_alloc_candidate * nat) :=
  let '(msg3_candidates, last_crb) := acc in
  l ← emplace_back capacity msg3_candidates
        {| cand_crbs := {| rb_start := last_crb; rb_stop := (last_crb + nof_prbs_per_msg3)%nat |};
           pusch_td_res_index := puschidx |};
  Ok (l, (last_crb + nof_prbs_per_msg3)%nat).

(** Lines 354-388: body of the loop over the PUSCH time-domain resources. *)
Definition find_msg3_candidates (s : ra_scheduler) (max_nof_allocs : nat)
    (msg3_candidates : list msg3_alloc_candidate) (puschidx : nat)
  : outcome (list msg3_alloc_candidate) :=
  let pusch_res_max_allocs := unsigned_sub max_nof_allocs (length msg3_candidates) in
  pusch_td ← at_index (pusch_td_alloc_list (cfg s)) puschidx;
  msg3_delay ← get_msg3_delay pusch_td (scs (ul_bwp_cfg (cfg s)));
  msg3_alloc ← at_index (res_alloc s) (Z.to_nat msg3_delay);
  if negb (is_ul_enabled (cfg s) (slot msg3_alloc)) then Ok msg3_candidates
  else
    let list_space :=
      (MAX_PUSCH_PDUS_PER_SLOT (limits (cfg s)) - length (puschs msg3_alloc))%nat in
    let pusch_res_max_allocs := Nat.min pusch_res_max_allocs list_space in
    if bool_decide (pusch_res_max_allocs = 0%nat) then Ok msg3_candidates
    else
      msg3_d ← at_index (msg3_data s) puschidx;
      let nof_prbs_per_msg3 := nof_prbs msg3_d in
      let nof_msg3_prbs := (nof_prbs_per_msg3 * pusch_res_max_allocs)%nat in
      let used_ul_crbs :=
        used_crbs (ul_res_grid msg3_alloc) (ul_bwp_cfg (cfg s)) (pusch_symbols pusch_td) in
      let msg3_crbs := find_empty_interval_of_length used_ul_crbs nof_msg3_prbs 0 in
      pusch_res_max_allocs ← unsigned_div (rb_length msg3_crbs) nof_prbs_per_msg3;
      if bool_decide (pusch_res_max_allocs = 0%nat) then Ok msg3_candidates
      else
        r ← for_each
              (register_msg3_candidates (MAX_GRANTS_PER_RAR (limits (cfg s))) puschidx
                 nof_prbs_per_msg3)
              (msg3_candidates, rb_start msg3_crbs) (seq 0 pusch_res_max_allocs);
        Ok (fst r).

(** [msg3_mcs_index] and [max_msg3_retxs] *)
Definition msg3_mcs_index : Z := 0.
Definition max_msg3_retxs : nat := 4.

(** Lines 461-519: one Msg3 grant of the RAR. *)
Definition fill_msg3_grant (rar_request : pending_rar_t) (k_rar : nat) (s : ra_scheduler)
    (ic : nat * msg3_alloc_candidate) : outcome ra_scheduler :=
  let '(i, msg3_candidate) := ic in
  pusch_res ← at_index (pusch_td_alloc_list (cfg s)) (pusch_td_res_index msg3_candidate);
  msg3_delay ← get_msg3_delay pusch_res (scs (ul_bwp_cfg (cfg s)));
  let prbs := crb_to_prb (ul_bwp_cfg (cfg s)) (cand_crbs msg3_candidate) in
  rnti ← at_index (tc_rntis rar_request) i;
  msg3 ← at_index (pending_msg3s s) (msg3_index s rnti);
  _ ← sanity_check (harq_empty (harq msg3))
        "Pending Msg3 should not have been added if HARQ is busy.";
  (* Add MAC SDU with UL grant (Msg3) in RAR PDU. *)
  rar_alloc ← at_index (res_alloc s) k_rar;
  rar ← back (rar_grants rar_alloc);
  let msg3_info :=
    {| rapid := preamble_id (preamble msg3);
       ta := time_advance (preamble msg3);
       temp_crnti := tc_rnti (preamble msg3);
       time_resource_assignment := pusch_td_res_index msg3_candidate;
       freq_resource_assignment :=
         ra_frequency_type1_get_riv (rb_length (crbs (ul_bwp_cfg (cfg s))))
           (rb_start prbs) (rb_length prbs);
       grant_mcs := msg3_mcs_index; tpc := 0; csi_req := false |} in
  rar_grants_ ← emplace_back (MAX_GRANTS_PER_RAR (limits (cfg s))) (grants rar) msg3_info;
  let rar :=
    {| pdsch_rnti := pdsch_rnti rar; pdsch_prbs := pdsch_prbs rar;
       pdsch_symbols := pdsch_symbols rar; cw_mcs_index := cw_mcs_index rar;
       cw_rv_index := cw_rv_index rar; cw_tb_size_bytes := cw_tb_size_bytes rar;
       grants := rar_grants_ |} in
  let s := set_slot_alloc k_rar (set_rar_grants (set_back (rar_grants rar_alloc) rar) rar_alloc) s in
  (* Allocate Msg3 RBs. *)
  msg3_alloc ← at_index (res_alloc s) (Z.to_nat msg3_delay);
  let symbols := pusch_symbols pusch_res in
  let msg3_alloc :=
    set_ul_res_grid
      (fill (ul_res_grid msg3_alloc)
         {| grant_scs := scs (dl_bwp_cfg (cfg s)); grant_symbols := symbols;
            grant_crbs := cand_crbs msg3_candidate |}) msg3_alloc in
  msg3_d ← at_index (msg3_data s) (time_resource_assignment msg3_info);
  (* Fill PUSCH for Msg3. *)
  let pusch :=
    {| pusch_rnti := tc_rnti (preamble msg3); pusch_prbs := prbs; pusch_cfg_symbols := symbols;
       pusch_mcs_index := grant_mcs msg3_info; pusch_rv_index := 0;
       pusch_harq_id := harq_pid (harq msg3); pusch_new_data := true;
       pusch_tb_size_bytes := tbs_bytes msg3_d |} in
  puschs_ ← emplace_back (MAX_PUSCH_PDUS_PER_SLOT (limits (cfg s))) (puschs msg3_alloc) pusch;
  let s := set_slot_alloc (Z.to_nat msg3_delay) (set_puschs puschs_ msg3_alloc) s in
  (* Allocate Msg3 UL HARQ *)
  let '(success, h) :=
    harq_new_tx (harq msg3) (slot msg3_alloc) prbs (grant_mcs msg3_info) max_msg3_retxs in
  let s :=
    set_pending_msg3s
      (<[msg3_index s rnti := {| preamble := preamble msg3; harq := h |}]> (pending_msg3s s)) s in
  _ ← sanity_check success "Unexpected HARQ allocation return";
  Ok s.

(** [fill_rar_grant] (lines 408-520). *)
Definition fill_rar_grant (rar_request : pending_rar_t) (rar_crbs : rb_interval)
    (msg3_candidates : list msg3_alloc_candidate) (s : ra_scheduler) : outcome ra_scheduler :=
  let pdsch_time_res_index := 0%nat in
  pdcch_alloc ← at_index (res_alloc s) 0;
  pdsch_td ← at_index (pdsch_td_alloc_list (cfg s)) pdsch_time_res_index;
  let k_rar := k0 pdsch_td in
  let rar_prbs := crb_to_prb (initial_active_dl_bwp s) rar_crbs in
  (* Fill RAR DCI. *)
  pdcch ← back (dl_pdcchs pdcch_alloc);
  let dci :=
    {| N_rb_dl_bwp := rb_length (crbs (initial_active_dl_bwp s));
       dl_frequency_resource :=
         ra_frequency_type1_get_riv (rb_length (crbs (initial_active_dl_bwp s)))
           (rb_start rar_prbs) (rb_length rar_prbs);
       dl_time_resource := pdsch_time_res_index;
       vrb_to_prb_mapping := 0;
       dl_modulation_coding_scheme := 0;
       tb_scaling := 0 |} in
  let pdcch :=
    {| dl_ctx_rnti := dl_ctx_rnti pdcch; dl_dci_type := ra_f1_0; dl_dci := Some dci |} in
  let s := set_slot_alloc 0 (set_dl_pdcchs (set_back (dl_pdcchs pdcch_alloc) pdcch) pdcch_alloc) s in
  (* Allocate RBs and space for RAR. *)
  rar_alloc ← at_index (res_alloc s) k_rar;
  let rar_alloc :=
    set_dl_res_grid
      (fill (dl_res_grid rar_alloc)
         {| grant_scs := scs (dl_bwp_cfg (cfg s)); grant_symbols := pdsch_td_symbols pdsch_td;
            grant_crbs := rar_crbs |}) rar_alloc in
  (* Fill RAR PDSCH. *)
  rar_d ← at_index (rar_data s) (dl_time_resource dci);
  let rar :=
    {| pdsch_rnti := dl_ctx_rnti pdcch; pdsch_prbs := rar_prbs;
       pdsch_symbols := pdsch_td_symbols pdsch_td;
       cw_mcs_index := dl_modulation_coding_scheme dci; cw_rv_index := 0;
       cw_tb_size_bytes := tbs_bytes rar_d; grants := [] |} in
  rar_grants_ ← emplace_back (MAX_RAR_PDUS_PER_SLOT (limits (cfg s))) (rar_grants rar_alloc) rar;
  let s := set_slot_alloc k_rar (set_rar_grants rar_grants_ rar_alloc) s in
  for_each (fill_msg3_grant rar_request k_rar) s (imap pair msg3_candidates).

(** [schedule_rar]: the number of Msg3 grants allocated, and the scheduler
    afterwards. *)
Definition schedule_rar (rar : pending_rar_t) (s : ra_scheduler) : outcome (nat * ra_scheduler) :=
  let pdsch_time_res_index := 0%nat in
  rar_d ← at_index (rar_data s) pdsch_time_res_index;
  let nof_prbs_per_rar := nof_prbs rar_d in
  pdcch_alloc ← at_index (res_alloc s) 0;
  pdsch_td ← at_index (pdsch_td_alloc_list (cfg s)) pdsch_time_res_index;
  pdsch_alloc ← at_index (res_alloc s) (k0 pdsch_td);
  (* 1. Check space in DL sched result for RAR. *)
  if full (MAX_RAR_PDUS_PER_SLOT (limits (cfg s))) (rar_grants pdsch_alloc)
     || full (MAX_DL_PDCCH_PDUS_PER_SLOT (limits (cfg s))) (dl_pdcchs pdcch_alloc)
  then Ok (0%nat, log_postponed_rar rar "No PDCCH/PDSCH space for RAR." s)
  else
    let max_nof_allocs := length (tc_rntis rar) in
    (* 2. Find available RBs in PDSCH for RAR grant. *)
    let nof_rar_rbs := (nof_prbs_per_rar * max_nof_allocs)%nat in
    let used := used_crbs (dl_res_grid pdsch_alloc) (initial_active_dl_bwp s)
                  (pdsch_td_symbols pdsch_td) in
    let rar_crbs := find_empty_interval_of_length used nof_rar_rbs 0 in
    max_nof_allocs ← unsigned_div (rb_length rar_crbs) nof_prbs_per_rar;
    if bool_decide (max_nof_allocs = 0%nat)
    then Ok (0%nat, log_postponed_rar rar "Not enough PRBs for RAR." s)
    else
      (* 3. Find available RBs in PUSCH for Msg3 grants. *)
      msg3_candidates ←
        for_each (fun cands puschidx => find_msg3_candidates s max_nof_allocs cands puschidx)
          [] (seq 0 (length (pusch_td_alloc_list (cfg s))));
      let max_nof_allocs := length msg3_candidates in
      let rar_crbs := rb_resize rar_crbs (nof_prbs_per_rar * max_nof_allocs) in
      (* 7. Find space in PDCCH for RAR. *)
      pdcch ← alloc_pdcch_common 0 (ra_rnti rar) (ra_search_space_id (cfg s))
                aggregation_level_n4 s;
      match pdcch with
      | None => Ok (0%nat, s)
      | Some s =>
          (* 8. Fill RAR and Msg3 PDSCH, PUSCH and DCI. *)
          s ← fill_rar_grant rar rar_crbs msg3_candidates s;
          Ok (length msg3_candidates, s)
      end.

(** *** [schedule_msg3_retx] (lines 522-636) *)

Definition set_harq (h : harq_t) (m : pending_msg3) : pending_msg3 :=
  {| preamble := preamble m; harq := h |}.

Definition rv_idx : list Z := [0; 2; 3; 1].

(** The retransmission of the pending Msg3 at index [i_msg3] of
    [pending_msg3s]. *)
Definition schedule_msg3_retx (i_msg3 : nat) (s : ra_scheduler) : outcome ra_scheduler :=
  let k2_ := 4%nat in
  pdcch_alloc ← at_index (res_alloc s) 0;
  pusch_alloc ← at_index (res_alloc s) k2_;
  msg3_ctx ← at_index (pending_msg3s s) i_msg3;
  (* Verify there is space in PUSCH and PDCCH result lists for new allocations. *)
  if full (MAX_PUSCH_PDUS_PER_SLOT (limits (cfg s))) (puschs pusch_alloc)
     || full (MAX_UL_PDCCH_PDUS_PER_SLOT (limits (cfg s))) (ul_pdcchs pdcch_alloc)
  then Ok (log warn_no_space_in_output_list s)
  else
    let bwp_ul_cmn := ul_bwp_cfg (cfg s) in
    (* Try to reuse previous HARQ PRBs. *)
    let pusch_td_res_index := 0%nat in
    pusch_td ← at_index (pusch_td_alloc_list (cfg s)) pusch_td_res_index;
    let grant :=
      {| grant_scs := scs bwp_ul_cmn; grant_symbols := pusch_symbols pusch_td;
         grant_crbs := prb_to_crb bwp_ul_cmn (harq_prbs (harq msg3_ctx)) |} in
    if collides (ul_res_grid pusch_alloc) grant then Ok s
    else
      (* Find space in PDCCH for Msg3 DCI. *)
      pdcch ← alloc_ul_pdcch_common 0 (tc_rnti (preamble msg3_ctx)) (ra_search_space_id (cfg s))
                aggregation_level_n4 s;
      match pdcch with
      | None => Ok (log warn_failed_pdcch_msg3_retx s)
      | Some s =>
          (* Mark resources as occupied in the ResourceGrid. *)
          pusch_alloc ← at_index (res_alloc s) k2_;
          let pusch_alloc := set_ul_res_grid (fill (ul_res_grid pusch_alloc) grant) pusch_alloc in
          let s := set_slot_alloc k2_ pusch_alloc s in
          (* Allocate new retx in the HARQ. *)
          let prbs := crb_to_prb bwp_ul_cmn (grant_crbs grant) in
          let '(ok, h) := harq_new_retx (harq msg3_ctx) (slot pusch_alloc) prbs in
          if negb ok then
            Ok (set_pending_msg3s
                  (<[i_msg3 := set_harq (harq_reset h) msg3_ctx]> (pending_msg3s s))
                  (log warn_failed_msg3_retx s))
          else
            (* Fill DCI. *)
            pdcch_alloc ← at_index (res_alloc s) 0;
            pdcch ← back (ul_pdcchs pdcch_alloc);
            rv ← at_index rv_idx (harq_nof_retx h mod length rv_idx)%nat;
            let dci :=
              {| N_rb_ul_bwp := rb_length (crbs bwp_ul_cmn);
                 ul_frequency_resource :=
                   ra_frequency_type1_get_riv (rb_length (crbs bwp_ul_cmn))
                     (rb_start prbs) (rb_length prbs);
                 ul_time_resource := pusch_td_res_index;
                 frequency_hopping_flag := 0;
                 ul_modulation_coding_scheme := 0;
                 redundancy_version := rv;
                 tpc_command := 0 |} in
            let pdcch :=
              {| ul_ctx_rnti := ul_ctx_rnti pdcch; ul_dci_type := tc_rnti_f0_0;
                 ul_dci := Some dci |} in
            let s :=
              set_slot_alloc 0
                (set_ul_pdcchs (set_back (ul_pdcchs pdcch_alloc) pdcch) pdcch_alloc) s in
            (* Fill PUSCH. *)
            pusch_alloc ← at_index (res_alloc s) k2_;
            let ul_info :=
              {| pusch_rnti := tc_rnti (preamble msg3_ctx); pusch_prbs := prbs;
                 pusch_cfg_symbols := grant_symbols grant;
                 pusch_mcs_index := harq_mcs h 0; pusch_rv_index := rv;
                 pusch_harq_id := harq_pid h; pusch_new_data := false;
                 pusch_tb_size_bytes :=
                   (tbs_calculator_calculate
                      (sym_stop (grant_symbols grant) - sym_start (grant_symbols grant))
                      (harq_mcs h 0) (rb_length (grant_crbs grant)) / 8)%nat |} in
            puschs_ ← emplace_back (MAX_PUSCH_PDUS_PER_SLOT (limits (cfg s)))
                        (puschs pusch_alloc) ul_info;
            let s := set_slot_alloc k2_ (set_puschs puschs_ pusch_alloc) s in
            (* Set the number of bytes of the TB. *)
            Ok (set_pending_msg3s
                  (<[i_msg3 := set_harq (harq_set_tbs h (pusch_tb_size_bytes ul_info)) msg3_ctx]>
                     (pending_msg3s s)) s)
      end.

(** *** CRC indications (lines 168-214) *)

Definition handle_crc_indication (crc_ind : ul_crc_indication) (s : ra_scheduler)
  : ra_scheduler :=
  set_queues (pending_rachs s) (pending_crcs s ++ [crc_ind]) s.

(** Lines 180-201: one CRC of an indication. *)
Definition handle_crc (s : ra_scheduler) (crc : ul_crc_pdu_indication) : outcome ra_scheduler :=
  _ ← sanity_check (bool_decide (crc_ue_index crc = None))
        "Msg3 HARQ CRCs cannot have a ueId assigned yet";
  let i := msg3_index s (crc_rnti crc) in
  msg3 ← at_index (pending_msg3s s) i;
  if negb (bool_decide (tc_rnti (preamble msg3) = crc_rnti crc)) then
    Ok (log (warn_invalid_crc_rnti (crc_rnti crc)) s)
  else if negb (bool_decide (harq_pid (harq msg3) = crc_harq_id crc)) then
    Ok (log (warn_invalid_crc_harq (crc_rnti crc)) s)
  else
    Ok (set_pending_msg3s
          (<[i := set_harq (harq_ack_info (harq msg3) 0 (tb_crc_success crc)) msg3]>
             (pending_msg3s s)) s).

(** Lines 206-213: HARQ maintenance of the pending Msg3 at index [i]. *)
Definition maintain_msg3_harq (sl_rx : slot_point) (s : ra_scheduler) (i : nat)
  : outcome ra_scheduler :=
  msg3 ← at_index (pending_msg3s s) i;
  if negb (harq_empty (harq msg3)) then
    let h := harq_slot_indication (harq msg3) sl_rx in
    let s := set_pending_msg3s (<[i := set_harq h msg3]> (pending_msg3s s)) s in
    if harq_has_pending_retx h then schedule_msg3_retx i s else Ok s
  else Ok s.

Definition handle_pending_crc_indications_impl (s : ra_scheduler) : outcome ra_scheduler :=
  (* Pop pending CRCs and process them. *)
  let new_crc_inds := pending_crcs s in
  let s := set_queues (pending_rachs s) [] s in
  s ← for_each (fun s crc_ind => for_each handle_crc s (crcs crc_ind)) s new_crc_inds;
  (* Allocate pending Msg3 retransmissions. *)
  tx ← slot_tx s;
  let sl_rx := slot_sub tx 4 in
  for_each (maintain_msg3_harq sl_rx) s (seq 0 (length (pending_msg3s s))).

(** *** [run_slot] (lines 216-313) *)

(** Lines 295-302: the Msg3 grants that were allocated leave the front of
    [tc_rntis]: [std::copy] of the rest to the front, then [resize]. *)
Definition std_copy_to_front {A} (l : list A) (n : nat) : list A :=
  foldl (fun acc i => match acc !! (n + i)%nat with
                      | Some x => <[i := x]> acc
                      | None => acc
                      end) l (seq 0 (length l - n)).

Definition remove_allocated_msg3s (nof_allocs : nat) (rar_req : pending_rar_t)
    (max_preambles : nat) : outcome pending_rar_t :=
  let copied := std_copy_to_front (tc_rntis rar_req) nof_allocs in
  let new_pending_msg3s :=
    if bool_decide (nof_allocs < length (tc_rntis rar_req))%nat
    then (length (tc_rntis rar_req) - nof_allocs)%nat else 0%nat in
  if bool_decide (max_preambles < new_pending_msg3s)%nat then Abort "__builtin_unreachable"
  else Ok (set_tc_rntis (take new_pending_msg3s copied) rar_req).

(** Lines 261-309: the loop over the pending RARs, from the iterator
    position onwards.  The result is what is left of the list from there, the
    scheduler, and the calls of [schedule_rar] that were made, in order, each
    with the number of allocations it returned. *)
Fixpoint schedule_pending_rars (pdcch_slot : slot_point) (rars : list pending_rar_t)
    (s : ra_scheduler)
  : outcome (list pending_rar_t * ra_scheduler * list (pending_rar_t * nat)) :=
  match rars with
  | [] => Ok ([], s, [])
  | rar_req :: rest =>
      if negb (contains (rar_window rar_req) pdcch_slot) then
        if slot_ge pdcch_slot (stop_ (rar_window rar_req)) then
          (* window has passed: discard the RAR *)
          schedule_pending_rars pdcch_slot rest (log (warn_rar_window_passed (ra_rnti rar_req)) s)
        else
          (* window has not started: stop the loop *)
          Ok (rar_req :: rest, s, [])
      else
        (* Try to schedule DCIs + RBGs for RAR Grants *)
        '(nof_allocs, s) ← schedule_rar rar_req s;
        _ ← sanity_check (bool_decide (nof_allocs <= length (tc_rntis rar_req))%nat)
              "Invalid number of RAR allocs";
        if bool_decide (0 < nof_allocs)%nat then
          if bool_decide (nof_allocs = length (tc_rntis rar_req)) then
            '(rest, s, calls) ← schedule_pending_rars pdcch_slot rest s;
            Ok (rest, s, (rar_req, nof_allocs) :: calls)
          else
            rar_req' ← remove_allocated_msg3s nof_allocs rar_req
                         (MAX_PREAMBLES_PER_PRACH_OCCASION (limits (cfg s)));
            Ok (rar_req' :: rest, s, [(rar_req, nof_allocs)])
        else
          '(rest, s, calls) ← schedule_pending_rars pdcch_slot rest s;
          Ok (rar_req :: rest, s, (rar_req, nof_allocs) :: calls)
  end.

(** Lines 248-255: is there an UL slot where a Msg3 can go. *)
Definition pusch_slots_available (pdcch_slot : slot_point) (s : ra_scheduler) : outcome bool :=
  for_each
    (fun available pusch_td_alloc =>
       msg3_delay ← get_msg3_delay pusch_td_alloc (scs (ul_bwp_cfg (cfg s)));
       Ok (if is_ul_enabled (cfg s) (slot_add pdcch_slot msg3_delay) then true else available))
    false (pusch_td_alloc_list (cfg s)).

(** How [run_slot] left: through one of the early exits of lines 234-259, or
    after the loop over the pending RARs ([log_rars], which only formats the
    RARs of the slot for the log, is left out). *)
Inductive run_slot_exit := early_exit | rars_scheduled.

Definition run_slot (s : ra_scheduler) : outcome (run_slot_exit * ra_scheduler) :=
  let pdsch_time_res_index := 0%nat in
  pdcch_slot ← slot_tx s;
  pdsch_td ← at_index (pdsch_td_alloc_list (cfg s)) pdsch_time_res_index;
  let pdsch_slot := slot_add pdcch_slot (Z.of_nat (k0 pdsch_td)) in
  (* Handle pending CRCs. *)
  s ← handle_pending_crc_indications_impl s;
  (* Pop pending RACHs and process them. *)
  let new_rachs := pending_rachs s in
  let s := set_queues [] (pending_crcs s) s in
  s ← for_each handle_rach_indication_impl s new_rachs;
  (* Ensure slot for RAR PDCCH+PDSCH has DL enabled. *)
  if negb (is_dl_enabled (cfg s) pdcch_slot) || negb (is_dl_enabled (cfg s) pdsch_slot)
  then Ok (early_exit, s)
  (* Ensure RA SearchSpace PDCCH monitoring is active for this slot. *)
  else if negb (is_pdcch_monitoring_active (cfg s) pdcch_slot) then Ok (early_exit, s)
  else
    (* Ensure there are UL slots where Msg3s can be allocated. *)
    available ← pusch_slots_available pdcch_slot s;
    if negb available then Ok (early_exit, s)
    else
      '(rars, s, _) ← schedule_pending_rars pdcch_slot (pending_rars s) s;
      Ok (rars_scheduled, set_pending_rars rars s).

(** Nothing was committed between [s] and [s']: the grids and result lists
    of every slot, the PDCCH allocator, the Msg3 contexts and the pending RARs
    are the same (the log may differ). *)
Definition nothing_committed (s s' : ra_scheduler) : Prop :=
  res_alloc s' = res_alloc s /\ pdcch_sch s' = pdcch_sch s /\
  pending_msg3s s' = pending_msg3s s /\ pending_rars s' = pending_rars s.

(** The key under which the pending RAR of a PRACH occasion is looked up
    (lines 113-118): RA-RNTI and slot of the PRACH. *)
Definition rar_key (rar : pending_rar_t) : Z * slot_point :=
  (ra_rnti rar, prach_slot_rx rar).

(** The results of a slot were only extended from [a] to [a']: the slot is
    the same and each result list of [a] is the front of the list of [a']. *)
Definition results_extended (a a' : cell_slot_resource_allocator) : Prop :=
  slot a' = slot a /\
  dl_pdcchs a `prefix_of` dl_pdcchs a' /\
  ul_pdcchs a `prefix_of` ul_pdcchs a' /\
  rar_grants a `prefix_of` rar_grants a' /\
  puschs a `prefix_of` puschs a'.

(** What the allocation of RARs and Msg3s leaves alone between [s] and [s']:
    the configuration and the cached sizes, the two event queues, the pending
    RARs and the preamble stored in each Msg3 context; the results of each
    slot are extended. *)
Definition allocation_frame (s s' : ra_scheduler) : Prop :=
  cfg s' = cfg s /\ initial_active_dl_bwp s' = initial_active_dl_bwp s /\
  rar_data s' = rar_data s /\ msg3_data s' = msg3_data s /\
  pending_rachs s' = pending_rachs s /\ pending_crcs s' = pending_crcs s /\
  pending_rars s' = pending_rars s /\
  preamble <$> pending_msg3s s' = preamble <$> pending_msg3s s /\
  Forall2 results_extended (res_alloc s) (res_alloc s').

(** What the handling of RACH indications leaves alone: the configuration
    and the cached sizes, the two event queues, every slot allocation, the
    PDCCH allocator and the HARQ process of each Msg3 context. *)
Definition ingress_frame (s s' : ra_scheduler) : Prop :=
  cfg s' = cfg s /\ initial_active_dl_bwp s' = initial_active_dl_bwp s /\
  rar_data s' = rar_data s /\ msg3_data s' = msg3_data s /\
  pending_rachs s' = pending_rachs s /\ pending_crcs s' = pending_crcs s /\
  res_alloc s' = res_alloc s /\ pdcch_sch s' = pdcch_sch s /\
  harq <$> pending_msg3s s' = harq <$> pending_msg3s s.

(** The keys of the pending RARs, in the order of the list. *)
Definition rar_keys (s : ra_scheduler) : list (Z * slot_point) :=
  rar_key <$> pending_rars s.

(** The number of entries of the result list [f], taken over all the slots
    of the cell resource allocator. *)
Definition nof_results {A} (f : cell_slot_resource_allocator -> list A) (s : ra_scheduler)
  : nat :=
  sum_list ((fun a => length (f a)) <$> res_alloc s).

(** The result lists, taken over all the slots, have [d_dl] more DL PDCCHs,
    [d_ul] more UL PDCCHs, [d_rar] more RARs and [d_pusch] more PUSCHs in
    [s'] than in [s]. *)
Definition results_grown (s s' : ra_scheduler) (d_dl d_ul d_rar d_pusch : nat) : Prop :=
  nof_results dl_pdcchs s' = (nof_results dl_pdcchs s + d_dl)%nat /\
  nof_results ul_pdcchs s' = (nof_results ul_pdcchs s + d_ul)%nat /\
  nof_results rar_grants s' = (nof_results rar_grants s + d_rar)%nat /\
  nof_results puschs s' = (nof_results puschs s + d_pusch)%nat.

(** The last RAR of the slot at index [k] has RNTI [rnti] and [n] grants. *)
Definition last_rar_of (s : ra_scheduler) (k : nat) (rnti : Z) (n : nat) : Prop :=
  exists a r, res_alloc s !! k = Some a /\ last (rar_grants a) = Some r /\
    pdsch_rnti r = rnti /\ length (grants r) = n.

(** The RARs committed to a slot between [a] and [a']: the DL PDCCHs and the
    RARs of [a'] are those of [a] followed by new entries, and the RNTI of
    every new entry satisfies [P]. *)
Definition rars_committed (P : Z -> Prop) (a a' : cell_slot_resource_allocator) : Prop :=
  (exists new, dl_pdcchs a' = dl_pdcchs a ++ new /\
     Forall (fun pdcch => P (dl_ctx_rnti pdcch)) new) /\
  (exists new, rar_grants a' = rar_grants a ++ new /\
     Forall (fun rar => P (pdsch_rnti rar)) new).

(** The RA-RNTI of a RAR of the list [rars] whose window contains the slot:
    [rar_window.start <= pdcch_slot < rar_window.stop]. *)
Definition in_window_rnti (pdcch_slot : slot_point) (rars : list pending_rar_t) (rnti : Z)
  : Prop :=
  exists rar, rar ∈ rars /\
    slot_le (start_ (rar_window rar)) pdcch_slot = true /\
    slot_lt pdcch_slot (stop_ (rar_window rar)) = true /\
    ra_rnti rar = rnti.

End ra_scheduler.

Arguments rach_indication_message slot_point : clear implicits.
Arguments pending_rar_t slot_point : clear implicits.
Arguments pending_msg3 harq_t : clear implicits.
Arguments cell_configuration slot_point : clear implicits.
Arguments cell_slot_resource_allocator slot_point grid_t : clear implicits.
Arguments ra_scheduler slot_point harq_t grid_t pdcch_sch_t : clear implicits.

End RaScheduler.

(** ** A concrete cell

    Instances of the interfaces above, to run the scheduler and the pool on
    concrete slots. *)

Module Cell.
Import RaScheduler.

(** Modelled from the spec: ResourceGrid(slot) is a bitmap per OFDM symbol
    over CRBs indicating used/free, with [used_crbs], [fill] and [collides];
    two grants collide iff symbol ranges and CRB ranges both intersect.  Rows
    are OFDM symbols, columns CRBs; CRBs outside the BWP count as used. *)
Definition bitmap_grid := list (list bool).

Definition in_symbols (r : ofdm_symbol_range) (i : nat) : bool :=
  bool_decide (sym_start r <= i < sym_stop r)%nat.
Definition in_rbs (r : rb_interval) (i : nat) : bool :=
  bool_decide (rb_start r <= i < rb_stop r)%nat.

Definition grid_fill (g : bitmap_grid) (grant : grant_info) : bitmap_grid :=
  imap (fun sym row =>
          if in_symbols (grant_symbols grant) sym
          then imap (fun crb used => used || in_rbs (grant_crbs grant) crb) row
          else row) g.

Definition grid_collides (g : bitmap_grid) (grant : grant_info) : bool :=
  existsb id
    (imap (fun sym row =>
             in_symbols (grant_symbols grant) sym &&
             existsb id (imap (fun crb used => used && in_rbs (grant_crbs grant) crb) row)) g).

Definition grid_used_crbs (g : bitmap_grid) (bwp : bwp_configuration)
    (symbols : ofdm_symbol_range) : crb_bitmap :=
  imap (fun crb _ =>
          negb (in_rbs (crbs bwp) crb) ||
          existsb id
            (imap (fun sym row => in_symbols symbols sym && default false (row !! crb)) g))
       (default [] (head g)).

Global Instance bitmap_resource_grid : ResourceGrid bitmap_grid := {|
  used_crbs := grid_used_crbs;
  fill := grid_fill;
  collides := grid_collides;
|}.

(** An empty grid of [nof_symbols] OFDM symbols over [nof_crbs] CRBs, and a
    grid with every CRB used. *)
Definition empty_grid (nof_symbols nof_crbs : nat) : bitmap_grid :=
  replicate nof_symbols (replicate nof_crbs false).
Definition full_grid (nof_symbols nof_crbs : nat) : bitmap_grid :=
  replicate nof_symbols (replicate nof_crbs true).

(** Modelled from the spec: find a free CRB interval of the given length; if
    none exists, the longest free interval is what fits.  The maximal runs of
    free CRBs from [start_crb] on, then the first run that is long enough, cut
    to the length, else the first of the longest runs. *)
Fixpoint empty_runs (bits : list bool) (pos : nat) : list rb_interval :=
  match bits with
  | [] => []
  | true :: bits' => empty_runs bits' (S pos)
  | false :: bits' =>
      match empty_runs bits' (S pos) with
      | r :: rs =>
          if bool_decide (rb_start r = S pos)
          then {| rb_start := pos; rb_stop := rb_stop r |} :: rs
          else {| rb_start := pos; rb_stop := S pos |} :: r :: rs
      | [] => [ {| rb_start := pos; rb_stop := S pos |} ]
      end
  end.

Definition longest_run (runs : list rb_interval) : rb_interval :=
  foldl (fun best r => if bool_decide (rb_length best < rb_length r)%nat then r else best)
    {| rb_start := 0; rb_stop := 0 |} runs.

Definition first_fit (bits : crb_bitmap) (nof_rbs start_crb : nat) : rb_interval :=
  let runs := empty_runs (drop start_crb bits) start_crb in
  match list_find (fun r => nof_rbs <= rb_length r)%nat runs with
  | Some (_, r) => rb_resize r nof_rbs
  | None => longest_run runs
  end.

(** The PDCCH allocator as the number of CCEs still free in the CORESET: a
    candidate of aggregation level L takes L of them. *)
Definition take_cces (free_cces : nat) (sl : nr_slot) (rnti : Z) (ss_id aggr_lvl : nat)
  : option nat :=
  if bool_decide (aggr_lvl <= free_cces)%nat then Some (free_cces - aggr_lvl)%nat else None.

Global Instance cell_helpers : SchedHelpers nr_slot nat := {|
  find_empty_interval_of_length := first_fit;
  (** resource indication value of TS 38.214, 5.1.2.2.2, on [unsigned] *)
  ra_frequency_type1_get_riv := fun N_bwp start len =>
    let N := Z.of_nat N_bwp in
    let s := Z.of_nat start in
    let l := Z.of_nat len in
    if u32 (l - 1) <=? N / 2 then u32 (N * u32 (l - 1) + s)
    else u32 (N * u32 (N - l + 1) + u32 (N - 1 - s));
  tbs_calculator_calculate := fun nof_symbols mcs nof_prbs =>
    (nof_symbols * nof_prbs * 2)%nat;
  alloc_cces := take_cces;
|}.

(** Modelled from the spec: the UL HARQ process of a pending Msg3 holds pid,
    last PRBs, last MCS, retx count, tbs and the pending-retx flag; it is
    created on PRACH acceptance, mutated by CRC and retx allocation, and
    released when the CRC succeeds or the maximum of retransmissions is
    exceeded. *)
Record msg3_harq := {
  pid : Z;
  active : bool;
  pending_retx : bool;
  last_prbs : rb_interval;
  last_mcs : Z;
  nof_retx : nat;
  max_retx : nat;
  tbs : nat;
}.

Definition empty_harq (p : Z) : msg3_harq :=
  {| pid := p; active := false; pending_retx := false;
     last_prbs := {| rb_start := 0; rb_stop := 0 |}; last_mcs := 0;
     nof_retx := 0; max_retx := 0; tbs := 0 |}.

Global Instance msg3_harq_process : UlHarqProcess nr_slot msg3_harq := {|
  harq_pid := pid;
  harq_empty := fun h => negb (active h);
  harq_has_pending_retx := pending_retx;
  harq_prbs := last_prbs;
  harq_nof_retx := nof_retx;
  harq_mcs := fun h _ => last_mcs h;
  harq_ack_info := fun h _ ack =>
    if ack || bool_decide (max_retx h <= nof_retx h)%nat then empty_harq (pid h)
    else {| pid := pid h; active := active h; pending_retx := true;
            last_prbs := last_prbs h; last_mcs := last_mcs h; nof_retx := nof_retx h;
            max_retx := max_retx h; tbs := tbs h |};
  harq_slot_indication := fun h _ => h;
  harq_new_tx := fun h _ prbs mcs retxs =>
    if active h then (false, h)
    else (true, {| pid := pid h; active := true; pending_retx := false; last_prbs := prbs;
                   last_mcs := mcs; nof_retx := 0; max_retx := retxs; tbs := 0 |});
  harq_new_retx := fun h _ prbs =>
    if active h && pending_retx h
    then (true, {| pid := pid h; active := true; pending_retx := false; last_prbs := prbs;
                   last_mcs := last_mcs h; nof_retx := S (nof_retx h);
                   max_retx := max_retx h; tbs := tbs h |})
    else (false, h);
  harq_reset := fun h => empty_harq (pid h);
  harq_set_tbs := fun h n =>
    {| pid := pid h; active := active h; pending_retx := pending_retx h;
       last_prbs := last_prbs h; last_mcs := last_mcs h; nof_retx := nof_retx h;
       max_retx := max_retx h; tbs := n |};
|}.

(** The scenario cell of the design document: FDD, numerology 1, a BWP of 52
    CRBs, one PDSCH and one PUSCH time-domain resource (k0 = 0, k2 = 4), a RAR
    window of 10 slots. *)
Definition sl (n : Z) : nr_slot := {| numerology := 1; count := n |}.

Definition cell_bwp : bwp_configuration :=
  {| scs := kHz30; crbs := {| rb_start := 0; rb_stop := 52 |} |}.

Definition cell_limits : sched_constants :=
  {| MAX_NOF_MSG3 := 16; MAX_PREAMBLES_PER_PRACH_OCCASION := 64; MAX_GRANTS_PER_RAR := 16;
     MAX_RAR_PDUS_PER_SLOT := 16; MAX_DL_PDCCH_PDUS_PER_SLOT := 8;
     MAX_UL_PDCCH_PDUS_PER_SLOT := 8; MAX_PUSCH_PDUS_PER_SLOT := 16 |}.

Definition cell_cfg : cell_configuration nr_slot :=
  {| nof_slots_per_tdd_period := None;
     is_dl_enabled := fun _ => true;
     is_ul_enabled := fun _ => true;
     is_pdcch_monitoring_active := fun _ => true;
     ra_search_space_id := 1;
     ra_resp_window := 10;
     dl_bwp_cfg := cell_bwp;
     ul_bwp_cfg := cell_bwp;
     pdsch_td_alloc_list :=
       [ {| k0 := 0; pdsch_td_symbols := {| sym_start := 2; sym_stop := 14 |} |} ];
     pusch_td_alloc_list :=
       [ {| k2 := 4; pusch_symbols := {| sym_start := 0; sym_stop := 14 |} |} ];
     limits := cell_limits |}.

Definition free_slot (n : Z) : cell_slot_resource_allocator nr_slot bitmap_grid :=
  {| slot := sl n; dl_res_grid := empty_grid 14 52; ul_res_grid := empty_grid 14 52;
     dl_pdcchs := []; ul_pdcchs := []; rar_grants := []; puschs := [] |}.

(** A slot whose UL grid has no free CRB left. *)
Definition ul_busy_slot (n : Z) : cell_slot_resource_allocator nr_slot bitmap_grid :=
  {| slot := sl n; dl_res_grid := empty_grid 14 52; ul_res_grid := full_grid 14 52;
     dl_pdcchs := []; ul_pdcchs := []; rar_grants := []; puschs := [] |}.

(** The ring of slot allocations [tx, tx + 8). *)
Definition free_ring (tx : Z) : list (cell_slot_resource_allocator nr_slot bitmap_grid) :=
  (fun k => free_slot (tx + Z.of_nat k)) <$> seq 0 8.

Definition no_msg3 (i : nat) : pending_msg3 msg3_harq :=
  {| preamble := {| preamble_id := 0; tc_rnti := 0; time_advance := 0 |};
     harq := empty_harq (Z.of_nat i) |}.

(** The scheduler of the cell at transmit slot [tx]: [MAX_NOF_MSG3] Msg3
    contexts, nothing pending and 16 free CCEs. *)
Definition idle_scheduler (tx : Z) : ra_scheduler nr_slot msg3_harq bitmap_grid nat :=
  {| cfg := cell_cfg;
     initial_active_dl_bwp := cell_bwp;
     rar_data := [ {| nof_prbs := 4; tbs_bytes := 9 |} ];
     msg3_data := [ {| nof_prbs := 3; tbs_bytes := 11 |} ];
     pending_rachs := []; pending_crcs := [];
     pending_rars := [];
     pending_msg3s := no_msg3 <$> seq 0 (MAX_NOF_MSG3 cell_limits);
     res_alloc := free_ring tx;
     pdcch_sch := 16%nat;
     logger := [] |}.

(** The pending RAR of the PRACH occasion of slot 10 (RA-RNTI 141), window
    [11, 21), for the given TC-RNTIs. *)
Definition rar_141 (rntis : list Z) : pending_rar_t nr_slot :=
  {| ra_rnti := 141; prach_slot_rx := sl 10;
     rar_window := {| start_ := sl 11; stop_ := sl 21 |}; tc_rntis := rntis |}.

(** The scheduler at transmit slot [tx] when the UL grid of slot [tx + 7],
    where a Msg3 granted now would go (k2 = 4, Delta = 3), has no CRB left. *)
Definition ul_busy_scheduler (tx : Z) : ra_scheduler nr_slot msg3_harq bitmap_grid nat :=
  set_res_alloc (<[7%nat := ul_busy_slot (tx + 7)]> (free_ring tx)) (idle_scheduler tx).

(** The scheduler at transmit slot [tx] with the Msg3 of TC-RNTI 0x4601
    transmitted once on PRBs [0, 3) and not waiting for a retransmission. *)
Definition msg3_sent_scheduler (tx : Z) : ra_scheduler nr_slot msg3_harq bitmap_grid nat :=
  set_pending_msg3s
    (<[1%nat := {| preamble := {| preamble_id := 3; tc_rnti := 17921; time_advance := 12 |};
                   harq := {| pid := 1; active := true; pending_retx := false;
                              last_prbs := {| rb_start := 0; rb_stop := 3 |}; last_mcs := 0;
                              nof_retx := 0; max_retx := 4; tbs := 11 |} |}]>
       (pending_msg3s (idle_scheduler tx)))
    (idle_scheduler tx).

(** The scheduler at transmit slot [tx] when the UL grid of slot [tx + 7] has
    only the CRBs [49, 52) left: room for one Msg3 of 3 PRBs. *)
Definition ul_tight_scheduler (tx : Z) : ra_scheduler nr_slot msg3_harq bitmap_grid nat :=
  set_res_alloc
    (<[7%nat :=
         set_ul_res_grid
           (grid_fill (empty_grid 14 52)
              {| grant_scs := kHz30; grant_symbols := {| sym_start := 0; sym_stop := 14 |};
                 grant_crbs := {| rb_start := 0; rb_stop := 49 |} |})
           (free_slot (tx + 7))]> (free_ring tx))
    (idle_scheduler tx).

(** The preamble of scenario S1. *)
Definition preamble_4601 : rach_preamble :=
  {| preamble_id := 3; tc_rnti := 17921; time_advance := 12 |}.

(** The RACH indication of scenario S1: slot 10, one occasion at symbol 0 and
    frequency index 0 with the preamble above. *)
Definition rach_s1 : rach_indication_message nr_slot :=
  {| rach_slot_rx := sl 10;
     occasions :=
       [ {| start_symbol := 0; frequency_index := 0; preambles := [preamble_4601] |} ] |}.

(** The CRC indication of scenario S3: Msg3 of TC-RNTI 0x4601 not decoded. *)
Definition crc_nack : ul_crc_indication :=
  {| crcs := [ {| crc_ue_index := None; crc_rnti := 17921; crc_harq_id := 1;
                  tb_crc_success := false |} ] |}.

(** A pool of [nof_buffers] free buffers sharing [nof_cbs] codeblocks. *)
Definition fresh_pool (nof_buffers nof_cbs : nat) (timeout : Z)
  : TxBufferPool.tx_buffer_pool_impl nr_slot :=
  {| TxBufferPool.stopped := false;
     TxBufferPool.identifiers := replicate nof_buffers TxBufferPool.id_invalid;
     TxBufferPool.expirations := replicate nof_buffers None;
     TxBufferPool.buffers :=
       replicate nof_buffers
         {| TxBufferPool.current_state := TxBufferPool.st_available;
            TxBufferPool.nof_codeblocks := 0 |};
     TxBufferPool.codeblock_pool := nof_cbs;
     TxBufferPool.expire_timeout_slots := timeout;
     TxBufferPool.pool_log := [] |}.

(** The pool after a call of [reserve]. *)
Definition pool_after
    (r : outcome (TxBufferPool.tx_buffer_pool_impl nr_slot * TxBufferPool.unique_tx_buffer))
  : TxBufferPool.tx_buffer_pool_impl nr_slot :=
  match r with
  | Ok (p, _) => p
  | Abort _ => fresh_pool 0 0 0
  end.

(** One buffer, reserved at slot 0 for (0x4601, HARQ 0) and still locked by
    the encoder. *)
Definition locked_pool : TxBufferPool.tx_buffer_pool_impl nr_slot :=
  pool_after
    (TxBufferPool.reserve (sl 0) (TxBufferPool.id_harq 17921 0 true) 2 true (fresh_pool 1 8 100)).

(** Four buffers at slot 20: one reserved and expiring now, one locked and
    expiring now, one free, one reserved until slot 30. *)
Definition busy_pool : TxBufferPool.tx_buffer_pool_impl nr_slot :=
  {| TxBufferPool.stopped := false;
     TxBufferPool.identifiers :=
       [TxBufferPool.id_harq 17921 0 true; TxBufferPool.id_harq 17922 1 true;
        TxBufferPool.id_invalid; TxBufferPool.id_harq 17923 0 true];
     TxBufferPool.expirations := [Some (sl 20); Some (sl 20); None; Some (sl 30)];
     TxBufferPool.buffers :=
       [{| TxBufferPool.current_state := TxBufferPool.st_reserved;
           TxBufferPool.nof_codeblocks := 2 |};
        {| TxBufferPool.current_state := TxBufferPool.st_locked;
           TxBufferPool.nof_codeblocks := 1 |};
        {| TxBufferPool.current_state := TxBufferPool.st_available;
           TxBufferPool.nof_codeblocks := 0 |};
        {| TxBufferPool.current_state := TxBufferPool.st_reserved;
           TxBufferPool.nof_codeblocks := 1 |}];
     TxBufferPool.codeblock_pool := 4;
     TxBufferPool.expire_timeout_slots := 100;
     TxBufferPool.pool_log := [] |}.

(** Two buffers at slot 5: an anonymous reservation whose buffer is free
    again before its expiration at slot 100, and a buffer reserved until
    slot 30. *)
Definition released_pool : TxBufferPool.tx_buffer_pool_impl nr_slot :=
  {| TxBufferPool.stopped := false;
     TxBufferPool.identifiers := [TxBufferPool.id_unknown; TxBufferPool.id_harq 17923 0 true];
     TxBufferPool.expirations := [Some (sl 100); Some (sl 30)];
     TxBufferPool.buffers :=
       [{| TxBufferPool.current_state := TxBufferPool.st_available;
           TxBufferPool.nof_codeblocks := 0 |};
        {| TxBufferPool.current_state := TxBufferPool.st_reserved;
           TxBufferPool.nof_codeblocks := 1 |}];
     TxBufferPool.codeblock_pool := 7;
     TxBufferPool.expire_timeout_slots := 100;
     TxBufferPool.pool_log := [] |}.

(** The cell with a TDD pattern of 10 slots: DL in the first seven slots of
    the period, UL in the last three. *)
Definition tdd_cell_cfg : cell_configuration nr_slot :=
  {| nof_slots_per_tdd_period := Some 10%nat;
     is_dl_enabled := fun s => count s mod 10 <? 7;
     is_ul_enabled := fun s => 7 <=? count s mod 10;
     is_pdcch_monitoring_active := fun _ => true;
     ra_search_space_id := 1;
     ra_resp_window := 10;
     dl_bwp_cfg := cell_bwp;
     ul_bwp_cfg := cell_bwp;
     pdsch_td_alloc_list := pdsch_td_alloc_list cell_cfg;
     pusch_td_alloc_list := pusch_td_alloc_list cell_cfg;
     limits := cell_limits |}.

(** A pending RAR as [handle_rach_indication_impl] creates it for a PRACH
    received in the UL slot 17, before its window is set. *)
Definition new_rar_17 : pending_rar_t nr_slot :=
  {| ra_rnti := 99; prach_slot_rx := sl 17;
     rar_window := {| start_ := slot_default; stop_ := slot_default |}; tc_rntis := [] |}.

(** A second preamble whose TC-RNTI 0x4611 selects the Msg3 context of
    0x4601 (both are 1 modulo 16). *)
Definition preamble_4611 : rach_preamble :=
  {| preamble_id := 5; tc_rnti := 17937; time_advance := 3 |}.

(** The scheduler at transmit slot [tx] with the Msg3 of TC-RNTI 0x4601
    transmitted once on PRBs [0, 3), not decoded, and waiting for its
    retransmission. *)
Definition msg3_nacked_scheduler (tx : Z) : ra_scheduler nr_slot msg3_harq bitmap_grid nat :=
  set_pending_msg3s
    (<[1%nat := {| preamble := {| preamble_id := 3; tc_rnti := 17921; time_advance := 12 |};
                   harq := {| pid := 1; active := true; pending_retx := true;
                              last_prbs := {| rb_start := 0; rb_stop := 3 |}; last_mcs := 0;
                              nof_retx := 0; max_retx := 4; tbs := 11 |} |}]>
       (pending_msg3s (idle_scheduler tx)))
    (idle_scheduler tx).

End Cell.

(** * Properties *)

(** ** Outcomes, containers and machine integers *)

Lemma at_index_Ok {A} (l : list A) i x : at_index l i = Ok x <-> l !! i = Some x.
Proof. unfold at_index. destruct (l !! i); split; congruence. Qed.

Lemma at_index_lt {A} (l : list A) i : (i < length l)%nat -> exists x, at_index l i = Ok x /\ l !! i = Some x.
Proof.
  intros Hi. destruct (lookup_lt_is_Some_2 l i Hi) as [x Hx].
  exists x. split; [by apply at_index_Ok | done].
Qed.

Lemma bind_Ok {A B} (m : outcome A) (k : A -> outcome B) b :
  m ≫= k = Ok b <-> exists a, m = Ok a /\ k a = Ok b.
Proof.
  destruct m; cbn; split.
  - eauto.
  - intros (a' & [= ->] & ?). done.
  - discriminate.
  - intros (a' & ? & ?). discriminate.
Qed.

Lemma std_find_Some `{EqDecision A} (x : A) l i :
  std_find x l = Some i <-> l !! i = Some x /\ forall j, (j < i)%nat -> l !! j <> Some x.
Proof.
  unfold std_find. split.
  - destruct (list_find _ l) as [[k y]|] eqn:E; [| discriminate].
    cbn. intros [= ->]. apply list_find_Some in E as (Hl & -> & Hmin).
    split; [done |]. intros j Hj Hjx. by eapply Hmin.
  - intros [Hi Hmin].
    assert (E : list_find (fun y => y = x) l = Some (i, x)).
    { apply list_find_Some. split_and!; [done.. |]. intros j y Hy Hj ->. by eapply Hmin. }
    by rewrite E.
Qed.

Lemma std_find_None `{EqDecision A} (x : A) l : std_find x l = None <-> x ∉ l.
Proof.
  unfold std_find. destruct (list_find _ l) as [[k y]|] eqn:E; cbn.
  - apply list_find_Some in E as (Hl & -> & _). split; [discriminate |].
    intros Hn. destruct Hn. by eapply list_elem_of_lookup_2.
  - split; [| done]. intros _ Hin. apply list_find_None in E.
    rewrite Forall_forall in E. by eapply E.
Qed.

Lemma emplace_back_Ok {A} cap (l l' : list A) x :
  emplace_back cap l x = Ok l' <-> (length l < cap)%nat /\ l' = l ++ [x].
Proof.
  unfold emplace_back, full. case_bool_decide; split.
  - discriminate.
  - intros [? _]. lia.
  - intros [= <-]. split; [lia | done].
  - intros [_ ->]. done.
Qed.

Lemma sanity_check_Ok c msg u : sanity_check c msg = Ok u <-> c = true.
Proof. unfold sanity_check. destruct c, u; split; congruence. Qed.

Lemma u32_small x : 0 <= x < 2 ^ 32 -> u32 x = x.
Proof. intros. unfold u32. apply Z.mod_small. lia. Qed.

Lemma u16_small x : 0 <= x < 2 ^ 16 -> u16 x = x.
Proof. intros. unfold u16. apply Z.mod_small. lia. Qed.

Lemma int_of_u32_roundtrip x : 0 <= x < 2 ^ 32 -> u32 (int_of_u32 x) = x.
Proof.
  intros Hx. unfold int_of_u32, u32.
  destruct (x <? 2 ^ 31) eqn:E.
  - apply Z.mod_small. lia.
  - replace (x - 2 ^ 32) with (x + (-1) * 2 ^ 32) by lia.
    rewrite Z.mod_add by lia. apply Z.mod_small. lia.
Qed.

(** ** Msg3 delay and RA-RNTI *)

(** C9.  For a PUSCH time-domain resource allocation of value [k2] (an
    [unsigned] for which [k2 + 6] does not wrap) and a PUSCH subcarrier spacing
    of numerology 0 to 3, [get_msg3_delay] reads [DELTAS] within its bounds and
    returns [k2 + Delta], with Delta = 2, 3, 4, 6; for 240 kHz (numerology 4)
    it does not return a delay. *)
Theorem get_msg3_delay_spec (pusch : pusch_time_domain_resource_allocation)
    (pusch_scs : subcarrier_spacing) :
  0 <= k2 pusch -> k2 pusch + 6 < 2 ^ 32 ->
  match pusch_scs with
  | kHz240 => is_ok (get_msg3_delay pusch pusch_scs) = false
  | _ =>
      (to_numerology_value pusch_scs < length DELTAS)%nat /\
      get_msg3_delay pusch pusch_scs =
        Ok (k2 pusch + nth (to_numerology_value pusch_scs) [2; 3; 4; 6] 0)
  end.
Proof.
  intros Hlo Hhi.
  assert (Hd : forall d, 0 <= d <= 6 ->
            u32 (int_of_u32 (u32_add (k2 pusch) d)) = k2 pusch + d).
  { intros d Hd. unfold u32_add. rewrite (u32_small (k2 pusch + d)) by lia.
    apply int_of_u32_roundtrip. lia. }
  destruct pusch_scs; unfold get_msg3_delay; cbn;
    case_bool_decide; try lia; cbn;
    try (split; [lia | f_equal; apply Hd; lia]).
  reflexivity.
Qed.

Section ra_rnti_props.
Context `{SlotPoint slot_point}.

(** C8.  For a symbol index below 14, a frequency index below 8 and a PRACH
    slot whose index in the frame is below 80, [get_ra_rnti] is
    [1 + s_id + 14 t_id + 14 * 80 f_id + 14 * 80 * 8 ul_carrier_id], with
    [ul_carrier_id] 1 for SUL and 0 otherwise: none of the 32-bit operations
    wraps and the result fits the 16 bits of the RNTI.  For s_id = 0, slot
    index 10, f_id = 0 and no SUL it is 141. *)
Theorem get_ra_rnti_spec (sl_rx : slot_point) (s_id f_id : Z) (is_sul : bool) :
  0 <= s_id < 14 -> 0 <= f_id < 8 -> 0 <= slot_index sl_rx < 80 ->
  get_ra_rnti sl_rx s_id f_id is_sul =
    1 + s_id + 14 * slot_index sl_rx + 14 * 80 * f_id + 14 * 80 * 8 * (if is_sul then 1 else 0)
  /\ (s_id = 0 -> slot_index sl_rx = 10 -> f_id = 0 -> is_sul = false ->
      get_ra_rnti sl_rx s_id f_id is_sul = 141).
Proof.
  intros Hs Hf Ht.
  assert (Heq : get_ra_rnti sl_rx s_id f_id is_sul =
    1 + s_id + 14 * slot_index sl_rx + 14 * 80 * f_id + 14 * 80 * 8 * (if is_sul then 1 else 0)).
  { unfold get_ra_rnti, u32_add, u32_mul.
    rewrite (u32_small (14 * 80)) by lia.
    rewrite (u32_small (14 * 80 * 8)) by lia.
    rewrite (u32_small (1 + s_id)) by lia.
    rewrite (u32_small (14 * slot_index sl_rx)) by lia.
    rewrite (u32_small (14 * 80 * f_id)) by lia.
    rewrite (u32_small (1 + s_id + 14 * slot_index sl_rx)) by lia.
    rewrite (u32_small (1 + s_id + 14 * slot_index sl_rx + 14 * 80 * f_id)) by lia.
    destruct is_sul.
    - rewrite (u32_small (14 * 80 * 8 * 1)) by lia.
      rewrite u32_small by lia. apply u16_small. lia.
    - rewrite (u32_small (14 * 80 * 8 * 0)) by lia.
      rewrite u32_small by lia. apply u16_small. lia. }
  split; [exact Heq |].
  intros -> Ht10 -> ->. rewrite Heq, Ht10. reflexivity.
Qed.
End ra_rnti_props.

(** ** Transmit buffer pool *)

Section pool_props.
Context `{SlotPoint slot_point}.
Import TxBufferPool.
Local Abbreviation pool := (tx_buffer_pool_impl slot_point).

Lemma buffer_reserve_locked b n cbs :
  is_locked b = true -> buffer_reserve b n cbs = (already_in_use, b, cbs).
Proof. unfold buffer_reserve. by intros ->. Qed.

(** What [reserve_at] does, by the kind of its result. *)
Lemma reserve_at_spec slot id n chk i (p p' : pool) ub :
  reserve_at slot id n chk i p = Ok (p', ub) ->
  exists buffer, buffers p !! i = Some buffer /\
    match ub with
    | None =>
        identifiers p' = identifiers p /\ expirations p' = expirations p /\
        stopped p' = stopped p /\
        ((chk = true /\ n <> get_nof_codeblocks buffer /\
          pool_log p' = pool_log p ++ [warn_codeblocks_do_not_match]) \/
         ((chk = true -> n = get_nof_codeblocks buffer) /\
          (buffer_reserve buffer n (codeblock_pool p)).1.1 <> successful /\
          pool_log p' =
            pool_log p ++ [status_warning (buffer_reserve buffer n (codeblock_pool p)).1.1]))
    | Some j =>
        j = i /\ (chk = true -> n = get_nof_codeblocks buffer) /\
        (buffer_reserve buffer n (codeblock_pool p)).1.1 = successful /\
        identifiers p' = <[i := id]> (identifiers p) /\
        expirations p' =
          <[i := Some (slot_add slot (expire_timeout_slots p))]> (expirations p) /\
        pool_log p' = pool_log p
    end.
Proof.
  unfold reserve_at. intros (buffer & Hb%at_index_Ok & Hr)%bind_Ok.
  exists buffer. split; [done |].
  destruct chk; cbn in Hr.
  - case_bool_decide as Hn; cbn in Hr.
    + destruct (buffer_reserve buffer n (codeblock_pool p)) as [[status b'] cbs'] eqn:E.
      cbn. destruct (decide (status = successful)) as [-> | Hne].
      * cbn in Hr. injection Hr as <- <-. cbn. done.
      * rewrite bool_decide_eq_false_2 in Hr by done. cbn in Hr.
        injection Hr as <- <-. cbn. split_and!; try done. right. done.
    + injection Hr as <- <-. cbn. split_and!; try done. left. done.
  - destruct (buffer_reserve buffer n (codeblock_pool p)) as [[status b'] cbs'] eqn:E.
    cbn. destruct (decide (status = successful)) as [-> | Hne].
    * cbn in Hr. injection Hr as <- <-. cbn. done.
    * rewrite bool_decide_eq_false_2 in Hr by done. cbn in Hr.
      injection Hr as <- <-. cbn. split_and!; try done. right. done.
Qed.

Lemma reserve_at_total slot id n chk i (p : pool) :
  (i < length (buffers p))%nat -> is_ok (reserve_at slot id n chk i p) = true.
Proof.
  intros Hi. unfold reserve_at.
  destruct (at_index_lt (buffers p) i Hi) as (b & -> & _). cbn.
  destruct (chk && _); [done |].
  destruct (buffer_reserve b n (codeblock_pool p)) as [[status b'] cbs'].
  by destruct (negb _).
Qed.

(** [reserve] always returns on a pool whose arrays have one entry per buffer. *)
Lemma reserve_total slot id n new_data (p : pool) :
  pool_wf p ->
  is_ok (reserve slot id n new_data p) = true /\ is_ok (reserve_anonymous slot n p) = true.
Proof.
  intros [Hids _].
  assert (Hlt : forall x i, std_find x (identifiers p) = Some i -> (i < length (buffers p))%nat).
  { intros x i [Hi _]%std_find_Some. rewrite <- Hids. by eapply lookup_lt_Some. }
  unfold reserve, reserve_anonymous. destruct (stopped p); [done |]. split.
  - destruct (std_find id (identifiers p)) as [i|] eqn:E1.
    + eapply reserve_at_total, Hlt, E1.
    + destruct new_data; [| done].
      destruct (std_find id_invalid (identifiers p)) as [i|] eqn:E2; [| done].
      eapply reserve_at_total, Hlt, E2.
  - destruct (std_find id_invalid (identifiers p)) as [i|] eqn:E2; [| done].
    eapply reserve_at_total, Hlt, E2.
Qed.

(** C10.  A call of [reserve], of either overload (the anonymous one being
    a reservation of new data under the identifier [unknown]), that returns an
    invalid unique buffer leaves the identifiers and expirations as they
    were.  When it returns the buffer of index [i], the pool was not stopped,
    the retransmission check and the codeblock reservation of that buffer
    succeeded, and the identifier and expiration were written at [i], nowhere
    else. *)
Theorem reserve_failure_leaves_pool (slot : slot_point) (id : trx_buffer_identifier)
    (nof_cbs : nat) (new_data : bool) (p p' : pool) (ub : unique_tx_buffer) :
  reserve slot id nof_cbs new_data p = Ok (p', ub) \/
  (id = id_unknown /\ new_data = true /\ reserve_anonymous slot nof_cbs p = Ok (p', ub)) ->
  match ub with
  | None => identifiers p' = identifiers p /\ expirations p' = expirations p
  | Some i =>
      stopped p = false /\
      (exists buffer, buffers p !! i = Some buffer /\
         (new_data = false -> nof_cbs = get_nof_codeblocks buffer) /\
         (buffer_reserve buffer nof_cbs (codeblock_pool p)).1.1 = successful) /\
      identifiers p' = <[i := id]> (identifiers p) /\
      expirations p' = <[i := Some (slot_add slot (expire_timeout_slots p))]> (expirations p)
  end.
Proof.
  assert (Hat : forall chk i, (new_data = false -> chk = true) ->
            reserve_at slot id nof_cbs chk i p = Ok (p', ub) -> stopped p = false ->
            match ub with
            | None => identifiers p' = identifiers p /\ expirations p' = expirations p
            | Some i =>
                stopped p = false /\
                (exists buffer, buffers p !! i = Some buffer /\
                   (new_data = false -> nof_cbs = get_nof_codeblocks buffer) /\
                   (buffer_reserve buffer nof_cbs (codeblock_pool p)).1.1 = successful) /\
                identifiers p' = <[i := id]> (identifiers p) /\
                expirations p' =
                  <[i := Some (slot_add slot (expire_timeout_slots p))]> (expirations p)
            end).
  { intros chk i Hchk (buffer & Hb & Hspec)%reserve_at_spec Hst. destruct ub as [j|].
    - destruct Hspec as (-> & Hn & Hs & Hi & He & _). split_and!; try done.
      exists buffer. split_and!; try done. intros Hnd. apply Hn. by apply Hchk.
    - by destruct Hspec as (? & ? & _). }
  intros [Hr | (-> & -> & Hr)].
  - unfold reserve in Hr. destruct (stopped p) eqn:Hst.
    { injection Hr as <- <-. done. }
    destruct (std_find id (identifiers p)) as [i|].
    { eapply Hat; [| done..]. by destruct new_data. }
    destruct new_data.
    + destruct (std_find id_invalid (identifiers p)) as [i|].
      * eapply Hat; [| done..]. done.
      * injection Hr as <- <-. done.
    + injection Hr as <- <-. done.
  - unfold reserve_anonymous in Hr. destruct (stopped p) eqn:Hst.
    { injection Hr as <- <-. done. }
    destruct (std_find id_invalid (identifiers p)) as [i|].
    + eapply Hat; [| done..]. done.
    + injection Hr as <- <-. done.
Qed.


(** What a result of [reserve (slot, id, nof_codeblocks, new_data)] tells:
    a stopped pool gives an invalid buffer;
    a valid buffer is the first whose identifier is [id],
    or, when no buffer has that identifier and [new_data] holds, the first
    whose identifier is invalid, and it was not locked and, for a
    retransmission, held [nof_codeblocks] codeblocks; without a buffer of that
    identifier a retransmission fails with "identifier for retransmissions
    not found" and new data without a free buffer with "insufficient
    buffers"; a retransmission with another number of codeblocks than the
    buffer holds fails; a locked target buffer fails. *)
Lemma reserve_results (slot : slot_point) (id : trx_buffer_identifier)
    (nof_cbs : nat) (new_data : bool) (p p' : pool) (ub : unique_tx_buffer) :
  reserve slot id nof_cbs new_data p = Ok (p', ub) ->
  (stopped p = true -> ub = None /\ p' = p) /\
  (forall i, ub = Some i ->
     stopped p = false /\
     (is_first id (identifiers p) i \/
      ((id ∉ identifiers p) /\ new_data = true /\ is_first id_invalid (identifiers p) i)) /\
     exists buffer, buffers p !! i = Some buffer /\ is_locked buffer = false /\
       (new_data = false -> nof_cbs = get_nof_codeblocks buffer)) /\
  (stopped p = false -> id ∉ identifiers p -> new_data = false ->
     ub = None /\ pool_log p' = pool_log p ++ [warn_retx_identifier_not_found]) /\
  (stopped p = false -> id ∉ identifiers p -> new_data = true ->
     id_invalid ∉ identifiers p ->
     ub = None /\ pool_log p' = pool_log p ++ [warn_insufficient_buffers]) /\
  (forall i buffer, stopped p = false -> is_first id (identifiers p) i ->
     buffers p !! i = Some buffer ->
     new_data = false -> nof_cbs <> get_nof_codeblocks buffer ->
     ub = None /\ pool_log p' = pool_log p ++ [warn_codeblocks_do_not_match]) /\
  (forall i buffer, stopped p = false ->
     is_first id (identifiers p) i \/
       ((id ∉ identifiers p) /\ new_data = true /\ is_first id_invalid (identifiers p) i) ->
     buffers p !! i = Some buffer -> is_locked buffer = true ->
     ub = None /\
     (pool_log p' = pool_log p ++ [warn_harq_already_in_use] \/
      pool_log p' = pool_log p ++ [warn_codeblocks_do_not_match])).
Proof.
  intros Hr. unfold reserve in Hr.
  destruct (stopped p) eqn:Hst.
  { injection Hr as <- <-. split_and!; try done. }
  split; [done |].
  destruct (std_find id (identifiers p)) as [i|] eqn:Hfind.
  - (* a buffer holds the identifier *)
    pose proof Hfind as Hfirst%std_find_Some.
    assert (Hin : id ∈ identifiers p).
    { eapply list_elem_of_lookup_2, Hfirst. }
    assert (Huniq : forall k, is_first id (identifiers p) k -> k = i).
    { intros k Hk%std_find_Some. congruence. }
    apply reserve_at_spec in Hr as (buffer & Hb & Hspec).
    split_and!.
    + intros j ->. destruct Hspec as (-> & Hn & Hs & _). split_and!; try done.
      * by left.
      * exists buffer. split_and!; try done.
        -- destruct (is_locked buffer) eqn:Hl; [| done].
           rewrite (buffer_reserve_locked _ _ _ Hl) in Hs. done.
        -- intros ->. by apply Hn.
    + done.
    + done.
    + intros k b _ Hk Hkb -> Hne. apply Huniq in Hk as ->. simplify_eq.
      destruct ub as [j|].
      * destruct Hspec as (_ & Hn & _). destruct Hne. by apply Hn.
      * destruct Hspec as (_ & _ & _ & [(_ & _ & Hlog) | (Hn & _)]); [done |].
        destruct Hne. by apply Hn.
    + intros k b _ [Hk | (Hnin & _)] Hkb Hl; [| done].
      apply Huniq in Hk as ->. simplify_eq.
      rewrite (buffer_reserve_locked _ _ _ Hl) in Hspec. cbn in Hspec.
      destruct ub as [j|].
      * by destruct Hspec as (_ & _ & ? & _).
      * destruct Hspec as (_ & _ & _ & [(_ & _ & Hlog) | (_ & _ & Hlog)]); eauto.
  - (* no buffer holds the identifier *)
    pose proof Hfind as Hnin%std_find_None.
    assert (Hnofirst : forall k, ~ is_first id (identifiers p) k).
    { intros k [Hk _]. apply Hnin. by eapply list_elem_of_lookup_2. }
    destruct new_data.
    + destruct (std_find id_invalid (identifiers p)) as [i|] eqn:Hfree.
      * pose proof Hfree as Hfirst%std_find_Some.
        assert (Huniq : forall k, is_first id_invalid (identifiers p) k -> k = i).
        { intros k Hk%std_find_Some. congruence. }
        assert (Hin : id_invalid ∈ identifiers p).
        { eapply list_elem_of_lookup_2, Hfirst. }
        apply reserve_at_spec in Hr as (buffer & Hb & Hspec).
        split_and!.
        -- intros j ->. destruct Hspec as (-> & Hn & Hs & _). split_and!; try done.
           ++ right. done.
           ++ exists buffer. split_and!; try done.
              destruct (is_locked buffer) eqn:Hl; [| done].
              rewrite (buffer_reserve_locked _ _ _ Hl) in Hs. done.
        -- done.
        -- intros _ _ _ Hn. by destruct Hn.
        -- intros k b _ Hk. by destruct (Hnofirst k).
        -- intros k b _ [Hk | (_ & _ & Hk)] Hkb Hl; [by destruct (Hnofirst k) |].
           apply Huniq in Hk as ->. simplify_eq.
           rewrite (buffer_reserve_locked _ _ _ Hl) in Hspec. cbn in Hspec.
           destruct ub as [j|].
           ++ by destruct Hspec as (_ & _ & ? & _).
           ++ destruct Hspec as (_ & _ & _ & [(_ & _ & Hlog) | (_ & _ & Hlog)]); eauto.
      * injection Hr as <- <-. pose proof Hfree as Hnfree%std_find_None.
        split_and!.
        -- done.
        -- done.
        -- done.
        -- intros k b _ Hk. by destruct (Hnofirst k).
        -- intros k b _ [Hk | (_ & _ & [Hk _])] _ _; [by destruct (Hnofirst k) |].
           destruct Hnfree. by eapply list_elem_of_lookup_2.
    + injection Hr as <- <-. split_and!.
      * done.
      * done.
      * done.
      * intros k b _ Hk. by destruct (Hnofirst k).
      * intros k b _ [Hk | (_ & ? & _)] _ _; [by destruct (Hnofirst k) | done].
Qed.


Local Ltac solve_pool_wf :=
  unfold pool_wf; cbn; rewrite ?length_insert; done.

Lemma run_slot_body_spec slot (p : pool) i :
  pool_wf p -> (i < length (buffers p))%nat ->
  exists p', run_slot_body slot p i = Ok p' /\
    pool_wf p' /\ length (buffers p') = length (buffers p) /\
    expire_timeout_slots p' = expire_timeout_slots p /\
    stopped p' = stopped p /\
    expiration_handled slot p p' i /\
    (forall j, j <> i -> same_entry p p' j).
Proof.
  intros [Hids Hexps] Hi. unfold run_slot_body.
  destruct (at_index_lt (identifiers p) i) as (id & -> & Hid); [lia |].
  destruct (at_index_lt (buffers p) i) as (buffer & Hb' & Hb); [lia |].
  destruct (at_index_lt (expirations p) i) as (exp & He' & He); [lia |].
  cbn. case_bool_decide as Hinv.
  { exists p. split_and!; try done.
    intros id' b' e' Hid'. simplify_eq. done. }
  rewrite Hb', He'. cbn.
  set (expired := match exp with Some e => slot_le e slot | None => false end).
  destruct expired eqn:Hexp; subst expired.
  - (* the expiration slot has been reached *)
    destruct exp as [e|]; [| done].
    unfold buffer_expire. destruct (is_locked buffer) eqn:Hl; cbn.
    + eexists. split; [done |]. cbn. rewrite !length_insert.
      split_and!; try done; try solve_pool_wf.
      * intros id' b' e' ? ? ? ?. simplify_eq. cbn. split_and!.
        -- intros e'' [= <-] _ Hl'. congruence.
        -- intros e'' [= <-] _ _. rewrite !list_lookup_insert_eq by lia.
           split_and!; try done.
        -- intros Hne _. specialize (Hne e eq_refl). congruence.
      * intros j Hj. unfold same_entry; cbn.
        rewrite !list_lookup_insert_ne by done. done.
    + eexists. split; [done |]. cbn. rewrite !length_insert.
      split_and!; try done; try solve_pool_wf.
      * intros id' b' e' ? ? ? ?. simplify_eq. cbn. split_and!.
        -- intros e'' [= <-] _ _. rewrite !list_lookup_insert_eq by lia.
           split_and!; try done. eexists. split; [done |]. done.
        -- intros e'' [= <-] _ Hl'. congruence.
        -- intros Hne _. specialize (Hne e eq_refl). congruence.
      * intros j Hj. unfold same_entry; cbn.
        rewrite !list_lookup_insert_ne by done. done.
  - (* not expired *)
    destruct (is_free buffer) eqn:Hfree; cbn.
    + eexists. split; [done |]. cbn. rewrite !length_insert.
      split_and!; try done; try solve_pool_wf.
      * intros id' b' e' ? ? ? ?. simplify_eq. cbn. split_and!.
        -- intros e'' -> Hle _. congruence.
        -- intros e'' -> Hle _. congruence.
        -- intros _ ?. congruence.
      * intros j Hj. unfold same_entry; cbn.
        rewrite !list_lookup_insert_ne by done. done.
    + eexists. split; [done |]. cbn. rewrite !length_insert.
      split_and!; try done; try solve_pool_wf.
      * intros id' b' e' ? ? ? ?. simplify_eq. cbn. split_and!.
        -- intros e'' -> Hle _. congruence.
        -- intros e'' -> Hle _. congruence.
        -- intros _ _. rewrite !list_lookup_insert_eq by lia.
           split_and!; try done. 
      * intros j Hj. unfold same_entry; cbn.
        rewrite !list_lookup_insert_ne by done. done.
Qed.

Lemma run_slot_loop_spec slot idxs : forall p : pool,
  pool_wf p -> NoDup idxs -> Forall (fun i => i < length (buffers p))%nat idxs ->
  exists p', for_each (run_slot_body slot) p idxs = Ok p' /\
    pool_wf p' /\ length (buffers p') = length (buffers p) /\
    expire_timeout_slots p' = expire_timeout_slots p /\
    stopped p' = stopped p /\
    (forall i, i ∈ idxs -> expiration_handled slot p p' i) /\
    (forall j, j ∉ idxs -> same_entry p p' j).
Proof.
  induction idxs as [| i idxs IH]; intros p Hwf Hnd Hlt.
  - exists p. cbn. split_and!; try done. intros i Hi. by apply elem_of_nil in Hi.
  - apply NoDup_cons in Hnd as [Hni Hnd]. apply Forall_cons in Hlt as [Hi Hlt].
    destruct (run_slot_body_spec slot p i Hwf Hi)
      as (p1 & Hbody & Hwf1 & Hlen1 & Hto1 & Hst1 & Hh1 & Hfr1).
    destruct (IH p1 Hwf1 Hnd) as (p' & Hloop & Hwf' & Hlen' & Hto' & Hst' & Hh' & Hfr').
    { rewrite Hlen1. done. }
    exists p'. cbn. rewrite Hbody. cbn. split_and!; try done; try congruence.
    + intros j [-> | Hj]%elem_of_cons.
      * (* the rest of the loop leaves [i] alone *)
        destruct (Hfr' i Hni) as (Ei & Ee & Eb).
        intros id b e Hid Hb He Hne.
        destruct (Hh1 id b e Hid Hb He Hne) as (HA & HB & HC).
        rewrite Ei, Ee, Eb. done.
      * (* [j] is handled later, from the entry it had at the start *)
        assert (Hji : j <> i) by (intros ->; done).
        destruct (Hfr1 j Hji) as (Ei & Ee & Eb).
        intros id b e Hid Hb He Hne.
        rewrite <- Hto1. apply Hh'; try done; congruence.
    + intros j Hj. apply not_elem_of_cons in Hj as [Hji Hj].
      destruct (Hfr1 j Hji) as (Ei & Ee & Eb).
      destruct (Hfr' j Hj) as (Ei' & Ee' & Eb').
      unfold same_entry. split_and!; congruence.
Qed.

(** C4.  [run_slot (slot)] returns on every pool with one entry per buffer,
    and for every buffer whose identifier is not invalid: if its expiration
    slot is [<= slot] and the buffer is not locked, the identifier becomes
    invalid and the expiration is cleared; if it is locked, the identifier is
    kept and the expiration becomes [slot + expire_timeout_slots]; if the
    expiration is in the future (or null) and the buffer is not free, the
    entry is untouched. *)
Theorem run_slot_expiration (slot : slot_point) (p : pool) :
  pool_wf p ->
  exists p', run_slot slot p = Ok p' /\
    forall i, expiration_handled slot p p' i.
Proof.
  intros Hwf. unfold run_slot.
  destruct (run_slot_loop_spec slot (seq 0 (length (identifiers p))) p Hwf)
    as (p' & Hloop & _ & _ & _ & _ & Hh & Hfr).
  { apply NoDup_seq. }
  { apply Forall_forall. intros i Hi%elem_of_seq. destruct Hwf as [Hids _]. lia. }
  exists p'. split; [done |]. intros i.
  destruct (decide (i ∈ seq 0 (length (identifiers p)))) as [Hi | Hi]; [by apply Hh |].
  intros id b e Hid. exfalso. apply Hi, elem_of_seq. apply lookup_lt_Some in Hid. lia.
Qed.


(** A slot tick keeps a stopped pool stopped. *)
Lemma run_slot_keeps_stopped (slot : slot_point) (p p' : pool) :
  pool_wf p -> run_slot slot p = Ok p' -> stopped p' = stopped p /\ pool_wf p'.
Proof.
  intros Hwf Hrun. unfold run_slot in Hrun.
  destruct (run_slot_loop_spec slot (seq 0 (length (identifiers p))) p Hwf)
    as (p1 & Hloop & Hwf1 & _ & _ & Hst & _).
  { apply NoDup_seq. }
  { apply Forall_forall. intros i Hi%elem_of_seq. destruct Hwf as [Hids _]. lia. }
  rewrite Hloop in Hrun. by injection Hrun as <-.
Qed.

(** The busy wait of [stop] touches the buffers only, and only to unlock. *)
Lemma wait_unlocked_spec i sched : forall (p p' : pool) sched',
  wait_unlocked i sched p = Some (sched', p') ->
  stopped p' = stopped p /\ identifiers p' = identifiers p /\
  expirations p' = expirations p /\ length (buffers p') = length (buffers p) /\
  (forall j b, buffers p !! j = Some b -> is_locked b = false ->
     buffers p' !! j = Some b) /\
  (forall b, buffers p' !! i = Some b -> is_locked b = false).
Proof.
  induction sched as [| j sched IH]; intros p p' sched' Hw; cbn in Hw.
  - destruct (buffers p !! i) as [b|] eqn:Hb.
    + destruct (is_locked b) eqn:Hl; [done |]. injection Hw as <- <-.
      split_and!; try done. intros b' ?. by simplify_eq.
    + injection Hw as <- <-. split_and!; try done. intros b' ?. congruence.
  - destruct (buffers p !! i) as [b|] eqn:Hb.
    + destruct (is_locked b) eqn:Hl.
      * apply IH in Hw as (Hs & Hi & He & Hlen & Hkeep & Hun). cbn in *.
        rewrite length_alter in Hlen. split_and!; try done.
        intros k bk Hk Hlk. apply Hkeep; [| done].
        destruct (decide (j = k)) as [-> |].
        -- rewrite list_lookup_alter_eq, Hk. cbn. unfold buffer_unlock. by rewrite Hlk.
        -- by rewrite list_lookup_alter_ne.
      * injection Hw as <- <-. split_and!; try done. intros b' ?. by simplify_eq.
    + injection Hw as <- <-. split_and!; try done. intros b' ?. congruence.
Qed.

Lemma wait_all_unlocked_spec idxs : forall sched (p p' : pool) sched',
  wait_all_unlocked idxs sched p = Some (sched', p') ->
  stopped p' = stopped p /\ identifiers p' = identifiers p /\
  expirations p' = expirations p /\ length (buffers p') = length (buffers p) /\
  (forall j b, buffers p !! j = Some b -> is_locked b = false ->
     buffers p' !! j = Some b) /\
  (forall i b, i ∈ idxs -> buffers p' !! i = Some b -> is_locked b = false).
Proof.
  induction idxs as [| i idxs IH]; intros sched p p' sched' Hw; cbn in Hw.
  - injection Hw as <- <-. split_and!; try done. intros i b Hi. by apply elem_of_nil in Hi.
  - destruct (wait_unlocked i sched p) as [[sched1 p1]|] eqn:Hw1; [| done].
    apply wait_unlocked_spec in Hw1 as (Hs1 & Hi1 & He1 & Hlen1 & Hkeep1 & Hun1).
    apply IH in Hw as (Hs & Hi & He & Hlen & Hkeep & Hun).
    split_and!; try congruence.
    + intros j b Hj Hl. apply Hkeep; [| done]. by apply Hkeep1.
    + intros k b [-> | Hk]%elem_of_cons Hb.
      * destruct (lookup_lt_is_Some_2 (buffers p1) i) as [b1 Hb1].
        { rewrite <- Hlen. by eapply lookup_lt_Some. }
        pose proof (Hun1 b1 Hb1) as Hl1.
        pose proof (Hkeep i b1 Hb1 Hl1). by simplify_eq.
      * by eapply Hun.
Qed.

(** After [stop], no reservation gets a buffer. *)
Lemma reserve_stopped slot id n new_data (p : pool) :
  stopped p = true ->
  reserve slot id n new_data p = Ok (p, None) /\ reserve_anonymous slot n p = Ok (p, None).
Proof. intros Hs. unfold reserve, reserve_anonymous. by rewrite Hs. Qed.

(** C2, amended.  After [stop] has returned the pool is stopped, no buffer
    is locked, and every call of [reserve], of either overload, returns an
    invalid unique buffer and leaves the pool as it is, also after later slot
    ticks; the identifiers and the expirations are the ones the pool had
    before [stop]. *)
Theorem stop_postcondition (sched : list nat) (p p' : pool) :
  stop sched p = Some p' ->
  stopped p' = true /\
  identifiers p' = identifiers p /\ expirations p' = expirations p /\
  Forall (fun b => is_locked b = false) (buffers p') /\
  (forall slot id n new_data,
     reserve slot id n new_data p' = Ok (p', None) /\
     reserve_anonymous slot n p' = Ok (p', None)) /\
  (forall slot_tick q slot id n new_data,
     pool_wf p -> run_slot slot_tick p' = Ok q ->
     reserve slot id n new_data q = Ok (q, None) /\
     reserve_anonymous slot n q = Ok (q, None)).
Proof.
  unfold stop. intros Hstop.
  destruct (wait_all_unlocked _ sched _) as [[sched' p1]|] eqn:Hw; [| done].
  injection Hstop as <-.
  apply wait_all_unlocked_spec in Hw as (Hs & Hi & He & Hlen & _ & Hun). cbn in *.
  split_and!; try done.
  - apply Forall_lookup. intros i b Hb. eapply Hun; [| done].
    apply elem_of_seq. apply lookup_lt_Some in Hb. lia.
  - intros slot id n new_data. by apply reserve_stopped.
  - intros slot_tick q slot id n new_data [Hids Hexps] Hrun.
    apply run_slot_keeps_stopped in Hrun as [Hq _].
    + apply reserve_stopped. congruence.
    + split; congruence.
Qed.

(** [stop] returns when the encoders release every locked buffer. *)
Lemma wait_unlocked_returns i sched : forall p : pool,
  (forall b, buffers p !! i = Some b -> is_locked b = true -> i ∈ sched) ->
  exists k p', wait_unlocked i sched p = Some (drop k sched, p') /\
    forall j b, buffers p' !! j = Some b -> is_locked b = true ->
      exists b0, buffers p !! j = Some b0 /\ is_locked b0 = true /\ j ∉ take k sched.
Proof.
  induction sched as [| j sched IH]; intros p Hin; cbn.
  - destruct (buffers p !! i) as [b|] eqn:Hb.
    + destruct (is_locked b) eqn:Hl.
      * specialize (Hin b eq_refl Hl). by apply elem_of_nil in Hin.
      * exists 0%nat, p. split; [done |]. intros k bk ? ?. exists bk. split_and!; try done.
        rewrite take_0. apply not_elem_of_nil.
    + exists 0%nat, p. split; [done |]. intros k bk ? ?. exists bk. split_and!; try done.
      rewrite take_0. apply not_elem_of_nil.
  - destruct (buffers p !! i) as [b|] eqn:Hb.
    + destruct (is_locked b) eqn:Hl.
      * destruct (IH (encoder_unlock j p)) as (k & p' & Hw & Hp').
        { cbn. intros b'. destruct (decide (j = i)) as [-> | Hji].
          - rewrite list_lookup_alter_eq, Hb. cbn. intros [= <-].
            unfold buffer_unlock. rewrite Hl. done.
          - rewrite list_lookup_alter_ne by done. intros Hb' Hl'. rewrite Hb in Hb'.
            specialize (Hin b' Hb' Hl'). apply elem_of_cons in Hin as [-> | ?]; done. }
        exists (S k), p'. split; [done |]. intros m bm Hm Hlm.
        destruct (Hp' m bm Hm Hlm) as (b0 & Hb0 & Hl0 & Hnk). cbn in Hb0.
        destruct (decide (j = m)) as [-> | Hjm].
        -- rewrite list_lookup_alter_eq in Hb0.
           destruct (buffers p !! m) as [bm0|] eqn:Hbm0; [| done]. cbn in Hb0.
           injection Hb0 as <-. unfold buffer_unlock in Hl0.
           destruct (is_locked bm0) eqn:Hlm0; [done | congruence].
        -- rewrite list_lookup_alter_ne in Hb0 by done.
           exists b0. split_and!; try done. cbn. apply not_elem_of_cons. done.
      * exists 0%nat, p. split; [done |]. intros k bk ? ?. exists bk. split_and!; try done.
        rewrite take_0. apply not_elem_of_nil.
    + exists 0%nat, p. split; [done |]. intros k bk ? ?. exists bk. split_and!; try done.
      rewrite take_0. apply not_elem_of_nil.
Qed.


Lemma wait_all_unlocked_returns idxs : forall sched (p : pool),
  (forall j b, buffers p !! j = Some b -> is_locked b = true -> j ∈ sched) ->
  is_Some (wait_all_unlocked idxs sched p).
Proof.
  induction idxs as [| i idxs IH]; intros sched p Hinv; cbn; [done |].
  destruct (wait_unlocked_returns i sched p) as (k & p1 & -> & Hp1).
  { intros b Hb Hl. by eapply Hinv. }
  apply IH. intros j b Hb Hl.
  destruct (Hp1 j b Hb Hl) as (b0 & Hb0 & Hl0 & Hnk).
  specialize (Hinv j b0 Hb0 Hl0).
  rewrite <- (take_drop k sched) in Hinv. apply elem_of_app in Hinv as [? | ?]; done.
Qed.

(** [stop] returns once the encoders have released every locked buffer. *)
Lemma stop_returns (sched : list nat) (p : pool) :
  (forall j b, buffers p !! j = Some b -> is_locked b = true -> j ∈ sched) ->
  is_Some (stop sched p).
Proof.
  intros Hinv. unfold stop.
  destruct (wait_all_unlocked_returns (seq 0 (length (buffers p))) sched
              {| stopped := true; identifiers := identifiers p;
                 expirations := expirations p; buffers := buffers p;
                 codeblock_pool := codeblock_pool p;
                 expire_timeout_slots := expire_timeout_slots p;
                 pool_log := pool_log p |} Hinv) as [[sched' p'] Hw].
  cbn in *. rewrite Hw. done.
Qed.

Lemma wait_all_unlocked_nil idxs : forall (q q' : pool) sched',
  wait_all_unlocked idxs [] q = Some (sched', q') ->
  forall k bk, k ∈ idxs -> buffers q !! k = Some bk -> is_locked bk = false.
Proof.
  induction idxs as [| k idxs IH]; intros q q' sched' Hw; cbn in Hw.
  - intros k bk Hk. by apply elem_of_nil in Hk.
  - destruct (buffers q !! k) as [bk|] eqn:Hbk.
    + destruct (is_locked bk) eqn:Hlk; [done |].
      intros m bm [-> | Hm]%elem_of_cons Hbm; [by simplify_eq | by eapply IH].
    + intros m bm [-> | Hm]%elem_of_cons Hbm; [by simplify_eq | by eapply IH].
Qed.

(** While a buffer is locked and the encoders do not release it, [stop]
    does not return. *)
Lemma stop_waits (p : pool) i b :
  buffers p !! i = Some b -> is_locked b = true -> stop [] p = None.
Proof.
  intros Hb Hl. unfold stop.
  destruct (wait_all_unlocked _ [] _) as [[sched' p1]|] eqn:Hw; [| done].
  assert (is_locked b = false); [| congruence].
  eapply (wait_all_unlocked_nil _ _ _ _ Hw i b); [| done].
  apply elem_of_seq. apply lookup_lt_Some in Hb. cbn. lia.
Qed.

End pool_props.

(** ** RA scheduler *)

Section ra_props.
Import RaScheduler.
Context {slot_point harq_t grid_t pdcch_sch_t : Type}.
Context `{!SlotPoint slot_point} `{!UlHarqProcess slot_point harq_t}.
Context `{!ResourceGrid grid_t} `{!SchedHelpers slot_point pdcch_sch_t}.
Local Abbreviation sched := (ra_scheduler slot_point harq_t grid_t pdcch_sch_t).
Local Abbreviation rar_t := (pending_rar_t slot_point).



(** [std::copy] of the tail to the front followed by [resize] drops the
    first [n] elements and keeps the order of the others. *)
Lemma std_copy_to_front_prefix {A} (l : list A) (n k : nat) :
  (n + k <= length l)%nat ->
  foldl (fun acc i => match acc !! (n + i)%nat with
                      | Some x => <[i := x]> acc
                      | None => acc
                      end) l (seq 0 k)
  = take k (drop n l) ++ drop k l.
Proof.
  induction k as [| k IH]; intros Hk.
  - cbn. by rewrite take_0, drop_0.
  - rewrite seq_S, foldl_app, IH by lia. cbn.
    assert (Hlen : length (take k (drop n l)) = k).
    { rewrite length_take, length_drop. lia. }
    destruct (lookup_lt_is_Some_2 l (n + k)) as [x Hx]; [lia |].
    rewrite lookup_app_r by lia. rewrite Hlen, lookup_drop.
    replace (k + (n + k - k))%nat with (n + k)%nat by lia. rewrite Hx.
    rewrite insert_app_r_alt by lia. rewrite Hlen, Nat.sub_diag.
    rewrite (take_S_r (drop n l) k x) by (by rewrite lookup_drop).
    rewrite <- app_assoc. f_equal.
    destruct (lookup_lt_is_Some_2 l k) as [y Hy]; [lia |].
    rewrite (drop_S l y k Hy). done.
Qed.

Lemma remove_allocated_msg3s_spec (nof_allocs : nat) (rar_req : rar_t) (max_preambles : nat) :
  (nof_allocs < length (tc_rntis rar_req))%nat ->
  (length (tc_rntis rar_req) - nof_allocs <= max_preambles)%nat ->
  remove_allocated_msg3s nof_allocs rar_req max_preambles =
    Ok (set_tc_rntis (drop nof_allocs (tc_rntis rar_req)) rar_req).
Proof.
  intros Hn Hcap. unfold remove_allocated_msg3s, std_copy_to_front.
  rewrite (bool_decide_eq_true_2 (nof_allocs < length (tc_rntis rar_req))%nat) by done.
  rewrite bool_decide_eq_false_2 by lia.
  rewrite std_copy_to_front_prefix by lia.
  rewrite take_app_length'; [| rewrite length_take, length_drop; lia].
  rewrite take_ge by (rewrite length_drop; lia). done.
Qed.

(** C5, amended.  A pending RAR whose window contains the slot, for which
    [schedule_rar] returns [n].  If [n > 0] and [n = |tc_rntis|] the RAR
    leaves the list and the loop goes on with the next one.  If
    [0 < n < |tc_rntis|] (the vector being within its capacity) the first [n]
    TC-RNTIs are removed, the others keep their order, and the loop stops.  If
    [n = 0] the RAR stays as it is and the loop goes on with the next one. *)
Theorem partial_rar_bookkeeping (pdcch_slot : slot_point) (rar : rar_t) (rest : list rar_t)
    (s s1 : sched) (n : nat) :
  contains (rar_window rar) pdcch_slot = true ->
  schedule_rar rar s = Ok (n, s1) ->
  ((0 < n)%nat -> n = length (tc_rntis rar) ->
     schedule_pending_rars pdcch_slot (rar :: rest) s =
       ('(rest', s', calls) ← schedule_pending_rars pdcch_slot rest s1;
        Ok (rest', s', (rar, n) :: calls))) /\
  ((0 < n < length (tc_rntis rar))%nat ->
   (length (tc_rntis rar) - n <= MAX_PREAMBLES_PER_PRACH_OCCASION (limits (cfg s1)))%nat ->
     schedule_pending_rars pdcch_slot (rar :: rest) s =
       Ok (set_tc_rntis (drop n (tc_rntis rar)) rar :: rest, s1, [(rar, n)])) /\
  (n = 0%nat ->
     schedule_pending_rars pdcch_slot (rar :: rest) s =
       ('(rest', s', calls) ← schedule_pending_rars pdcch_slot rest s1;
        Ok (rar :: rest', s', (rar, n) :: calls))).
Proof.
  intros Hwin Hrar. split_and!.
  - intros Hpos ->. cbn. rewrite Hwin, Hrar. cbn.
    rewrite !bool_decide_eq_true_2 by (done || lia). done.
  - intros Hn Hcap. cbn. rewrite Hwin, Hrar. cbn.
    rewrite (bool_decide_eq_true_2 (n <= length (tc_rntis rar))%nat) by lia. cbn.
    rewrite (bool_decide_eq_true_2 (0 < n)%nat) by lia.
    rewrite (bool_decide_eq_false_2 (n = length (tc_rntis rar))) by lia.
    rewrite remove_allocated_msg3s_spec by lia. done.
  - intros ->. cbn. rewrite Hwin, Hrar. cbn.
    rewrite (bool_decide_eq_true_2 (0 <= length (tc_rntis rar))%nat) by lia. cbn.
    rewrite (bool_decide_eq_false_2 (0 < 0)%nat) by lia. done.
Qed.

(** The calls of [schedule_rar] in the loop of [run_slot] over the pending
    RARs at slot [pdcch_slot].  Every call of [schedule_rar] it makes is for a RAR of the list with
    [rar_window.start <= pdcch_slot < rar_window.stop]; when the RAR the loop
    has reached contains the slot in its window, [schedule_rar] is called for
    it; when [pdcch_slot >= rar_window.stop], the RAR is outside its window
    and the loop logs, leaves the slot allocations as they are and goes on
    without the RAR. *)
Lemma schedule_pending_rars_calls (pdcch_slot : slot_point) (rars rars' : list rar_t)
    (s s' : sched) (calls : list (rar_t * nat)) :
  schedule_pending_rars pdcch_slot rars s = Ok (rars', s', calls) ->
  (forall rar n, (rar, n) ∈ calls ->
     rar ∈ rars /\
     slot_le (start_ (rar_window rar)) pdcch_slot = true /\
     slot_lt pdcch_slot (stop_ (rar_window rar)) = true) /\
  (forall rar rest, rars = rar :: rest -> contains (rar_window rar) pdcch_slot = true ->
     exists n s1 calls', schedule_rar rar s = Ok (n, s1) /\ calls = (rar, n) :: calls') /\
  (forall rar rest, rars = rar :: rest ->
     slot_ge pdcch_slot (stop_ (rar_window rar)) = true ->
     contains (rar_window rar) pdcch_slot = false /\
     res_alloc (log (warn_rar_window_passed (ra_rnti rar)) s) = res_alloc s /\
     schedule_pending_rars pdcch_slot rest (log (warn_rar_window_passed (ra_rnti rar)) s) =
       Ok (rars', s', calls)).
Proof.
  intros Hloop. split_and!.
  - (* every call of [schedule_rar] is for a RAR whose window contains the slot *)
    revert s rars' s' calls Hloop.
    induction rars as [| rar_req rest IH]; intros s rars' s' calls Hloop; cbn in Hloop.
    { injection Hloop as <- <- <-. intros rar n Hin. by apply elem_of_nil in Hin. }
    destruct (contains (rar_window rar_req) pdcch_slot) eqn:Hwin; cbn in Hloop.
    + apply bind_Ok in Hloop as ([n s1] & Hrar & Hloop). cbn in Hloop.
      apply bind_Ok in Hloop as (_ & _ & Hloop).
      assert (Hhead : forall rar m, (rar, m) = (rar_req, n) ->
                rar ∈ rar_req :: rest /\
                slot_le (start_ (rar_window rar)) pdcch_slot = true /\
                slot_lt pdcch_slot (stop_ (rar_window rar)) = true).
      { intros rar m [= -> ->]. unfold contains in Hwin.
        apply andb_true_iff in Hwin as [? ?]. split_and!; try done. apply elem_of_cons. by left. }
      assert (Htail : forall rest' s2 calls',
                schedule_pending_rars pdcch_slot rest s1 = Ok (rest', s2, calls') ->
                calls = (rar_req, n) :: calls' ->
                forall rar m, (rar, m) ∈ calls ->
                  rar ∈ rar_req :: rest /\
                  slot_le (start_ (rar_window rar)) pdcch_slot = true /\
                  slot_lt pdcch_slot (stop_ (rar_window rar)) = true).
      { intros rest' s2 calls' Hrest -> rar m [Heq | Hin]%elem_of_cons; [by eapply Hhead |].
        destruct (IH _ _ _ _ Hrest rar m Hin) as (? & ? & ?).
        split_and!; try done. apply elem_of_cons. by right. }
      case_bool_decide; [case_bool_decide |].
      * apply bind_Ok in Hloop as ([[rest' s2] calls'] & Hrest & [= <- <- <-]).
        by eapply Htail.
      * apply bind_Ok in Hloop as (rar' & _ & [= <- <- <-]).
        intros rar m [Heq | Hin]%elem_of_cons; [by eapply Hhead | by apply elem_of_nil in Hin].
      * apply bind_Ok in Hloop as ([[rest' s2] calls'] & Hrest & [= <- <- <-]).
        by eapply Htail.
    + destruct (slot_ge pdcch_slot (stop_ (rar_window rar_req))).
      * intros rar n Hin. destruct (IH _ _ _ _ Hloop rar n Hin) as (? & ? & ?).
        split_and!; try done. apply elem_of_cons. by right.
      * injection Hloop as <- <- <-. intros rar n Hin. by apply elem_of_nil in Hin.
  - (* a RAR whose window contains the slot is attempted *)
    intros rar rest -> Hwin. cbn in Hloop. rewrite Hwin in Hloop. cbn in Hloop.
    apply bind_Ok in Hloop as ([n s1] & Hrar & Hloop). cbn in Hloop.
    apply bind_Ok in Hloop as (_ & _ & Hloop).
    exists n, s1.
    case_bool_decide; [case_bool_decide |].
    + apply bind_Ok in Hloop as ([[rest' s2] calls'] & Hrest & [= <- <- <-]). eauto.
    + apply bind_Ok in Hloop as (rar' & _ & [= <- <- <-]). eauto.
    + apply bind_Ok in Hloop as ([[rest' s2] calls'] & Hrest & [= <- <- <-]). eauto.
  - (* a RAR whose window has passed is erased *)
    intros rar rest -> Hge.
    assert (Hwin : contains (rar_window rar) pdcch_slot = false).
    { unfold contains. unfold slot_ge in Hge. apply negb_true_iff in Hge. rewrite Hge.
      apply andb_false_r. }
    cbn in Hloop. rewrite Hwin, Hge in Hloop. done.
Qed.

Lemma nothing_committed_log e (s : sched) : nothing_committed s (log e s).
Proof. done. Qed.

Lemma nothing_committed_refl (s : sched) : nothing_committed s s.
Proof. done. Qed.

Lemma alloc_pdcch_common_Some k rnti ss aggr (s s1 : sched) :
  alloc_pdcch_common k rnti ss aggr s = Ok (Some s1) ->
  exists a, res_alloc s !! k = Some a /\
    res_alloc s1 =
      <[k := set_dl_pdcchs
               (dl_pdcchs a ++ [{| dl_ctx_rnti := rnti; dl_dci_type := dci_dl_unset;
                                   dl_dci := None |}]) a]> (res_alloc s) /\
    pending_msg3s s1 = pending_msg3s s /\ cfg s1 = cfg s.
Proof.
  unfold alloc_pdcch_common. intros (a & Ha%at_index_Ok & Hr)%bind_Ok.
  destruct (full _ _); [done |].
  destruct (alloc_cces _ _ _ _ _); [| done].
  injection Hr as <-. exists a. done.
Qed.

(** [schedule_rar] returns 0 either before anything is committed, or after
    the PDCCH was allocated and [fill_rar_grant] ran without a single Msg3
    candidate. *)
Lemma schedule_rar_zero (rar : rar_t) (s s' : sched) :
  schedule_rar rar s = Ok (0%nat, s') ->
  nothing_committed s s' \/
  exists s1 rar_crbs,
    alloc_pdcch_common 0 (ra_rnti rar) (ra_search_space_id (cfg s)) aggregation_level_n4 s
      = Ok (Some s1) /\
    rb_length rar_crbs = 0%nat /\
    fill_rar_grant rar rar_crbs [] s1 = Ok s'.
Proof.
  unfold schedule_rar.
  intros (rar_d & _ & Hr)%bind_Ok.
  apply bind_Ok in Hr as (pdcch_alloc & _ & Hr).
  apply bind_Ok in Hr as (pdsch_td & _ & Hr).
  apply bind_Ok in Hr as (pdsch_alloc & _ & Hr).
  destruct (_ || _).
  { injection Hr as <-. left. apply nothing_committed_log. }
  apply bind_Ok in Hr as (max_nof_allocs & _ & Hr).
  case_bool_decide.
  { injection Hr as <-. left. apply nothing_committed_log. }
  apply bind_Ok in Hr as (msg3_candidates & _ & Hr).
  apply bind_Ok in Hr as ([s1|] & Hpdcch & Hr).
  - apply bind_Ok in Hr as (s2 & Hfill & [= Hlen <-]).
    destruct msg3_candidates; [| done].
    right. eexists s1, _. split_and!; [done | | done].
    unfold rb_resize, rb_length. cbn. lia.
  - injection Hr as <-. left. apply nothing_committed_refl.
Qed.

(** When [fill_rar_grant] runs without a Msg3 candidate it still leaves the
    DCI of the RAR and a RAR without grants in the results. *)
Lemma fill_rar_grant_no_candidates (rar : rar_t) (rar_crbs : rb_interval) (s s' : sched) :
  fill_rar_grant rar rar_crbs [] s = Ok s' ->
  (exists a a', res_alloc s !! 0%nat = Some a /\ res_alloc s' !! 0%nat = Some a' /\
     length (dl_pdcchs a') = length (dl_pdcchs a)) /\
  (exists pdsch_td a a' r, pdsch_td_alloc_list (cfg s) !! 0%nat = Some pdsch_td /\
     res_alloc s !! k0 pdsch_td = Some a /\ res_alloc s' !! k0 pdsch_td = Some a' /\
     rar_grants a' = rar_grants a ++ [r] /\ grants r = []).
Proof.
  unfold fill_rar_grant.
  intros (pdcch_alloc & Hp%at_index_Ok & Hr)%bind_Ok.
  apply bind_Ok in Hr as (pdsch_td & Htd%at_index_Ok & Hr).
  apply bind_Ok in Hr as (pdcch & _ & Hr).
  apply bind_Ok in Hr as (rar_alloc & Hra%at_index_Ok & Hr).
  apply bind_Ok in Hr as (rar_d & _ & Hr).
  apply bind_Ok in Hr as (rars & [_ ->]%emplace_back_Ok & Hr).
  cbn in Hr. injection Hr as <-. cbn in *.
  assert (H0 : (0 < length (res_alloc s))%nat) by (by eapply lookup_lt_Some).
  assert (Hk : (k0 pdsch_td < length (res_alloc s))%nat).
  { apply lookup_lt_Some in Hra. by rewrite length_insert in Hra. }
  split.
  - exists pdcch_alloc. destruct (decide (k0 pdsch_td = 0%nat)) as [Hk0 | Hk0].
    + rewrite Hk0 in *. rewrite list_lookup_insert_eq in Hra by done. injection Hra as <-.
      eexists. split; [done |]. split.
      * apply list_lookup_insert_eq. by rewrite length_insert.
      * cbn. unfold set_back. by rewrite length_insert.
    + eexists. split; [done |]. split.
      * rewrite list_lookup_insert_ne by done. by apply list_lookup_insert_eq.
      * cbn. unfold set_back. by rewrite length_insert.
  - exists pdsch_td.
    destruct (decide (k0 pdsch_td = 0%nat)) as [Hk0 | Hk0].
    + rewrite Hk0 in *. rewrite list_lookup_insert_eq in Hra by done. injection Hra as <-.
      eexists pdcch_alloc, _, _. split_and!; try done.
      * apply list_lookup_insert_eq. by rewrite length_insert.
      * done.
      * done.
    + rewrite list_lookup_insert_ne in Hra by done.
      eexists rar_alloc, _, _. split_and!; try done.
      * apply list_lookup_insert_eq. by rewrite length_insert.
      * done.
      * done.
Qed.

(** The four ways [schedule_msg3_retx] fails.  With a full list, a collision
    or no PDCCH nothing is committed; when [harq.new_retx] fails, the UL grid
    has been filled and the UL PDCCH stays allocated. *)
Lemma schedule_msg3_retx_failures (i_msg3 : nat) (s s' : sched)
    (pdcch_alloc pusch_alloc : cell_slot_resource_allocator slot_point grid_t)
    (msg3_ctx : pending_msg3 harq_t) (pusch_td : pusch_time_domain_resource_allocation) :
  schedule_msg3_retx i_msg3 s = Ok s' ->
  res_alloc s !! 0%nat = Some pdcch_alloc -> res_alloc s !! 4%nat = Some pusch_alloc ->
  pending_msg3s s !! i_msg3 = Some msg3_ctx ->
  pusch_td_alloc_list (cfg s) !! 0%nat = Some pusch_td ->
  let grant :=
    {| grant_scs := scs (ul_bwp_cfg (cfg s)); grant_symbols := pusch_symbols pusch_td;
       grant_crbs := prb_to_crb (ul_bwp_cfg (cfg s)) (harq_prbs (harq msg3_ctx)) |} in
  let list_full :=
    full (MAX_PUSCH_PDUS_PER_SLOT (limits (cfg s))) (puschs pusch_alloc) ||
    full (MAX_UL_PDCCH_PDUS_PER_SLOT (limits (cfg s))) (ul_pdcchs pdcch_alloc) in
  let pdcch :=
    alloc_ul_pdcch_common 0 (tc_rnti (preamble msg3_ctx)) (ra_search_space_id (cfg s))
      aggregation_level_n4 s in
  (list_full = true -> nothing_committed s s') /\
  (list_full = false -> collides (ul_res_grid pusch_alloc) grant = true ->
     nothing_committed s s') /\
  (list_full = false -> collides (ul_res_grid pusch_alloc) grant = false ->
     pdcch = Ok None -> nothing_committed s s') /\
  (forall s1 a1, list_full = false -> collides (ul_res_grid pusch_alloc) grant = false ->
     pdcch = Ok (Some s1) -> res_alloc s1 !! 4%nat = Some a1 ->
     (harq_new_retx (harq msg3_ctx) (slot a1)
        (crb_to_prb (ul_bwp_cfg (cfg s)) (grant_crbs grant))).1 = false ->
     res_alloc s' = <[4%nat := set_ul_res_grid (fill (ul_res_grid a1) grant) a1]> (res_alloc s1) /\
     pdcch_sch s' = pdcch_sch s1).
Proof.
  intros Hr Hp Hu Hm Htd grant list_full pdcch.
  unfold schedule_msg3_retx in Hr.
  rewrite (proj2 (at_index_Ok _ _ _) Hp), (proj2 (at_index_Ok _ _ _) Hu),
    (proj2 (at_index_Ok _ _ _) Hm) in Hr. cbn in Hr.
  fold list_full in Hr.
  split_and!.
  - intros Hfull. rewrite Hfull in Hr. injection Hr as <-. apply nothing_committed_log.
  - intros Hfull Hcol. rewrite Hfull in Hr.
    rewrite (proj2 (at_index_Ok _ _ _) Htd) in Hr. cbn in Hr.
    fold grant in Hr. rewrite Hcol in Hr. injection Hr as <-. apply nothing_committed_refl.
  - intros Hfull Hcol Hpd. rewrite Hfull in Hr.
    rewrite (proj2 (at_index_Ok _ _ _) Htd) in Hr. cbn in Hr.
    fold grant in Hr. rewrite Hcol in Hr. fold pdcch in Hr. rewrite Hpd in Hr. cbn in Hr.
    injection Hr as <-. apply nothing_committed_log.
  - intros s1 a1 Hfull Hcol Hpd Ha1 Hretx. rewrite Hfull in Hr.
    rewrite (proj2 (at_index_Ok _ _ _) Htd) in Hr. cbn in Hr.
    fold grant in Hr. rewrite Hcol in Hr. fold pdcch in Hr. rewrite Hpd in Hr. cbn in Hr.
    rewrite (proj2 (at_index_Ok _ _ _) Ha1) in Hr. cbn in Hr.
    destruct (harq_new_retx _ _ _) as [ok h] eqn:Hnr. cbn in Hretx. subst ok.
    cbn in Hr. injection Hr as <-. split; reflexivity.
Qed.

End ra_props.

(** ** The properties on the concrete cell *)

Section concrete.
Import TxBufferPool RaScheduler Cell.

(** Witness of C9: k2 = 4 at 30 kHz gives a delay of 7 slots; at 240 kHz
    there is no delay. *)
Lemma get_msg3_delay_spec_witness :
  get_msg3_delay {| k2 := 4; pusch_symbols := {| sym_start := 0; sym_stop := 14 |} |} kHz30
    = Ok 7 /\
  is_ok (get_msg3_delay {| k2 := 4; pusch_symbols := {| sym_start := 0; sym_stop := 14 |} |}
           kHz240) = false.
Proof.
  split.
  - apply (get_msg3_delay_spec
             {| k2 := 4; pusch_symbols := {| sym_start := 0; sym_stop := 14 |} |} kHz30);
      cbn; lia.
  - apply (get_msg3_delay_spec
             {| k2 := 4; pusch_symbols := {| sym_start := 0; sym_stop := 14 |} |} kHz240);
      cbn; lia.
Defined.

(** Witness of C8: scenario S1 (slot 10, symbol 0, frequency index 0), and the
    last symbol and frequency index on the SUL carrier. *)
Lemma get_ra_rnti_spec_witness :
  get_ra_rnti (sl 10) 0 0 false = 141 /\ get_ra_rnti (sl 39) 13 7 true = 17080.
Proof.
  split.
  - apply (get_ra_rnti_spec (sl 10) 0 0 false); vm_compute; intuition congruence.
  - refine (eq_trans (proj1 (get_ra_rnti_spec (sl 39) 13 7 true _ _ _)) _);
      vm_compute; intuition congruence.
Defined.

(** Witness of C10: a retransmission for an identifier the pool does not
    hold. *)
Lemma reserve_failure_leaves_pool_witness :
  exists p',
    reserve (sl 5) (id_harq 17930 2 true) 1 false busy_pool = Ok (p', None) /\
    identifiers p' = identifiers busy_pool /\ expirations p' = expirations busy_pool.
Proof.
  eexists. split; [vm_compute; reflexivity |].
  apply (reserve_failure_leaves_pool (sl 5) (id_harq 17930 2 true) 1 false busy_pool _ None).
  left. vm_compute. reflexivity.
Defined.

Lemma busy_pool_wf : pool_wf busy_pool.
Proof. split; reflexivity. Qed.

(** Witness of C4: at slot 20 the first buffer is freed, the second, locked,
    gets the deadline 120, the last one is not touched. *)
Lemma run_slot_expiration_witness :
  exists p', TxBufferPool.run_slot (sl 20) busy_pool = Ok p' /\
    identifiers p' = [id_invalid; id_harq 17922 1 true; id_invalid; id_harq 17923 0 true] /\
    expirations p' = [None; Some (sl 120); None; Some (sl 30)] /\
    forall i, expiration_handled (sl 20) busy_pool p' i.
Proof.
  destruct (run_slot_expiration (sl 20) busy_pool busy_pool_wf) as (p' & Hrun & Hh).
  exists p'. split; [exact Hrun |]. split_and!; [| | exact Hh].
  - vm_compute in Hrun. injection Hrun as <-. reflexivity.
  - vm_compute in Hrun. injection Hrun as <-. reflexivity.
Defined.

(** Witness of C2 (scenario S6): the encoder releases the buffer while [stop]
    waits. *)
Lemma stop_postcondition_witness :
  exists p', stop [0%nat] locked_pool = Some p' /\
    stopped p' = true /\ Forall (fun b => is_locked b = false) (buffers p') /\
    reserve (sl 1) (id_harq 17921 0 true) 2 false p' = Ok (p', None).
Proof.
  eexists. split; [vm_compute; reflexivity |].
  destruct (stop_postcondition [0%nat] locked_pool _ ltac:(vm_compute; reflexivity))
    as (Hs & _ & _ & Hun & Hres).
  split_and!; [exact Hs | exact Hun |]. apply Hres.
Defined.

(** Counterexample of C2 as stated: [stop] has returned and the identifier of
    the buffer is still the one it was reserved with, not the invalid one. *)
Lemma stop_keeps_identifiers :
  exists p', stop [0%nat] locked_pool = Some p' /\
    identifiers p' = [id_harq 17921 0 true] /\
    ~ Forall (fun id => id = id_invalid) (identifiers p').
Proof.
  eexists. split; [vm_compute; reflexivity |]. split; [reflexivity |].
  intros Hall. apply Forall_cons in Hall as [Hid _]. discriminate.
Qed.


(** Witness of C5: two preambles, room for one Msg3. *)
Lemma partial_rar_bookkeeping_witness :
  exists s1,
    schedule_rar (rar_141 [17921; 17922]) (ul_tight_scheduler 11) = Ok (1%nat, s1) /\
    schedule_pending_rars (sl 11) [rar_141 [17921; 17922]] (ul_tight_scheduler 11) =
      Ok ([rar_141 [17922]], s1, [(rar_141 [17921; 17922], 1%nat)]).
Proof.
  destruct (schedule_rar (rar_141 [17921; 17922]) (ul_tight_scheduler 11))
    as [[n s1]|] eqn:Hrar; [| vm_compute in Hrar; discriminate].
  assert (Hn : n = 1%nat).
  { vm_compute in Hrar. by injection Hrar as <- _. }
  subst n. exists s1. split; [reflexivity |].
  assert (Hcfg : cfg s1 = cell_cfg).
  { vm_compute in Hrar. by injection Hrar as <-. }
  refine (proj1 (proj2 (partial_rar_bookkeeping (sl 11) (rar_141 [17921; 17922]) []
            (ul_tight_scheduler 11) s1 1 _ Hrar)) _ _).
  - reflexivity.
  - cbn. lia.
  - rewrite Hcfg. cbn. lia.
Defined.

(** Counterexample of C5 as stated: a pending RAR without TC-RNTIs (every
    preamble of its occasion was dropped) within its window; [schedule_rar]
    returns 0 = |tc_rntis| and the RAR stays in the list. *)
Lemma empty_rar_is_kept :
  exists s1,
    contains (rar_window (rar_141 [])) (sl 11) = true /\
    schedule_rar (rar_141 []) (idle_scheduler 11) = Ok (length (tc_rntis (rar_141 [])), s1) /\
    schedule_pending_rars (sl 11) [rar_141 []] (idle_scheduler 11) =
      Ok ([rar_141 []], s1, [(rar_141 [], 0%nat)]).
Proof. eexists. split_and!; vm_compute; reflexivity. Qed.

(** C1, on the code.  One pending RAR, free DL grid and CCEs, and no CRB
    left in the UL grid of the Msg3 slot: [schedule_rar] allocates the PDCCH
    (4 CCEs), appends the DCI and a RAR without grants to the results of the
    slot, and returns 0.  [run_slot] gets there from the RACH indication of
    scenario S1, and keeps the pending RAR for the next slot. *)
Theorem schedule_rar_commits_then_returns_zero :
  (exists s',
     schedule_rar (rar_141 [17921]) (ul_busy_scheduler 11) = Ok (0%nat, s') /\
     (dl_pdcchs <$> res_alloc (ul_busy_scheduler 11) !! 0%nat) = Some [] /\
     (rar_grants <$> res_alloc (ul_busy_scheduler 11) !! 0%nat) = Some [] /\
     (map dl_ctx_rnti ∘ dl_pdcchs <$> res_alloc s' !! 0%nat) = Some [141] /\
     (map grants ∘ rar_grants <$> res_alloc s' !! 0%nat) = Some [[]] /\
     pdcch_sch (ul_busy_scheduler 11) = 16%nat /\ pdcch_sch s' = 12%nat /\
     ~ nothing_committed (ul_busy_scheduler 11) s') /\
  (exists s',
     run_slot (handle_rach_indication rach_s1 (ul_busy_scheduler 11)) = Ok (rars_scheduled, s') /\
     pending_rars s' = [rar_141 [17921]] /\
     (map dl_ctx_rnti ∘ dl_pdcchs <$> res_alloc s' !! 0%nat) = Some [141] /\
     (map grants ∘ rar_grants <$> res_alloc s' !! 0%nat) = Some [[]] /\
     Forall (fun a => puschs a = []) (res_alloc s')).
Proof.
  split.
  - eexists. split; [vm_compute; reflexivity |].
    split_and!; try (vm_compute; reflexivity).
    intros (_ & Hsch & _). vm_compute in Hsch. discriminate.
  - eexists. split; [vm_compute; reflexivity |].
    split_and!; try (vm_compute; reflexivity).
    repeat constructor.
Qed.

(** [schedule_msg3_retx] for a HARQ that refuses the retransmission: the UL
    PDCCH stays allocated and the UL grid filled, without a PUSCH. *)
Lemma schedule_msg3_retx_fills_then_fails :
  exists s',
    schedule_msg3_retx 1 (msg3_sent_scheduler 11) = Ok s' /\
    (length ∘ ul_pdcchs <$> res_alloc s' !! 0%nat) = Some 1%nat /\
    (ul_res_grid <$> res_alloc s' !! 4%nat) =
      Some (grid_fill (empty_grid 14 52)
              {| grant_scs := kHz30; grant_symbols := {| sym_start := 0; sym_stop := 14 |};
                 grant_crbs := {| rb_start := 0; rb_stop := 3 |} |}) /\
    (puschs <$> res_alloc s' !! 4%nat) = Some [] /\
    logger s' = [warn_failed_msg3_retx] /\
    ~ nothing_committed (msg3_sent_scheduler 11) s'.
Proof.
  eexists. split; [vm_compute; reflexivity |].
  split_and!; try (vm_compute; reflexivity).
  intros (_ & Hsch & _). vm_compute in Hsch. discriminate.
Qed.

(** *** The scenarios of the design document *)

(** S1, single-preamble RAR: at slot 11 one DL PDCCH for RA-RNTI 141 and one
    RAR whose grant has rapid 3, TC-RNTI 0x4601, ta 12 and MCS 0; at slot
    11 + msg3_delay = 18 one PUSCH for 0x4601, new data, 11 bytes. *)
Example scenario_S1 :
  exists s',
    run_slot (handle_rach_indication rach_s1 (idle_scheduler 11)) = Ok (rars_scheduled, s') /\
    pending_rars s' = [] /\
    (map dl_ctx_rnti ∘ dl_pdcchs <$> res_alloc s' !! 0%nat) = Some [141] /\
    (map grants ∘ rar_grants <$> res_alloc s' !! 0%nat) =
      Some [[ {| rapid := 3; ta := 12; temp_crnti := 17921; time_resource_assignment := 0;
                 freq_resource_assignment := 104; grant_mcs := 0; tpc := 0;
                 csi_req := false |} ]] /\
    (slot <$> res_alloc s' !! 7%nat) = Some (sl 18) /\
    (puschs <$> res_alloc s' !! 7%nat) =
      Some [ {| pusch_rnti := 17921; pusch_prbs := {| rb_start := 0; rb_stop := 3 |};
                pusch_cfg_symbols := {| sym_start := 0; sym_stop := 14 |};
                pusch_mcs_index := 0; pusch_rv_index := 0; pusch_harq_id := 17921 mod 16;
                pusch_new_data := true; pusch_tb_size_bytes := 11 |} ].
Proof. eexists. split_and!; vm_compute; reflexivity. Qed.

(** S2, duplicate preamble: the Msg3 context of 0x4601 holds a HARQ in use;
    the preamble is dropped with a warning and no RAR is produced. *)
Example scenario_S2 :
  exists s',
    run_slot (handle_rach_indication rach_s1 (msg3_sent_scheduler 11)) = Ok (rars_scheduled, s') /\
    warn_prach_ignored 17921 ∈ logger s' /\
    res_alloc s' = res_alloc (msg3_sent_scheduler 11) /\
    pending_msg3s s' = pending_msg3s (msg3_sent_scheduler 11).
Proof.
  eexists. split; [vm_compute; reflexivity |]. split_and!; [| reflexivity..].
  apply elem_of_cons. right. apply elem_of_cons. by left.
Qed.

(** S3, Msg3 CRC NACK: on the next tick a UL PDCCH for TC-RNTI 0x4601 with
    redundancy version 2 and, at tx + 4, a PUSCH that is no new data on the
    same PRBs. *)
Example scenario_S3 :
  exists s',
    run_slot (handle_crc_indication crc_nack (msg3_sent_scheduler 22)) = Ok (rars_scheduled, s') /\
    (map (fun pdcch => (ul_ctx_rnti pdcch, redundancy_version <$> ul_dci pdcch)) ∘ ul_pdcchs
       <$> res_alloc s' !! 0%nat) = Some [(17921, Some 2)] /\
    (map (fun pusch => (pusch_rnti pusch, pusch_new_data pusch, pusch_prbs pusch)) ∘ puschs
       <$> res_alloc s' !! 4%nat) = Some [(17921, false, {| rb_start := 0; rb_stop := 3 |})].
Proof. eexists. split_and!; vm_compute; reflexivity. Qed.

(** S4, RAR window expiry: at slot_tx = rar_window.stop the pending RAR is
    removed and nothing is emitted. *)
Example scenario_S4 :
  exists s',
    run_slot (set_pending_rars [rar_141 [17921]] (idle_scheduler 21)) = Ok (rars_scheduled, s') /\
    pending_rars s' = [] /\
    logger s' = [warn_rar_window_passed 141] /\
    res_alloc s' = res_alloc (idle_scheduler 21).
Proof. eexists. split_and!; vm_compute; reflexivity. Qed.

(** Scenario S6: a buffer is reserved and locked.  [stop] does not return
    while the encoder keeps the lock; once the encoder has released it,
    [stop] returns and neither overload of [reserve] hands out a buffer. *)
Example scenario_S6 :
  stop [] locked_pool = None /\
  exists p',
    stop [0%nat] locked_pool = Some p' /\
    reserve (sl 5) (id_harq 17930 1 true) 1 true p' = Ok (p', None) /\
    reserve_anonymous (sl 5) 1 p' = Ok (p', None).
Proof. split; [| eexists; split_and!]; vm_compute; reflexivity. Qed.

End concrete.

(** * Further properties *)

(** ** Loops *)

(** An invariant of the body is an invariant of the loop. *)
Lemma for_each_invariant {S X} (body : S -> X -> outcome S) (P : S -> Prop) xs : forall s s',
  (forall s x s', x ∈ xs -> P s -> body s x = Ok s' -> P s') ->
  P s -> for_each body s xs = Ok s' -> P s'.
Proof.
  induction xs as [| x xs IH]; intros s s' Hbody Hs Hloop; cbn in Hloop.
  - by injection Hloop as <-.
  - apply bind_Ok in Hloop as (s1 & Hx & Hloop).
    eapply IH; [| | done].
    + intros s2 y s3 Hy. apply Hbody. apply elem_of_cons. by right.
    + eapply Hbody; [| done..]. apply elem_of_cons. by left.
Qed.

(** A reflexive and transitive relation that every step of the body
    satisfies relates the two ends of the loop. *)
Lemma for_each_related {S X} (body : S -> X -> outcome S) (R : S -> S -> Prop) xs : forall s s',
  (forall s, R s s) -> (forall s1 s2 s3, R s1 s2 -> R s2 s3 -> R s1 s3) ->
  (forall s x s', x ∈ xs -> body s x = Ok s' -> R s s') ->
  for_each body s xs = Ok s' -> R s s'.
Proof.
  intros s s' Hrefl Htrans Hbody Hloop.
  apply (for_each_invariant body (R s) xs s s'); [| done..].
  intros s1 x s2 Hx Hs1 Hstep. eapply Htrans; [done |]. by eapply Hbody.
Qed.

Section pool_more.
Context `{SlotPoint slot_point}.
Import TxBufferPool.
Local Abbreviation pool := (tx_buffer_pool_impl slot_point).

(** A successful [reserve_at]: the entry of the buffer is rewritten, the
    buffer is locked with the codeblocks asked for, and nothing else changes
    but the codeblock pool. *)
Lemma reserve_at_success slot id n chk i (p p' : pool) j :
  reserve_at slot id n chk i p = Ok (p', Some j) ->
  j = i /\ (i < length (buffers p))%nat /\
  stopped p' = stopped p /\
  expire_timeout_slots p' = expire_timeout_slots p /\
  identifiers p' = <[i := id]> (identifiers p) /\
  expirations p' = <[i := Some (slot_add slot (expire_timeout_slots p))]> (expirations p) /\
  buffers p' = <[i := {| current_state := st_locked; nof_codeblocks := n |}]> (buffers p) /\
  (n <= codeblock_pool p' + n)%nat.
Proof.
  unfold reserve_at. intros (buffer & Hb%at_index_Ok & Hr)%bind_Ok.
  apply lookup_lt_Some in Hb as Hlt.
  destruct (chk && _); [done |].
  unfold buffer_reserve in Hr. destruct (is_locked buffer); cbn in Hr; [done |].
  case_bool_decide; cbn in Hr; [| done].
  injection Hr as <- <-. cbn. split_and!; try done. lia.
Qed.

(** Whatever its result, [reserve_at] keeps the sizes of the arrays, the
    stop flag and the timeout. *)
Lemma reserve_at_sizes slot id n chk i (p p' : pool) ub :
  reserve_at slot id n chk i p = Ok (p', ub) ->
  length (identifiers p') = length (identifiers p) /\
  length (expirations p') = length (expirations p) /\
  length (buffers p') = length (buffers p) /\
  stopped p' = stopped p /\ expire_timeout_slots p' = expire_timeout_slots p.
Proof.
  unfold reserve_at. intros (buffer & Hb%at_index_Ok & Hr)%bind_Ok.
  destruct (chk && _).
  { injection Hr as <- <-. done. }
  destruct (buffer_reserve buffer n (codeblock_pool p)) as [[status b'] cbs'].
  destruct (negb _); injection Hr as <- <-; cbn; rewrite ?length_insert; done.
Qed.

Lemma reserve_sizes slot id n new_data (p p' : pool) ub :
  reserve slot id n new_data p = Ok (p', ub) ->
  length (identifiers p') = length (identifiers p) /\
  length (expirations p') = length (expirations p) /\
  length (buffers p') = length (buffers p) /\
  stopped p' = stopped p /\ expire_timeout_slots p' = expire_timeout_slots p.
Proof.
  unfold reserve. destruct (stopped p) eqn:Hst.
  { intros [= <- <-]. done. }
  destruct (std_find id (identifiers p)) as [i|].
  { intros Hr%reserve_at_sizes. by rewrite <- Hst. }
  destruct new_data; [| by intros [= <- <-]].
  destruct (std_find id_invalid (identifiers p)) as [i|]; [| by intros [= <- <-]].
  intros Hr%reserve_at_sizes. by rewrite <- Hst.
Qed.

Lemma reserve_anonymous_sizes slot n (p p' : pool) ub :
  reserve_anonymous slot n p = Ok (p', ub) ->
  length (identifiers p') = length (identifiers p) /\
  length (expirations p') = length (expirations p) /\
  length (buffers p') = length (buffers p) /\
  stopped p' = stopped p /\ expire_timeout_slots p' = expire_timeout_slots p.
Proof.
  unfold reserve_anonymous. destruct (stopped p) eqn:Hst.
  { intros [= <- <-]. done. }
  destruct (std_find id_invalid (identifiers p)) as [i|].
  - intros Hr%reserve_at_sizes. by rewrite <- Hst.
  - intros [= <- <-]. done.
Qed.

Lemma run_slot_returns slot (p : pool) :
  pool_wf p ->
  exists p', run_slot slot p = Ok p' /\ pool_wf p' /\
    length (buffers p') = length (buffers p) /\
    expire_timeout_slots p' = expire_timeout_slots p /\ stopped p' = stopped p /\
    (forall i, expiration_handled slot p p' i).
Proof.
  intros Hwf. unfold run_slot.
  destruct (run_slot_loop_spec slot (seq 0 (length (identifiers p))) p Hwf)
    as (p' & Hloop & Hwf' & Hlen & Hto & Hst & Hh & Hfr).
  { apply NoDup_seq. }
  { apply Forall_forall. intros i Hi%elem_of_seq. destruct Hwf as [Hids _]. lia. }
  exists p'. split_and!; try done. intros i.
  destruct (decide (i ∈ seq 0 (length (identifiers p)))) as [Hi | Hi]; [by apply Hh |].
  intros id b e Hid. exfalso. apply Hi, elem_of_seq. apply lookup_lt_Some in Hid. lia.
Qed.

(** X1.  The three arrays of the pool stay aligned: on a pool with one
    identifier and one expiration per buffer, [reserve] (both overloads) and
    [run_slot] return, that is, they never index outside an array, and they,
    like [stop], leave a pool with the same number of buffers and again one
    identifier and one expiration per buffer. *)
Theorem pool_arrays_stay_aligned (slot : slot_point) (id : trx_buffer_identifier)
    (n : nat) (new_data : bool) (p : pool) :
  pool_wf p ->
  (exists p' ub, reserve slot id n new_data p = Ok (p', ub) /\
     pool_wf p' /\ length (buffers p') = length (buffers p)) /\
  (exists p' ub, reserve_anonymous slot n p = Ok (p', ub) /\
     pool_wf p' /\ length (buffers p') = length (buffers p)) /\
  (exists p', run_slot slot p = Ok p' /\
     pool_wf p' /\ length (buffers p') = length (buffers p)) /\
  (forall sched p', stop sched p = Some p' ->
     pool_wf p' /\ length (buffers p') = length (buffers p)).
Proof.
  intros Hwf. pose proof Hwf as [Hids Hexps].
  destruct (reserve_total slot id n new_data p Hwf) as [Hr Ha].
  split_and!.
  - destruct (reserve slot id n new_data p) as [[p' ub]|] eqn:E; [| done].
    apply reserve_sizes in E as E'. destruct E' as (Hi & He & Hb & _).
    exists p', ub. split_and!; try done. split; congruence.
  - destruct (reserve_anonymous slot n p) as [[p' ub]|] eqn:E; [| done].
    apply reserve_anonymous_sizes in E as E'. destruct E' as (Hi & He & Hb & _).
    exists p', ub. split_and!; try done. split; congruence.
  - destruct (run_slot_returns slot p Hwf) as (p' & Hrun & Hwf' & Hlen & _).
    by exists p'.
  - intros sched p'. unfold stop.
    destruct (wait_all_unlocked _ sched _) as [[sched' p1]|] eqn:Hw; [| done].
    intros [= <-].
    apply wait_all_unlocked_spec in Hw as (_ & Hi & He & Hlen & _). cbn in *.
    split; [| done]. split; congruence.
Qed.

(** *** Identifiers are unique *)

Lemma identifiers_unique_insert (ids : list trx_buffer_identifier) i id :
  (forall a b rnti h dl, ids !! a = Some (id_harq rnti h dl) ->
     ids !! b = Some (id_harq rnti h dl) -> a = b) ->
  (forall j, ids !! j = Some id -> j = i \/ id = id_invalid \/ id = id_unknown) ->
  (forall a b rnti h dl, <[i := id]> ids !! a = Some (id_harq rnti h dl) ->
     <[i := id]> ids !! b = Some (id_harq rnti h dl) -> a = b).
Proof.
  intros Huniq Hid a b rnti h dl Ha Hb.
  apply list_lookup_insert_Some in Ha as [(Hia & Hida & Hla) | (Hai & Ha)];
    apply list_lookup_insert_Some in Hb as [(Hib & Hidb & Hlb) | (Hbi & Hb)].
  - congruence.
  - subst id. destruct (Hid b Hb) as [? | [? | ?]]; congruence.
  - subst id. destruct (Hid a Ha) as [? | [? | ?]]; congruence.
  - by eapply Huniq.
Qed.

(** X2.  No two buffers are ever reserved under the same HARQ identifier:
    this holds after [reserve] (both overloads) and after [run_slot] if it
    held before. *)
Theorem reserve_keeps_identifiers_unique (slot : slot_point) (p : pool) :
  identifiers_unique p ->
  (forall id n new_data p' ub,
     reserve slot id n new_data p = Ok (p', ub) -> identifiers_unique p') /\
  (forall n p' ub, reserve_anonymous slot n p = Ok (p', ub) -> identifiers_unique p') /\
  (forall p', run_slot slot p = Ok p' -> identifiers_unique p').
Proof.
  intros Huniq.
  assert (Hat : forall id n chk i p' ub,
            (forall j, identifiers p !! j = Some id ->
               j = i \/ id = id_invalid \/ id = id_unknown) ->
            reserve_at slot id n chk i p = Ok (p', ub) -> identifiers_unique p').
  { intros id n chk i p' [j|] Hid Hr.
    - apply reserve_at_success in Hr as (_ & _ & _ & _ & Hi & _).
      unfold identifiers_unique. rewrite Hi. by apply identifiers_unique_insert.
    - apply reserve_at_spec in Hr as (_ & _ & Hi & _).
      unfold identifiers_unique. by rewrite Hi. }
  split_and!.
  - intros id n new_data p' ub. unfold reserve. destruct (stopped p).
    { by intros [= <- <-]. }
    destruct (std_find id (identifiers p)) as [i|] eqn:Hfind.
    + apply std_find_Some in Hfind as [Hi Hmin].
      apply Hat. intros j Hj. destruct id as [| | rnti h dl]; [by auto.. |].
      left. by eapply Huniq.
    + apply std_find_None in Hfind. destruct new_data.
      * destruct (std_find id_invalid (identifiers p)) as [i|]; [| by intros [= <- <-]].
        apply Hat. intros j Hj. destruct Hfind. by eapply list_elem_of_lookup_2.
      * by intros [= <- <-].
  - intros n p' ub. unfold reserve_anonymous. destruct (stopped p).
    { by intros [= <- <-]. }
    destruct (std_find id_invalid (identifiers p)) as [i|]; [| by intros [= <- <-]].
    apply Hat. auto.
  - intros p'. unfold run_slot.
    apply (for_each_invariant (run_slot_body slot) identifiers_unique); [| done].
    clear. intros q i q' _ Hu. unfold run_slot_body.
    intros (id & _ & Hr)%bind_Ok. case_bool_decide; [by injection Hr as <- |].
    apply bind_Ok in Hr as (buffer & _ & Hr).
    apply bind_Ok in Hr as (expiration & _ & Hr).
    match type of Hr with
    | context [if ?c then buffer_expire ?b ?n else ?e] =>
        destruct (if c then buffer_expire b n else e) as [[free b'] cbs']
    end.
    injection Hr as <-. unfold identifiers_unique. cbn. destruct free; [| done].
    apply identifiers_unique_insert; auto.
Qed.


(** *** New data, then retransmissions *)

(** Where a successful [reserve] found its buffer: no earlier entry holds
    the identifier. *)
Lemma reserve_Some_first slot id n new_data (p p1 : pool) i :
  reserve slot id n new_data p = Ok (p1, Some i) ->
  stopped p = false /\ (i < length (identifiers p))%nat /\
  (forall j, (j < i)%nat -> identifiers p !! j <> Some id) /\
  reserve_at slot id n (negb new_data) i p = Ok (p1, Some i).
Proof.
  unfold reserve. destruct (stopped p); [done |].
  destruct (std_find id (identifiers p)) as [k|] eqn:Hfind.
  - intros Hr. apply reserve_at_success in Hr as Hs. destruct Hs as (-> & _).
    apply std_find_Some in Hfind as [Hk Hmin]. split_and!; try done.
    by eapply lookup_lt_Some.
  - apply std_find_None in Hfind. destruct new_data; [| done].
    destruct (std_find id_invalid (identifiers p)) as [k|] eqn:Hfree; [| done].
    intros Hr. apply reserve_at_success in Hr as Hs. destruct Hs as (-> & _).
    apply std_find_Some in Hfree as [Hk _]. split_and!; try done.
    + by eapply lookup_lt_Some.
    + intros j _ Hj. apply Hfind. by eapply list_elem_of_lookup_2.
Qed.



(** *** What a slot tick leaves behind *)

Lemma is_locked_not_free (b : tx_buffer_impl) : is_locked b = true -> is_free b = false.
Proof.
  unfold is_locked, is_free. intros Hl%bool_decide_eq_true.
  apply bool_decide_eq_false. congruence.
Qed.

Lemma run_slot_body_settles slot (p p' : pool) i :
  pool_wf p -> run_slot_body slot p i = Ok p' ->
  tick_settled slot p' i /\
  (forall id, identifiers p' !! i = Some id ->
     id = id_invalid \/ identifiers p !! i = Some id) /\
  (identifiers p !! i = Some id_invalid -> p' = p).
Proof.
  intros [Hids Hexps]. unfold run_slot_body.
  intros (id & Hid%at_index_Ok & Hr)%bind_Ok.
  assert (Hi : (i < length (buffers p))%nat).
  { rewrite <- Hids. by eapply lookup_lt_Some. }
  case_bool_decide as Hinv.
  { injection Hr as <-. subst id. split_and!; [| by auto | done].
    intros id b e Hid'. congruence. }
  apply bind_Ok in Hr as (buffer & Hb%at_index_Ok & Hr).
  apply bind_Ok in Hr as (exp & He%at_index_Ok & Hr).
  set (expired := match exp with Some e => slot_le e slot | None => false end) in Hr.
  destruct expired eqn:Hexp; subst expired.
  - destruct exp as [e|]; [| done].
    unfold buffer_expire in Hr. destruct (is_locked buffer) eqn:Hl; cbn in Hr.
    + injection Hr as <-. cbn. split_and!.
      * intros id' b' e'. cbn. rewrite ?list_lookup_insert_eq by lia.
        intros _ [= <-] [= <-] _. split; [by apply is_locked_not_free |].
        intros e0 [= <-] _. done.
      * intros id'. auto.
      * congruence.
    + injection Hr as <-. cbn. split_and!.
      * intros id' b' e'. cbn. rewrite ?list_lookup_insert_eq by lia. congruence.
      * intros id'. cbn. rewrite list_lookup_insert_eq by lia. intros [= <-]. by left.
      * congruence.
  - destruct (is_free buffer) eqn:Hfree; cbn in Hr.
    + injection Hr as <-. cbn. split_and!.
      * intros id' b' e'. cbn. rewrite ?list_lookup_insert_eq by lia. congruence.
      * intros id'. cbn. rewrite list_lookup_insert_eq by lia. intros [= <-]. by left.
      * congruence.
    + injection Hr as <-. cbn. split_and!.
      * intros id' b' e'. cbn. rewrite ?list_lookup_insert_eq by lia.
        intros _ [= <-] [= <-] _. split; [done |].
        intros e0 -> Hle. congruence.
      * intros id'. auto.
      * congruence.
Qed.

Lemma tick_settled_same_entry slot (p p' : pool) i :
  same_entry p p' i -> expire_timeout_slots p' = expire_timeout_slots p ->
  tick_settled slot p i -> tick_settled slot p' i.
Proof.
  intros (Ei & Ee & Eb) Hto Hs id b e. rewrite Ei, Ee, Eb, Hto. apply Hs.
Qed.

Lemma run_slot_loop_settles slot idxs : forall p p' : pool,
  pool_wf p -> NoDup idxs -> Forall (fun i => i < length (buffers p))%nat idxs ->
  for_each (run_slot_body slot) p idxs = Ok p' ->
  forall i, i ∈ idxs ->
    tick_settled slot p' i /\
    (forall id, identifiers p' !! i = Some id ->
       id = id_invalid \/ identifiers p !! i = Some id) /\
    (identifiers p !! i = Some id_invalid -> same_entry p p' i).
Proof.
  induction idxs as [| k idxs IH]; intros p p' Hwf Hnd Hlt Hloop i Hi.
  { by apply elem_of_nil in Hi. }
  apply NoDup_cons in Hnd as [Hni Hnd]. apply Forall_cons in Hlt as [Hk Hlt].
  cbn in Hloop. apply bind_Ok in Hloop as (p1 & Hbody & Hloop).
  destruct (run_slot_body_spec slot p k Hwf Hk)
    as (p1' & Hbody' & Hwf1 & Hlen1 & Hto1 & _ & _ & Hfr1).
  assert (p1' = p1) by congruence. subst p1'.
  assert (Hlt1 : Forall (fun i => i < length (buffers p1))%nat idxs) by by rewrite Hlen1.
  destruct (run_slot_loop_spec slot idxs p1 Hwf1 Hnd Hlt1)
    as (p'' & Hloop' & _ & _ & Hto' & _ & _ & Hfr').
  assert (p'' = p') by congruence. subst p''.
  apply elem_of_cons in Hi as [-> | Hi].
  - destruct (run_slot_body_settles slot p p1 k Hwf Hbody) as (Hs & Hid & Hsame).
    pose proof (Hfr' k Hni) as Hk'. pose proof Hk' as (Ei & Ee & Eb). split_and!.
    + by eapply tick_settled_same_entry.
    + intros id. rewrite Ei. apply Hid.
    + intros Hinv. rewrite <- (Hsame Hinv) at 1. done.
  - assert (Hik : i <> k) by (intros ->; done).
    destruct (Hfr1 i Hik) as (Ei & Ee & Eb).
    destruct (IH p1 p' Hwf1 Hnd Hlt1 Hloop i Hi) as (Hs & Hid & Hsame).
    split_and!; [done | |].
    + intros id Hid'. rewrite <- Ei. by apply Hid.
    + intros Hinv. rewrite <- Ei in Hinv. destruct (Hsame Hinv) as (Fi & Fe & Fb).
      unfold same_entry. split_and!; congruence.
Qed.

Lemma run_slot_settles slot (p p' : pool) :
  pool_wf p -> run_slot slot p = Ok p' ->
  pool_wf p' /\
  forall i,
    tick_settled slot p' i /\
    (forall id, identifiers p' !! i = Some id ->
       id = id_invalid \/ identifiers p !! i = Some id) /\
    (identifiers p !! i = Some id_invalid -> same_entry p p' i).
Proof.
  intros Hwf Hrun.
  destruct (run_slot_returns slot p Hwf) as (p'' & Hrun' & Hwf' & Hlen & _).
  assert (p'' = p') by congruence. subst p''. split; [done |]. intros i.
  destruct (decide (i < length (identifiers p))%nat) as [Hi | Hi].
  - eapply (run_slot_loop_settles slot (seq 0 (length (identifiers p))) p p' Hwf);
      [apply NoDup_seq | | done | apply elem_of_seq; lia].
    apply Forall_forall. intros j Hj%elem_of_seq. destruct Hwf as [Hids _]. lia.
  - assert (Hnone : identifiers p' !! i = None).
    { apply lookup_ge_None. destruct Hwf as [Hids _], Hwf' as [Hids' _]. lia. }
    split_and!.
    + intros id b e Hid. congruence.
    + intros id Hid. congruence.
    + intros Hinv. apply lookup_lt_Some in Hinv. lia.
Qed.

(** X4.  A slot tick reclaims every free buffer, expired or not: after
    [run_slot] no entry keeps an identifier for a buffer that is free.  The
    tick never reserves: an identifier of the pool afterwards is the invalid
    one or the one the entry had before, and the entries that were invalid
    are untouched. *)
Theorem run_slot_reclaims_free_buffers (slot : slot_point) (p p' : pool) :
  pool_wf p -> run_slot slot p = Ok p' ->
  reserved_in_use p' /\
  (forall i id, identifiers p' !! i = Some id ->
     id = id_invalid \/ identifiers p !! i = Some id) /\
  (forall i, identifiers p !! i = Some id_invalid -> same_entry p p' i).
Proof.
  intros Hwf Hrun. destruct (run_slot_settles slot p p' Hwf Hrun) as [Hwf' Hall].
  split_and!.
  - intros i id b Hid Hne Hb.
    destruct (Hall i) as (Hs & _).
    destruct (lookup_lt_is_Some_2 (expirations p') i) as [e He].
    { destruct Hwf' as [Hi' He']. rewrite He', <- Hi'. by eapply lookup_lt_Some. }
    by destruct (Hs id b e Hid Hb He Hne).
  - intros i. apply Hall.
  - intros i. apply Hall.
Qed.

Lemma run_slot_body_settled slot (p : pool) i :
  (i < length (identifiers p))%nat -> pool_wf p ->
  tick_settled slot p i -> run_slot_body slot p i = Ok p.
Proof.
  intros Hi [Hids Hexps] Hs. unfold run_slot_body.
  destruct (at_index_lt (identifiers p) i) as (id & -> & Hid); [lia |].
  destruct (at_index_lt (buffers p) i) as (buffer & -> & Hb); [lia |].
  destruct (at_index_lt (expirations p) i) as (exp & -> & He); [lia |].
  cbn. case_bool_decide as Hinv; [done |].
  destruct (Hs id buffer exp Hid Hb He Hinv) as [Hfree Hexp].
  destruct exp as [e|].
  - destruct (slot_le e slot) eqn:Hle.
    + destruct (Hexp e eq_refl Hle) as [Hl ->].
      unfold buffer_expire. rewrite Hl. cbn.
      rewrite !list_insert_id by done. by destruct p.
    + rewrite Hfree. cbn. rewrite !list_insert_id by done. by destruct p.
  - rewrite Hfree. cbn. rewrite !list_insert_id by done. by destruct p.
Qed.

(** X5.  A second tick for the same slot changes nothing:
    [run_slot (slot)] after [run_slot (slot)] returns the pool as it is. *)
Theorem run_slot_idempotent (slot : slot_point) (p p' : pool) :
  pool_wf p -> run_slot slot p = Ok p' -> run_slot slot p' = Ok p'.
Proof.
  intros Hwf Hrun. destruct (run_slot_settles slot p p' Hwf Hrun) as [Hwf' Hall].
  unfold run_slot.
  assert (Hloop : forall idxs, Forall (fun i => i < length (identifiers p'))%nat idxs ->
            for_each (run_slot_body slot) p' idxs = Ok p').
  { induction idxs as [| i idxs IH]; intros Hlt; [done |].
    apply Forall_cons in Hlt as [Hi Hlt]. cbn.
    rewrite run_slot_body_settled; [| done | done | apply Hall]. cbn. by apply IH. }
  apply Hloop. apply Forall_forall. intros i Hi%elem_of_seq. lia.
Qed.


(** *** The anonymous overload *)

(** X6.  [reserve (slot, nof_codeblocks)] takes the first entry whose
    identifier is invalid and marks it [unknown]; it never touches an entry
    that is held under an identifier.  On a stopped pool it returns an
    invalid buffer and changes nothing, and without an invalid entry it fails
    with "insufficient buffers". *)
Theorem reserve_anonymous_first_free (slot : slot_point) (n : nat) (p p' : pool)
    (ub : unique_tx_buffer) :
  reserve_anonymous slot n p = Ok (p', ub) ->
  (stopped p = true -> ub = None /\ p' = p) /\
  (stopped p = false -> id_invalid ∉ identifiers p ->
     ub = None /\ p' = log_warning warn_insufficient_buffers p) /\
  (forall i, ub = Some i ->
     stopped p = false /\ is_first id_invalid (identifiers p) i /\
     identifiers p' = <[i := id_unknown]> (identifiers p) /\
     expirations p' =
       <[i := Some (slot_add slot (expire_timeout_slots p))]> (expirations p) /\
     buffers p' = <[i := {| current_state := st_locked; nof_codeblocks := n |}]> (buffers p) /\
     (forall j id, identifiers p !! j = Some id -> id <> id_invalid -> same_entry p p' j)).
Proof.
  unfold reserve_anonymous. destruct (stopped p) eqn:Hst.
  { intros [= <- <-]. split_and!; try done. }
  destruct (std_find id_invalid (identifiers p)) as [k|] eqn:Hfind.
  - apply std_find_Some in Hfind as Hfirst. intros Hr. split_and!; [done | |].
    + intros _ Hno. destruct Hno. eapply list_elem_of_lookup_2, Hfirst.
    + intros i ->. apply reserve_at_success in Hr as (<- & _ & _ & _ & Hi & He & Hb & _).
      split_and!; try done.
      intros j id Hj Hne. assert (j <> i) by (intros ->; destruct Hfirst; congruence).
      unfold same_entry. rewrite Hi, He, Hb. by rewrite !list_lookup_insert_ne.
  - apply std_find_None in Hfind. intros [= <- <-]. split_and!; try done.
Qed.

(** *** When [stop] returns *)

Lemma wait_unlocked_only_scheduled i sched : forall (p p' : pool) sched',
  wait_unlocked i sched p = Some (sched', p') ->
  sched' `suffix_of` sched /\
  forall j b, buffers p !! j = Some b -> is_locked b = true ->
    j ∈ sched \/ buffers p' !! j = Some b.
Proof.
  induction sched as [| k sched IH]; intros p p' sched' Hw; cbn in Hw.
  - assert (sched' = [] /\ p' = p) as [-> ->].
    { destruct (buffers p !! i) as [b|]; [destruct (is_locked b) |]; by simplify_eq. }
    split; [done |]. auto.
  - destruct (buffers p !! i) as [bi|] eqn:Hbi; [destruct (is_locked bi) eqn:Hli |].
    + apply IH in Hw as [Hsuf Hkeep]. split; [by apply suffix_cons_r |].
      intros j b Hj Hl. destruct (decide (j = k)) as [-> | Hjk].
      { left. apply elem_of_cons. by left. }
      destruct (Hkeep j b) as [Hin | Hsame]; [| done | | by right].
      * cbn. by rewrite list_lookup_alter_ne.
      * left. apply elem_of_cons. by right.
    + injection Hw as <- <-. split; [done |]. auto.
    + injection Hw as <- <-. split; [done |]. auto.
Qed.

Lemma wait_all_unlocked_only_scheduled idxs : forall sched (p p' : pool) sched',
  wait_all_unlocked idxs sched p = Some (sched', p') ->
  sched' `suffix_of` sched /\
  forall j b, buffers p !! j = Some b -> is_locked b = true ->
    j ∈ sched \/ buffers p' !! j = Some b.
Proof.
  induction idxs as [| i idxs IH]; intros sched p p' sched' Hw; cbn in Hw.
  - injection Hw as <- <-. split; [done |]. auto.
  - destruct (wait_unlocked i sched p) as [[sched1 p1]|] eqn:Hw1; [| done].
    apply wait_unlocked_only_scheduled in Hw1 as [Hsuf1 Hkeep1].
    apply IH in Hw as [Hsuf Hkeep]. split; [by etrans |].
    intros j b Hj Hl. destruct (Hkeep1 j b Hj Hl) as [? | Hj1]; [by left |].
    destruct (Hkeep j b Hj1 Hl) as [Hin | ?]; [| by right].
    left. destruct Hsuf1 as [pre ->]. apply elem_of_app. by right.
Qed.

(** X7.  [stop] returns exactly when the encoders release every buffer that
    is locked at the call: with an encoder schedule that unlocks each of them
    the busy wait ends, and if one of them is never unlocked [stop] does not
    return. *)
Theorem stop_returns_iff_released (sched : list nat) (p : pool) :
  is_Some (stop sched p) <-> forall j, locked_at p j -> j ∈ sched.
Proof.
  split.
  - intros [p' Hstop] j (b & Hb & Hl). unfold stop in Hstop.
    destruct (wait_all_unlocked _ sched _) as [[sched' p1]|] eqn:Hw; [| done].
    injection Hstop as <-.
    apply wait_all_unlocked_only_scheduled in Hw as Hw'. destruct Hw' as [_ Hkeep].
    apply wait_all_unlocked_spec in Hw as (_ & _ & _ & _ & _ & Hun). cbn in *.
    destruct (Hkeep j b Hb Hl) as [? | Hb']; [done |].
    assert (is_locked b = false); [| congruence].
    eapply Hun; [| done]. apply elem_of_seq. apply lookup_lt_Some in Hb. lia.
  - intros Hall. apply stop_returns. intros j b Hb Hl. apply Hall. by exists b.
Qed.

End pool_more.

Section ra_rnti_more.
Context `{SlotPoint slot_point}.

Lemma get_ra_rnti_no_wrap (sl_rx : slot_point) (s_id f_id : Z) (is_sul : bool) :
  0 <= s_id < 14 -> 0 <= f_id < 8 -> 0 <= slot_index sl_rx < 80 ->
  get_ra_rnti sl_rx s_id f_id is_sul =
    1 + s_id + 14 * slot_index sl_rx + 1120 * f_id + 8960 * (if is_sul then 1 else 0).
Proof.
  intros Hs Hf Ht. unfold get_ra_rnti, u32_add, u32_mul.
  rewrite (u32_small (14 * 80)) by lia.
  rewrite (u32_small (14 * 80 * 8)) by lia.
  rewrite (u32_small (1 + s_id)) by lia.
  rewrite (u32_small (14 * slot_index sl_rx)) by lia.
  rewrite (u32_small (14 * 80 * f_id)) by lia.
  rewrite (u32_small (1 + s_id + 14 * slot_index sl_rx)) by lia.
  rewrite (u32_small (1 + s_id + 14 * slot_index sl_rx + 14 * 80 * f_id)) by lia.
  destruct is_sul.
  - rewrite (u32_small (14 * 80 * 8 * 1)) by lia.
    rewrite u32_small by lia. rewrite u16_small by lia. lia.
  - rewrite (u32_small (14 * 80 * 8 * 0)) by lia.
    rewrite u32_small by lia. rewrite u16_small by lia. lia.
Qed.

(** X8.  The RA-RNTI identifies the PRACH occasion: within the ranges of
    TS 38.321 (symbol below 14, slot index below 80, frequency index below 8)
    [get_ra_rnti] lies between 1 and 17920, and two occasions get the same
    RA-RNTI only if they have the same symbol, slot index, frequency index and
    carrier. *)
Theorem get_ra_rnti_injective (sl1 sl2 : slot_point) (s1 f1 s2 f2 : Z) (sul1 sul2 : bool) :
  0 <= s1 < 14 -> 0 <= f1 < 8 -> 0 <= slot_index sl1 < 80 ->
  0 <= s2 < 14 -> 0 <= f2 < 8 -> 0 <= slot_index sl2 < 80 ->
  1 <= get_ra_rnti sl1 s1 f1 sul1 <= 17920 /\
  (get_ra_rnti sl1 s1 f1 sul1 = get_ra_rnti sl2 s2 f2 sul2 ->
   s1 = s2 /\ slot_index sl1 = slot_index sl2 /\ f1 = f2 /\ sul1 = sul2).
Proof.
  intros Hs1 Hf1 Ht1 Hs2 Hf2 Ht2.
  rewrite !get_ra_rnti_no_wrap by done.
  split; [destruct sul1; lia |].
  intros Heq.
  assert (sul1 = sul2) as -> by (destruct sul1, sul2; (done || lia)).
  assert (f1 = f2) as -> by lia.
  assert (slot_index sl1 = slot_index sl2) as Ht by lia.
  split_and!; (done || lia).
Qed.
End ra_rnti_more.

Section ra_more.
Import RaScheduler.
Context {slot_point harq_t grid_t pdcch_sch_t : Type}.
Context `{!SlotPoint slot_point} `{!UlHarqProcess slot_point harq_t}.
Context `{!ResourceGrid grid_t} `{!SchedHelpers slot_point pdcch_sch_t}.
Local Abbreviation sched := (ra_scheduler slot_point harq_t grid_t pdcch_sch_t).
Local Abbreviation rar_t := (pending_rar_t slot_point).

(** *** The RAR window *)

(** X9.  The RAR window set for a PRACH occasion.  Without a TDD pattern it
    is the [ra_resp_window] slots that follow the PRACH slot.  With a TDD
    pattern it starts at the first slot after the PRACH, within one TDD
    period, that has DL enabled; when the period has no such slot the window
    is left as it was, and in both cases the call returns only if the
    window is not empty.  RA-RNTI, PRACH slot and TC-RNTIs are untouched. *)
Theorem update_rar_window_first_dl_slot (c : cell_configuration slot_point) (w : Z)
    (rar rar' : rar_t) :
  update_rar_window c w rar = Ok rar' ->
  let after := slot_add (prach_slot_rx rar) prach_duration in
  ra_rnti rar' = ra_rnti rar /\ prach_slot_rx rar' = prach_slot_rx rar /\
  tc_rntis rar' = tc_rntis rar /\
  match nof_slots_per_tdd_period c with
  | None => rar_window rar' = {| start_ := after; stop_ := slot_add after w |}
  | Some period =>
      interval_length (rar_window rar') <> 0 /\
      ((exists k, (k < period)%nat /\
          is_dl_enabled c (slot_add after (Z.of_nat k)) = true /\
          (forall j, (j < k)%nat -> is_dl_enabled c (slot_add after (Z.of_nat j)) = false) /\
          rar_window rar' =
            {| start_ := slot_add after (Z.of_nat k);
               stop_ := slot_add (slot_add after (Z.of_nat k)) w |}) \/
       ((forall j, (j < period)%nat -> is_dl_enabled c (slot_add after (Z.of_nat j)) = false) /\
        rar_window rar' = rar_window rar))
  end.
Proof.
  intros Hr after. unfold update_rar_window in Hr.
  destruct (nof_slots_per_tdd_period c) as [period|].
  - cbv zeta in Hr. apply bind_Ok in Hr as (u & Hlen & Hr).
    apply sanity_check_Ok in Hlen. injection Hr as <-.
    apply negb_true_iff, bool_decide_eq_false in Hlen.
    destruct (list_find _ (seq 0 period)) as [[k x]|] eqn:Hfind.
    + apply list_find_Some in Hfind as (Hk & Hdl & Hmin).
      apply lookup_seq in Hk as [-> Hk]. cbn in *.
      split_and!; try done. left. exists k. split_and!; try done.
      intros j Hj. apply not_true_is_false. eapply (Hmin j j); [| done].
      apply lookup_seq. split; [done | lia].
    + apply list_find_None in Hfind. split_and!; try done. right. split; [| done].
      intros j Hj. apply not_true_is_false.
      eapply (proj1 (Forall_forall _ _) Hfind j). apply elem_of_seq. lia.
  - injection Hr as <-. done.
Qed.

(** *** Preambles that share a Msg3 context *)

Lemma handle_preamble_empty_harq rnti rar_idx (s s' : sched) (p : rach_preamble) msg3 :
  handle_preamble rnti rar_idx s p = Ok s' ->
  pending_msg3s s !! msg3_index s (tc_rnti p) = Some msg3 ->
  harq_empty (harq msg3) = true ->
  cfg s' = cfg s /\
  (exists rar_req, pending_rars s !! rar_idx = Some rar_req /\
     pending_rars s' =
       <[rar_idx := set_tc_rntis (tc_rntis rar_req ++ [tc_rnti p]) rar_req]> (pending_rars s)) /\
  pending_msg3s s' =
    <[msg3_index s (tc_rnti p) := {| preamble := p; harq := harq msg3 |}]> (pending_msg3s s).
Proof.
  unfold handle_preamble. intros (m & Hm'%at_index_Ok & Hr)%bind_Ok Hm He.
  change (pending_msg3s s !! msg3_index s (tc_rnti p) = Some m) in Hm'.
  assert (m = msg3) as -> by congruence.
  rewrite He in Hr. cbn in Hr.
  apply bind_Ok in Hr as (rar_req & Hrar%at_index_Ok & Hr).
  apply bind_Ok in Hr as (rntis & [_ ->]%emplace_back_Ok & Hr).
  injection Hr as <-. cbn. split_and!; try done. by exists rar_req.
Qed.

(** X11.  The duplicate check looks at the HARQ only.  Two preambles of an
    occasion whose TC-RNTIs select the same Msg3 context (they are equal
    modulo MAX_NOF_MSG3) while the HARQ of that context is empty are both
    accepted: both TC-RNTIs are queued in the pending RAR, in order, and the
    context keeps the second preamble only. *)
Theorem colliding_preambles_overwrite (rnti : Z) (rar_idx : nat) (s s1 s2 : sched)
    (p1 p2 : rach_preamble) (msg3 : pending_msg3 harq_t) :
  pending_msg3s s !! msg3_index s (tc_rnti p1) = Some msg3 ->
  harq_empty (harq msg3) = true ->
  msg3_index s (tc_rnti p2) = msg3_index s (tc_rnti p1) ->
  handle_preamble rnti rar_idx s p1 = Ok s1 ->
  handle_preamble rnti rar_idx s1 p2 = Ok s2 ->
  (exists rar_req, pending_rars s !! rar_idx = Some rar_req /\
     pending_rars s2 =
       <[rar_idx := set_tc_rntis (tc_rntis rar_req ++ [tc_rnti p1; tc_rnti p2]) rar_req]>
         (pending_rars s)) /\
  pending_msg3s s2 =
    <[msg3_index s (tc_rnti p1) := {| preamble := p2; harq := harq msg3 |}]> (pending_msg3s s).
Proof.
  intros Hm He Hidx H1 H2.
  destruct (handle_preamble_empty_harq _ _ _ _ _ _ H1 Hm He)
    as (Hcfg1 & (rar_req & Hrar & Hrars1) & Hmsg1).
  assert (Hidx1 : msg3_index s1 (tc_rnti p2) = msg3_index s (tc_rnti p1)).
  { unfold msg3_index in *. by rewrite Hcfg1. }
  assert (Hm1 : pending_msg3s s1 !! msg3_index s1 (tc_rnti p2) =
                Some {| preamble := p1; harq := harq msg3 |}).
  { rewrite Hidx1, Hmsg1. apply list_lookup_insert_eq. by eapply lookup_lt_Some. }
  destruct (handle_preamble_empty_harq _ _ _ _ _ _ H2 Hm1 He)
    as (Hcfg2 & (rar_req1 & Hrar1 & Hrars2) & Hmsg2).
  rewrite Hrars1 in Hrar1. rewrite list_lookup_insert_eq in Hrar1 by by eapply lookup_lt_Some.
  injection Hrar1 as <-. split.
  - exists rar_req. split; [done |]. rewrite Hrars2, Hrars1. cbn.
    rewrite list_insert_insert_eq. by rewrite <- app_assoc.
  - rewrite Hmsg2, Hidx1, Hmsg1. cbn. by rewrite list_insert_insert_eq.
Qed.

(** *** CRC indications *)

(** X12.  A CRC reaches a HARQ process only through the Msg3 context of its
    RNTI.  [handle_crc] returns only for a CRC without UE index; it changes
    nothing but the log (one warning) unless the context at
    [rnti mod MAX_NOF_MSG3] stores that very TC-RNTI and its HARQ has the
    HARQ id of the CRC, and then it changes the HARQ of that context only, by
    [ack_info]; slot allocations and pending RARs are never touched. *)
Theorem handle_crc_only_acks_matching_harq (s s' : sched) (crc : ul_crc_pdu_indication) :
  handle_crc s crc = Ok s' ->
  crc_ue_index crc = None /\
  res_alloc s' = res_alloc s /\ pdcch_sch s' = pdcch_sch s /\
  pending_rars s' = pending_rars s /\
  exists msg3, pending_msg3s s !! msg3_index s (crc_rnti crc) = Some msg3 /\
    if bool_decide (tc_rnti (preamble msg3) = crc_rnti crc) then
      if bool_decide (harq_pid (harq msg3) = crc_harq_id crc) then
        pending_msg3s s' =
          <[msg3_index s (crc_rnti crc) :=
              {| preamble := preamble msg3;
                 harq := harq_ack_info (harq msg3) 0 (tb_crc_success crc) |}]>
            (pending_msg3s s) /\
        logger s' = logger s
      else
        pending_msg3s s' = pending_msg3s s /\
        logger s' = logger s ++ [warn_invalid_crc_harq (crc_rnti crc)]
    else
      pending_msg3s s' = pending_msg3s s /\
      logger s' = logger s ++ [warn_invalid_crc_rnti (crc_rnti crc)].
Proof.
  unfold handle_crc. intros (_ & Hue%sanity_check_Ok & Hr)%bind_Ok.
  apply bool_decide_eq_true in Hue.
  apply bind_Ok in Hr as (msg3 & Hm%at_index_Ok & Hr). cbn in Hm.
  destruct (bool_decide (tc_rnti (preamble msg3) = crc_rnti crc)) eqn:E1; cbn in Hr.
  - destruct (bool_decide (harq_pid (harq msg3) = crc_harq_id crc)) eqn:E2; cbn in Hr.
    + injection Hr as <-. split_and!; try done. exists msg3. rewrite E1, E2. done.
    + injection Hr as <-. split_and!; try done. exists msg3. rewrite E1, E2. done.
  - injection Hr as <-. split_and!; try done. exists msg3. rewrite E1. done.
Qed.

End ra_more.

Section ra_alloc.
Import RaScheduler.
Context {slot_point harq_t grid_t pdcch_sch_t : Type}.
Context `{!SlotPoint slot_point} `{!UlHarqProcess slot_point harq_t}.
Context `{!ResourceGrid grid_t} `{!SchedHelpers slot_point pdcch_sch_t}.
Local Abbreviation sched := (ra_scheduler slot_point harq_t grid_t pdcch_sch_t).
Local Abbreviation rar_t := (pending_rar_t slot_point).

(** *** The number of Msg3 grants of a RAR *)

Lemma unsigned_sub_le (a b : nat) : (b <= a)%nat -> (unsigned_sub a b <= a - b)%nat.
Proof.
  intros Hle. unfold unsigned_sub, u32.
  assert (0 <= Z.of_nat a - Z.of_nat b) by lia.
  pose proof (Z.mod_le (Z.of_nat a - Z.of_nat b) (2 ^ 32)). lia.
Qed.

Lemma unsigned_div_Ok (a b q : nat) :
  unsigned_div a b = Ok q -> b <> 0%nat /\ q = (a / b)%nat.
Proof. unfold unsigned_div. case_bool_decide; [done |]. by intros [= <-]. Qed.

Lemma div_le_of_le_mul (a k n : nat) : k <> 0%nat -> (a <= k * n)%nat -> (a / k <= n)%nat.
Proof.
  intros Hk Hle. by apply Nat.Div0.div_le_upper_bound.
Qed.

Lemma register_msg3_candidates_length cap puschidx k xs : forall c lc c' lc',
  for_each (register_msg3_candidates cap puschidx k) (c, lc) xs = Ok (c', lc') ->
  length c' = (length c + length xs)%nat /\ (xs <> [] -> (length c' <= cap)%nat).
Proof.
  induction xs as [| x xs IH]; intros c lc c' lc' Hloop; cbn in Hloop.
  - injection Hloop as <- <-. split; [cbn; lia | done].
  - apply bind_Ok in Hloop as ([c1 lc1] & Hreg & Hloop).
    unfold register_msg3_candidates in Hreg.
    apply bind_Ok in Hreg as (l & [Hcap ->]%emplace_back_Ok & [= <- <-]).
    apply IH in Hloop as [Hlen Hle]. rewrite length_app in Hlen. cbn in *.
    split; [lia |]. intros _. destruct xs as [| y xs]; [| by apply Hle].
    cbn in Hlen. lia.
Qed.

Section bounded.
(** The contract of [find_empty_interval_of_length]: the interval it returns
    is not longer than what was asked for. *)
Hypothesis find_empty_interval_le : forall used len start,
  (rb_length (find_empty_interval_of_length used len start) <= len)%nat.

Lemma find_msg3_candidates_length (s : sched) max_nof_allocs cands puschidx cands' :
  find_msg3_candidates s max_nof_allocs cands puschidx = Ok cands' ->
  (length cands <= max_nof_allocs)%nat ->
  (length cands <= MAX_GRANTS_PER_RAR (limits (cfg s)))%nat ->
  (length cands' <= max_nof_allocs)%nat /\
  (length cands' <= MAX_GRANTS_PER_RAR (limits (cfg s)))%nat.
Proof using find_empty_interval_le.
  unfold find_msg3_candidates. intros Hr Hmax Hcap.
  apply bind_Ok in Hr as (pusch_td & _ & Hr).
  apply bind_Ok in Hr as (msg3_delay & _ & Hr).
  apply bind_Ok in Hr as (msg3_alloc & _ & Hr).
  destruct (negb _); [by injection Hr as <- |].
  case_bool_decide; [by injection Hr as <- |].
  apply bind_Ok in Hr as (msg3_d & _ & Hr).
  apply bind_Ok in Hr as (q & [Hk ->]%unsigned_div_Ok & Hr).
  case_bool_decide; [by injection Hr as <- |].
  apply bind_Ok in Hr as ([c lc] & Hloop & [= <-]).
  apply register_msg3_candidates_length in Hloop as [Hlen Hle].
  rewrite length_seq in Hlen. cbn.
  pose proof (unsigned_sub_le max_nof_allocs (length cands) Hmax) as Hsub.
  match type of Hlen with
  | context [(rb_length (find_empty_interval_of_length ?u ?len ?st) / ?k)%nat] =>
      pose proof (div_le_of_le_mul _ k _ Hk (find_empty_interval_le u len st)) as Hq
  end.
  split; [lia |]. apply Hle. intros Hnil%(f_equal length).
  rewrite length_seq in Hnil. cbn in Hnil. lia.
Qed.

(** X13.  [schedule_rar] never allocates more Msg3 grants than the pending
    RAR has TC-RNTIs, nor more than a RAR can carry: the number it returns is
    at most [|tc_rntis|], so the check "Invalid number of RAR allocs" of
    [run_slot] holds, and at most MAX_GRANTS_PER_RAR. *)
Theorem schedule_rar_allocs_bounded (rar : rar_t) (s s' : sched) (n : nat) :
  schedule_rar rar s = Ok (n, s') ->
  (n <= length (tc_rntis rar))%nat /\ (n <= MAX_GRANTS_PER_RAR (limits (cfg s)))%nat.
Proof using find_empty_interval_le.
  unfold schedule_rar. intros Hr.
  apply bind_Ok in Hr as (rar_d & _ & Hr).
  apply bind_Ok in Hr as (pdcch_alloc & _ & Hr).
  apply bind_Ok in Hr as (pdsch_td & _ & Hr).
  apply bind_Ok in Hr as (pdsch_alloc & _ & Hr).
  destruct (_ || _); [injection Hr as <- <-; lia |].
  apply bind_Ok in Hr as (max_nof_allocs & [Hk Hmax]%unsigned_div_Ok & Hr).
  case_bool_decide; [injection Hr as <- <-; lia |].
  apply bind_Ok in Hr as (msg3_candidates & Hloop & Hr).
  assert (Hq : (max_nof_allocs <= length (tc_rntis rar))%nat).
  { rewrite Hmax. by apply div_le_of_le_mul. }
  assert (Hc : (length msg3_candidates <= max_nof_allocs)%nat /\
               (length msg3_candidates <= MAX_GRANTS_PER_RAR (limits (cfg s)))%nat).
  { revert Hloop. match goal with
    | |- for_each ?body _ _ = _ -> _ =>
        apply (for_each_invariant body
                 (fun c : list msg3_alloc_candidate =>
                    (length c <= max_nof_allocs)%nat /\
                    (length c <= MAX_GRANTS_PER_RAR (limits (cfg s)))%nat))
    end.
    - intros c puschidx c' _ [H1 H2] Hstep.
      by apply find_msg3_candidates_length in Hstep.
    - cbn. lia. }
  apply bind_Ok in Hr as ([s1|] & _ & Hr).
  - apply bind_Ok in Hr as (s2 & _ & [= <- <-]). lia.
  - injection Hr as <- <-. lia.
Qed.
End bounded.

End ra_alloc.

(** ** What a slot of the RA scheduler leaves alone *)

Lemma prefix_set_back {A} (l0 l : list A) x :
  l0 `prefix_of` l -> (length l0 < length l)%nat -> l0 `prefix_of` set_back l x.
Proof.
  intros [k ->] Hlen. unfold set_back. rewrite length_app in *.
  rewrite insert_app_r_alt by lia. by apply prefix_app_r.
Qed.

Lemma prefix_snoc {A} (l0 l : list A) x : l0 `prefix_of` l -> l0 `prefix_of` l ++ [x].
Proof. intros Hp. by apply prefix_app_r. Qed.

Lemma length_set_back {A} (l : list A) x : length (set_back l x) = length l.
Proof. unfold set_back. by rewrite length_insert. Qed.

Lemma fmap_insert_same {A B} (f : A -> B) (l : list A) i x y :
  l !! i = Some x -> f y = f x -> f <$> <[i := y]> l = f <$> l.
Proof.
  intros Hi Hf. rewrite list_fmap_insert, Hf. apply list_insert_id.
  by rewrite list_lookup_fmap, Hi.
Qed.

Lemma Forall2_trans_rel {A} (R : A -> A -> Prop) (l1 l2 l3 : list A) :
  (forall a b c, R a b -> R b c -> R a c) ->
  Forall2 R l1 l2 -> Forall2 R l2 l3 -> Forall2 R l1 l3.
Proof.
  intros HR F12. revert l3.
  induction F12; intros l3 F23; inversion F23; subst; constructor; eauto.
Qed.

Section ra_frame.
Import RaScheduler.
Context {slot_point harq_t grid_t pdcch_sch_t : Type}.
Context `{!SlotPoint slot_point} `{!UlHarqProcess slot_point harq_t}.
Context `{!ResourceGrid grid_t} `{!SchedHelpers slot_point pdcch_sch_t}.
Local Abbreviation sched := (ra_scheduler slot_point harq_t grid_t pdcch_sch_t).
Local Abbreviation rar_t := (pending_rar_t slot_point).
Local Abbreviation slot_alloc := (cell_slot_resource_allocator slot_point grid_t).

(** The list [f] of the slot at index [k] is longer in [s] than in [s0]. *)
Local Abbreviation longer f s0 s k :=
  (exists a0 a, res_alloc s0 !! k = Some a0 /\ res_alloc s !! k = Some a /\
     (length (f a0) < length (f a))%nat).

Lemma results_extended_refl (a : slot_alloc) : results_extended a a.
Proof. unfold results_extended. done. Qed.

Lemma results_extended_trans (a b c : slot_alloc) :
  results_extended a b -> results_extended b c -> results_extended a c.
Proof.
  intros (? & ? & ? & ? & ?) (? & ? & ? & ? & ?).
  unfold results_extended. split_and!; [congruence | by etrans..].
Qed.

Lemma allocation_frame_refl (s : sched) : allocation_frame s s.
Proof.
  unfold allocation_frame. split_and!; try done.
  apply Forall2_lookup. intros i. destruct (res_alloc s !! i); constructor.
  apply results_extended_refl.
Qed.

Lemma allocation_frame_trans (s1 s2 s3 : sched) :
  allocation_frame s1 s2 -> allocation_frame s2 s3 -> allocation_frame s1 s3.
Proof.
  intros (? & ? & ? & ? & ? & ? & ? & ? & F12) (? & ? & ? & ? & ? & ? & ? & ? & F23).
  unfold allocation_frame. split_and!; try congruence.
  eapply Forall2_trans_rel; [| done..]. apply results_extended_trans.
Qed.

Lemma allocation_frame_log (s0 s : sched) e :
  allocation_frame s0 s -> allocation_frame s0 (log e s).
Proof. done. Qed.

Lemma allocation_frame_set_pdcch_sch (s0 s : sched) v :
  allocation_frame s0 s -> allocation_frame s0 (set_pdcch_sch v s).
Proof. done. Qed.

Lemma allocation_frame_harq (s0 s : sched) i m m' :
  allocation_frame s0 s -> pending_msg3s s !! i = Some m -> preamble m' = preamble m ->
  allocation_frame s0 (set_pending_msg3s (<[i := m']> (pending_msg3s s)) s).
Proof.
  intros (? & ? & ? & ? & ? & ? & ? & Hp & ?) Hm Hpre.
  unfold allocation_frame. cbn. split_and!; try done.
  rewrite <- Hp. by eapply fmap_insert_same.
Qed.

Lemma allocation_frame_slot (s0 s : sched) k (a' : slot_alloc) :
  allocation_frame s0 s ->
  (forall a0, res_alloc s0 !! k = Some a0 -> results_extended a0 a') ->
  allocation_frame s0 (set_slot_alloc k a' s).
Proof.
  intros (? & ? & ? & ? & ? & ? & ? & ? & F) Ha.
  unfold allocation_frame. cbn. split_and!; try done.
  apply Forall2_lookup. intros i.
  pose proof (proj1 (Forall2_lookup _ _ _) F i) as Fi.
  destruct (decide (i = k)) as [-> | Hik].
  - inversion Fi as [a0 a Hr E0 E| E0 E].
    + rewrite list_lookup_insert_eq by (by eapply lookup_lt_Some). constructor. by apply Ha.
    + assert (Hnone : <[k := a']> (res_alloc s) !! k = None).
      { apply lookup_ge_None. rewrite length_insert. apply lookup_ge_None. done. }
      rewrite Hnone. constructor.
  - by rewrite list_lookup_insert_ne.
Qed.

Lemma allocation_frame_lookup (s0 s : sched) k (a : slot_alloc) :
  allocation_frame s0 s -> res_alloc s !! k = Some a ->
  exists a0, res_alloc s0 !! k = Some a0 /\ results_extended a0 a.
Proof.
  intros (_ & _ & _ & _ & _ & _ & _ & _ & F) Ha.
  by apply (Forall2_lookup_r _ _ _ _ _ F Ha).
Qed.

(** A slot written back with lists that extend its own. *)
Lemma allocation_frame_update (s0 s : sched) k (a a' : slot_alloc) :
  allocation_frame s0 s -> res_alloc s !! k = Some a ->
  (forall a0, res_alloc s0 !! k = Some a0 -> results_extended a0 a ->
     results_extended a0 a') ->
  allocation_frame s0 (set_slot_alloc k a' s).
Proof.
  intros Hf Ha Hext. apply allocation_frame_slot; [done |]. intros a0 Ha0.
  destruct (allocation_frame_lookup s0 s k a Hf Ha) as (a0' & Ha0' & Hr).
  apply Hext; [done |]. congruence.
Qed.

Lemma longer_update {A} (f : slot_alloc -> list A) (s0 s : sched) k j (a a' : slot_alloc) :
  longer f s0 s k -> res_alloc s !! j = Some a -> (length (f a) <= length (f a'))%nat ->
  longer f s0 (set_slot_alloc j a' s) k.
Proof.
  intros (a0 & ak & H0 & Hk & Hlen) Hj Hle. cbn.
  destruct (decide (k = j)) as [-> | Hkj].
  - exists a0, a'. rewrite list_lookup_insert_eq by (by eapply lookup_lt_Some).
    split_and!; try done. assert (ak = a) by congruence. subst. lia.
  - exists a0, ak. by rewrite list_lookup_insert_ne.
Qed.


Local Ltac solve_extended :=
  repeat match goal with
  | H : results_extended _ _ |- _ => destruct H as (? & ? & ? & ? & ?)
  end;
  unfold results_extended; cbn; split_and!;
  first [ done | congruence | by apply prefix_snoc
        | apply prefix_set_back; [done | lia]
        | apply prefix_snoc, prefix_set_back; [done | lia] ].

Lemma alloc_pdcch_common_frame k rnti ss aggr (s0 s s1 : sched) :
  allocation_frame s0 s -> alloc_pdcch_common k rnti ss aggr s = Ok (Some s1) ->
  allocation_frame s0 s1 /\ longer dl_pdcchs s0 s1 k.
Proof.
  intros Hf. unfold alloc_pdcch_common. intros (a & Ha%at_index_Ok & Hr)%bind_Ok.
  destruct (full _ _); [done |].
  destruct (alloc_cces _ _ _ _ _) as [sch'|]; [| done].
  injection Hr as <-.
  destruct (allocation_frame_lookup s0 s k a Hf Ha) as (a0 & Ha0 & Hr).
  split.
  - apply allocation_frame_set_pdcch_sch.
    eapply allocation_frame_update; [done.. |]. intros a0' _ Hr'. solve_extended.
  - exists a0. eexists. cbn. rewrite list_lookup_insert_eq by (by eapply lookup_lt_Some).
    split_and!; [done.. |]. cbn. rewrite length_app. cbn.
    destruct Hr as (_ & Hp%prefix_length & _). lia.
Qed.


Lemma alloc_ul_pdcch_common_frame k rnti ss aggr (s0 s s1 : sched) :
  allocation_frame s0 s -> alloc_ul_pdcch_common k rnti ss aggr s = Ok (Some s1) ->
  allocation_frame s0 s1 /\ longer ul_pdcchs s0 s1 k.
Proof.
  intros Hf. unfold alloc_ul_pdcch_common. intros (a & Ha%at_index_Ok & Hr)%bind_Ok.
  destruct (full _ _); [done |].
  destruct (alloc_cces _ _ _ _ _) as [sch'|]; [| done].
  injection Hr as <-.
  destruct (allocation_frame_lookup s0 s k a Hf Ha) as (a0 & Ha0 & Hr).
  split.
  - apply allocation_frame_set_pdcch_sch.
    eapply allocation_frame_update; [done.. |]. intros a0' _ Hr'. solve_extended.
  - exists a0. eexists. cbn. rewrite list_lookup_insert_eq by (by eapply lookup_lt_Some).
    split_and!; [done.. |]. cbn. rewrite length_app. cbn.
    destruct Hr as (_ & _ & Hp%prefix_length & _). lia.
Qed.

Lemma fill_msg3_grant_frame (rar : rar_t) k_rar (s0 s s' : sched) ic :
  allocation_frame s0 s -> longer rar_grants s0 s k_rar ->
  fill_msg3_grant rar k_rar s ic = Ok s' ->
  allocation_frame s0 s' /\ longer rar_grants s0 s' k_rar.
Proof.
  intros Hf Hlong. unfold fill_msg3_grant. destruct ic as [i cand].
  intros (pusch_res & _ & Hr)%bind_Ok.
  apply bind_Ok in Hr as (msg3_delay & _ & Hr).
  apply bind_Ok in Hr as (rnti & _ & Hr).
  apply bind_Ok in Hr as (msg3 & Hm%at_index_Ok & Hr).
  apply bind_Ok in Hr as (_ & _ & Hr).
  apply bind_Ok in Hr as (rar_alloc & Hra%at_index_Ok & Hr).
  apply bind_Ok in Hr as (r & _ & Hr).
  apply bind_Ok in Hr as (grants_ & _ & Hr).
  cbv zeta in Hr.
  match type of Hr with
  | context [set_slot_alloc k_rar ?a s] =>
      assert (Hfa : allocation_frame s0 (set_slot_alloc k_rar a s) /\
                    longer rar_grants s0 (set_slot_alloc k_rar a s) k_rar);
      [| set (s_a := set_slot_alloc k_rar a s) in *]
  end.
  { split.
    - eapply allocation_frame_update; [done.. |]. intros a0 Ha0 Hre.
      destruct Hlong as (a0' & a' & Ha0' & Ha' & Hlen).
      assert (a0' = a0) by congruence. assert (a' = rar_alloc) by congruence. subst.
      solve_extended.
    - eapply longer_update; [done.. |]. cbn. by rewrite length_set_back. }
  clear Hf Hlong Hra. destruct Hfa as [Hf Hlong].
  apply bind_Ok in Hr as (msg3_alloc & Hma%at_index_Ok & Hr).
  apply bind_Ok in Hr as (msg3_d & _ & Hr).
  apply bind_Ok in Hr as (puschs_ & [_ ->]%emplace_back_Ok & Hr).
  match type of Hr with
  | context [set_slot_alloc ?d ?a s_a] =>
      assert (Hfb : allocation_frame s0 (set_slot_alloc d a s_a) /\
                    longer rar_grants s0 (set_slot_alloc d a s_a) k_rar);
      [| set (s_b := set_slot_alloc d a s_a) in *]
  end.
  { split.
    - eapply allocation_frame_update; [done.. |]. intros a0 Ha0 Hre. solve_extended.
    - eapply longer_update; [done.. |]. cbn. lia. }
  clear Hf Hlong Hma. destruct Hfb as [Hf Hlong].
  destruct (harq_new_tx _ _ _ _ _) as [success h].
  apply bind_Ok in Hr as (_ & _ & [= <-]).
  split; [| done].
  exact (allocation_frame_harq s0 s_b (msg3_index s rnti) msg3
           {| preamble := preamble msg3; harq := h |} Hf Hm eq_refl).
Qed.


Lemma fill_rar_grant_frame (rar : rar_t) rar_crbs cands (s0 s s' : sched) :
  allocation_frame s0 s -> longer dl_pdcchs s0 s 0%nat ->
  fill_rar_grant rar rar_crbs cands s = Ok s' -> allocation_frame s0 s'.
Proof.
  intros Hf Hlong. unfold fill_rar_grant.
  intros (pdcch_alloc & Hpa%at_index_Ok & Hr)%bind_Ok.
  apply bind_Ok in Hr as (pdsch_td & _ & Hr).
  apply bind_Ok in Hr as (pdcch & _ & Hr).
  cbv zeta in Hr.
  match type of Hr with
  | context [set_slot_alloc 0 ?a s] =>
      assert (Hfa : allocation_frame s0 (set_slot_alloc 0 a s));
      [| set (s_a := set_slot_alloc 0 a s) in * ]
  end.
  { eapply allocation_frame_update; [done.. |]. intros a0 Ha0 Hre.
    destruct Hlong as (a0' & a' & Ha0' & Ha' & Hlen).
    assert (a0' = a0) by congruence. assert (a' = pdcch_alloc) by congruence. subst.
    solve_extended. }
  clear Hf Hlong Hpa.
  apply bind_Ok in Hr as (rar_alloc & Hra%at_index_Ok & Hr).
  apply bind_Ok in Hr as (rar_d & _ & Hr).
  apply bind_Ok in Hr as (rar_grants_ & [_ ->]%emplace_back_Ok & Hr).
  match type of Hr with
  | context [set_slot_alloc ?k ?a s_a] =>
      assert (Hfb : allocation_frame s0 (set_slot_alloc k a s_a) /\
                    longer rar_grants s0 (set_slot_alloc k a s_a) k);
      [| set (s_b := set_slot_alloc k a s_a) in * ]
  end.
  { destruct (allocation_frame_lookup s0 s_a _ rar_alloc Hfa Hra) as (a0 & Ha0 & Hre).
    split.
    - eapply allocation_frame_update; [done.. |]. intros a0' _ Hre'. solve_extended.
    - exists a0. eexists. cbn.
      rewrite list_lookup_insert_eq by (by eapply lookup_lt_Some).
      split_and!; [done.. |]. cbn. rewrite length_app. cbn.
      destruct Hre as (_ & _ & _ & Hp%prefix_length & _). lia. }
  revert Hr.
  match goal with
  | |- for_each ?body _ _ = _ -> _ =>
      intros Hr;
      apply (for_each_invariant body
               (fun s : sched => allocation_frame s0 s /\
                                 longer rar_grants s0 s (k0 pdsch_td)) _ _ _) in Hr;
      [by destruct Hr | | done]
  end.
  intros s1 ic s2 _ [Hf1 Hl1] Hstep. by eapply fill_msg3_grant_frame.
Qed.

(** [schedule_rar] extends the results and touches nothing else. *)
Lemma schedule_rar_frame (rar : rar_t) (s s' : sched) n :
  schedule_rar rar s = Ok (n, s') -> allocation_frame s s'.
Proof.
  unfold schedule_rar. intros Hr.
  apply bind_Ok in Hr as (rar_d & _ & Hr).
  apply bind_Ok in Hr as (pdcch_alloc & _ & Hr).
  apply bind_Ok in Hr as (pdsch_td & _ & Hr).
  apply bind_Ok in Hr as (pdsch_alloc & _ & Hr).
  destruct (_ || _).
  { injection Hr as <- <-. apply allocation_frame_log, allocation_frame_refl. }
  apply bind_Ok in Hr as (max_nof_allocs & _ & Hr).
  case_bool_decide.
  { injection Hr as <- <-. apply allocation_frame_log, allocation_frame_refl. }
  apply bind_Ok in Hr as (msg3_candidates & _ & Hr).
  apply bind_Ok in Hr as ([s1|] & Hpdcch & Hr).
  - apply bind_Ok in Hr as (s2 & Hfill & [= <- <-]).
    apply alloc_pdcch_common_frame with (s0 := s) in Hpdcch as [Hf Hl];
      [| apply allocation_frame_refl].
    by eapply fill_rar_grant_frame.
  - injection Hr as <- <-. apply allocation_frame_refl.
Qed.

(** [schedule_msg3_retx] extends the results and touches nothing else but
    the HARQ of the Msg3 context. *)
Lemma schedule_msg3_retx_frame i_msg3 (s s' : sched) :
  schedule_msg3_retx i_msg3 s = Ok s' -> allocation_frame s s'.
Proof.
  unfold schedule_msg3_retx. intros Hr.
  apply bind_Ok in Hr as (pdcch_alloc & _ & Hr).
  apply bind_Ok in Hr as (pusch_alloc & _ & Hr).
  apply bind_Ok in Hr as (msg3_ctx & Hm%at_index_Ok & Hr).
  destruct (_ || _).
  { injection Hr as <-. apply allocation_frame_log, allocation_frame_refl. }
  apply bind_Ok in Hr as (pusch_td & _ & Hr). cbv zeta in Hr.
  destruct (collides _ _).
  { injection Hr as <-. apply allocation_frame_refl. }
  apply bind_Ok in Hr as ([s1|] & Hpdcch & Hr).
  2: { injection Hr as <-. apply allocation_frame_log, allocation_frame_refl. }
  assert (Hm1 : pending_msg3s s1 !! i_msg3 = Some msg3_ctx).
  { unfold alloc_ul_pdcch_common in Hpdcch.
    apply bind_Ok in Hpdcch as (a & _ & Hpdcch).
    destruct (full _ _); [done |].
    destruct (alloc_cces _ _ _ _ _); [| done]. by injection Hpdcch as <-. }
  apply alloc_ul_pdcch_common_frame with (s0 := s) in Hpdcch as [Hf Hl];
    [| apply allocation_frame_refl].
  apply bind_Ok in Hr as (pusch_alloc1 & Hpa%at_index_Ok & Hr).
  match type of Hr with
  | context [set_slot_alloc 4 ?a s1] =>
      assert (Hfa : allocation_frame s (set_slot_alloc 4 a s1) /\
                    longer ul_pdcchs s (set_slot_alloc 4 a s1) 0%nat);
      [| set (s_a := set_slot_alloc 4 a s1) in * ]
  end.
  { split.
    - eapply allocation_frame_update; [done.. |]. intros a0 _ Hre. solve_extended.
    - eapply longer_update; [done.. |]. cbn. lia. }
  clear Hf Hl Hpa. destruct Hfa as [Hf Hl].
  destruct (harq_new_retx _ _ _) as [ok h].
  destruct ok; cbn [negb] in Hr.
  2: { injection Hr as <-.
       exact (allocation_frame_harq s (log warn_failed_msg3_retx s_a) i_msg3 msg3_ctx
                (set_harq (harq_reset h) msg3_ctx)
                (allocation_frame_log _ _ _ Hf) Hm1 eq_refl). }
  apply bind_Ok in Hr as (pdcch_alloc1 & Hpa%at_index_Ok & Hr).
  apply bind_Ok in Hr as (pdcch & _ & Hr).
  apply bind_Ok in Hr as (rv & _ & Hr).
  match type of Hr with
  | context [set_slot_alloc 0 ?a s_a] =>
      assert (Hfb : allocation_frame s (set_slot_alloc 0 a s_a));
      [| set (s_b := set_slot_alloc 0 a s_a) in * ]
  end.
  { eapply allocation_frame_update; [done.. |]. intros a0 Ha0 Hre.
    destruct Hl as (a0' & a' & Ha0' & Ha' & Hlen).
    assert (a0' = a0) by congruence. assert (a' = pdcch_alloc1) by congruence. subst.
    solve_extended. }
  clear Hf Hl Hpa.
  apply bind_Ok in Hr as (pusch_alloc2 & Hpa%at_index_Ok & Hr).
  apply bind_Ok in Hr as (puschs_ & [_ ->]%emplace_back_Ok & Hr).
  match type of Hr with
  | context [set_slot_alloc 4 ?a s_b] =>
      assert (Hfc : allocation_frame s (set_slot_alloc 4 a s_b));
      [| set (s_c := set_slot_alloc 4 a s_b) in * ]
  end.
  { eapply allocation_frame_update; [done.. |]. intros a0 _ Hre. solve_extended. }
  injection Hr as <-.
  match goal with
  | |- allocation_frame s (set_pending_msg3s (<[i_msg3 := ?m]> _) _) =>
      exact (allocation_frame_harq s s_c i_msg3 msg3_ctx m Hfc Hm1 eq_refl)
  end.
Qed.

End ra_frame.

Section ra_slot.
Import RaScheduler.
Context {slot_point harq_t grid_t pdcch_sch_t : Type}.
Context `{!SlotPoint slot_point} `{!UlHarqProcess slot_point harq_t}.
Context `{!ResourceGrid grid_t} `{!SchedHelpers slot_point pdcch_sch_t}.
Local Abbreviation sched := (ra_scheduler slot_point harq_t grid_t pdcch_sch_t).
Local Abbreviation rar_t := (pending_rar_t slot_point).

(** *** CRC indications and Msg3 retransmissions *)

Lemma handle_crc_frame (s s' : sched) crc :
  handle_crc s crc = Ok s' -> allocation_frame s s'.
Proof.
  unfold handle_crc. intros (_ & _ & Hr)%bind_Ok.
  apply bind_Ok in Hr as (msg3 & Hm%at_index_Ok & Hr).
  destruct (negb _).
  { injection Hr as <-. apply allocation_frame_log, allocation_frame_refl. }
  destruct (negb _).
  { injection Hr as <-. apply allocation_frame_log, allocation_frame_refl. }
  injection Hr as <-.
  eapply allocation_frame_harq; [apply allocation_frame_refl | exact Hm | done].
Qed.

Lemma maintain_msg3_harq_frame sl_rx (s s' : sched) i :
  maintain_msg3_harq sl_rx s i = Ok s' -> allocation_frame s s'.
Proof.
  unfold maintain_msg3_harq. intros (msg3 & Hm%at_index_Ok & Hr)%bind_Ok.
  destruct (negb _); [| injection Hr as <-; apply allocation_frame_refl].
  cbv zeta in Hr.
  match type of Hr with
  | context [set_pending_msg3s (<[i := ?m]> _) s] =>
      pose proof (allocation_frame_harq s s i msg3 m (allocation_frame_refl s) Hm eq_refl)
        as Hf
  end.
  destruct (harq_has_pending_retx _).
  - apply schedule_msg3_retx_frame in Hr. by eapply allocation_frame_trans.
  - by injection Hr as <-.
Qed.

Lemma handle_pending_crc_indications_impl_frame (s s' : sched) :
  handle_pending_crc_indications_impl s = Ok s' ->
  allocation_frame (set_queues (pending_rachs s) [] s) s'.
Proof.
  unfold handle_pending_crc_indications_impl. intros Hr. cbv zeta in Hr.
  apply bind_Ok in Hr as (s1 & Hcrcs & Hr).
  apply bind_Ok in Hr as (tx & _ & Hr).
  eapply allocation_frame_trans.
  - eapply (for_each_related _ allocation_frame);
      [apply allocation_frame_refl | apply allocation_frame_trans | | exact Hcrcs].
    intros s2 crc_ind s3 _ Hin.
    eapply (for_each_related _ allocation_frame);
      [apply allocation_frame_refl | apply allocation_frame_trans | | exact Hin].
    intros s4 crc s5 _. apply handle_crc_frame.
  - eapply (for_each_related _ allocation_frame);
      [apply allocation_frame_refl | apply allocation_frame_trans | | exact Hr].
    intros s2 i s3 _. apply maintain_msg3_harq_frame.
Qed.

(** *** RACH indications *)

Lemma ingress_frame_refl (s : sched) : ingress_frame s s.
Proof. unfold ingress_frame. done. Qed.

Lemma ingress_frame_trans (s1 s2 s3 : sched) :
  ingress_frame s1 s2 -> ingress_frame s2 s3 -> ingress_frame s1 s3.
Proof. unfold ingress_frame. intros ? ?. split_and!; destruct_and!; congruence. Qed.

Lemma handle_preamble_frame rnti rar_idx (s s' : sched) p :
  handle_preamble rnti rar_idx s p = Ok s' ->
  ingress_frame s s' /\ rar_keys s' = rar_keys s.
Proof.
  unfold handle_preamble. intros (msg3 & Hm%at_index_Ok & Hr)%bind_Ok.
  destruct (negb _); [by injection Hr as <- |].
  apply bind_Ok in Hr as (rar_req & Hrar%at_index_Ok & Hr).
  apply bind_Ok in Hr as (rntis & _ & Hr).
  injection Hr as <-. split.
  - unfold ingress_frame. cbn. split_and!; try done.
    by eapply fmap_insert_same.
  - unfold rar_keys. cbn. by eapply fmap_insert_same.
Qed.

Lemma update_rar_window_key (c : cell_configuration slot_point) w (rar rar' : rar_t) :
  update_rar_window c w rar = Ok rar' -> rar_key rar' = rar_key rar.
Proof.
  unfold update_rar_window. destruct (nof_slots_per_tdd_period c).
  - intros Hr. cbv zeta in Hr. apply bind_Ok in Hr as (_ & _ & [= <-]).
    by destruct (list_find _ _) as [[? ?]|].
  - by intros [= <-].
Qed.

Lemma find_pending_rar_Some rnti slot_rx (rars : list rar_t) i :
  find_pending_rar rnti slot_rx rars = Some i ->
  exists rar, rars !! i = Some rar /\ rar_key rar = (rnti, slot_rx).
Proof.
  unfold find_pending_rar.
  destruct (list_find _ rars) as [[k rar]|] eqn:E; [| done].
  intros [= <-]. apply list_find_Some in E as (Hk & [<- <-] & _). by exists rar.
Qed.

Lemma find_pending_rar_None rnti slot_rx (rars : list rar_t) :
  find_pending_rar rnti slot_rx rars = None -> (rnti, slot_rx) ∉ rar_key <$> rars.
Proof.
  unfold find_pending_rar.
  destruct (list_find _ rars) as [[k rar]|] eqn:E; [done |].
  intros _. apply list_find_None in E.
  intros (rar & Hkey & Hin)%list_elem_of_fmap.
  apply (proj1 (Forall_forall _ _) E rar Hin). unfold rar_key in Hkey. by simplify_eq.
Qed.

Lemma handle_prach_occasion_frame slot_rx (s s' : sched) occ :
  handle_prach_occasion slot_rx s occ = Ok s' ->
  let key := (get_ra_rnti slot_rx (start_symbol occ) (frequency_index occ) false, slot_rx) in
  ingress_frame s s' /\
  ((key ∈ rar_keys s /\ rar_keys s' = rar_keys s) \/
   ((key ∉ rar_keys s) /\ rar_keys s' = rar_keys s ++ [key])).
Proof.
  intros Hr key. unfold handle_prach_occasion in Hr.
  set (rnti := get_ra_rnti slot_rx (start_symbol occ) (frequency_index occ) false) in *.
  destruct (find_pending_rar rnti slot_rx (pending_rars s)) as [i|] eqn:Hfind.
  - apply find_pending_rar_Some in Hfind as (rar & Hi & Hkey).
    apply bind_Ok in Hr as (rar_req & Hrar%at_index_Ok & Hr).
    apply bind_Ok in Hr as (rar_req' & Hwin%update_rar_window_key & Hr).
    assert (rar_req = rar) by congruence. subst rar_req.
    match type of Hr with
    | for_each _ ?s1 _ = _ =>
        assert (H1 : ingress_frame s s1 /\ rar_keys s1 = rar_keys s)
    end.
    { split; [done |]. unfold rar_keys. cbn. by eapply fmap_insert_same. }
    match type of Hr with
    | for_each ?body ?s1 _ = _ =>
        apply (for_each_invariant body
                 (fun s2 : sched => ingress_frame s s2 /\ rar_keys s2 = rar_keys s)) in Hr;
        [| | done]
    end.
    + destruct Hr as [Hf Hk]. split; [done |]. left. split; [| done].
      unfold rar_keys. apply list_elem_of_fmap. exists rar. split; [done |].
      by eapply list_elem_of_lookup_2.
    + intros s2 p s3 _ [Hf Hk] [Hf' Hk']%handle_preamble_frame.
      split; [by eapply ingress_frame_trans | congruence].
  - apply find_pending_rar_None in Hfind.
    apply bind_Ok in Hr as (rar_req & Hrar%at_index_Ok & Hr). cbn in Hrar.
    rewrite lookup_app_r in Hrar by done. rewrite Nat.sub_diag in Hrar.
    injection Hrar as <-.
    apply bind_Ok in Hr as (rar_req' & Hwin%update_rar_window_key & Hr).
    match type of Hr with
    | for_each _ ?s1 _ = _ =>
        assert (H1 : ingress_frame s s1 /\ rar_keys s1 = rar_keys s ++ [key])
    end.
    { split; [done |]. unfold rar_keys. cbn.
      rewrite insert_app_r_alt by done. rewrite Nat.sub_diag. cbn.
      rewrite fmap_app. cbn. by rewrite Hwin. }
    match type of Hr with
    | for_each ?body ?s1 _ = _ =>
        apply (for_each_invariant body
                 (fun s2 : sched => ingress_frame s s2 /\
                                    rar_keys s2 = rar_keys s ++ [key])) in Hr;
        [| | done]
    end.
    + destruct Hr as [Hf Hk]. split; [done |]. by right.
    + intros s2 p s3 _ [Hf Hk] [Hf' Hk']%handle_preamble_frame.
      split; [by eapply ingress_frame_trans | congruence].
Qed.

Lemma handle_rach_indication_impl_frame (s s' : sched) msg :
  handle_rach_indication_impl s msg = Ok s' ->
  ingress_frame s s' /\
  (NoDup (rar_keys s) -> NoDup (rar_keys s')) /\
  rar_keys s `prefix_of` rar_keys s' /\
  (forall occ, occ ∈ occasions msg ->
     (get_ra_rnti (rach_slot_rx msg) (start_symbol occ) (frequency_index occ) false,
      rach_slot_rx msg) ∈ rar_keys s').
Proof.
  unfold handle_rach_indication_impl. generalize (occasions msg) as occs.
  intros occs. revert s. induction occs as [| occ occs IH]; intros s Hr; cbn in Hr.
  - injection Hr as <-. split; [apply ingress_frame_refl |].
    split; [done |]. split; [done |].
    intros occ Hin. by apply elem_of_nil in Hin.
  - apply bind_Ok in Hr as (s1 & Hocc & Hr).
    pose proof (handle_prach_occasion_frame _ _ _ _ Hocc) as Hocc'. cbv zeta in Hocc'.
    destruct Hocc' as [Hf1 Hk1].
    apply IH in Hr as (Hf & Hnd & Hpre & Hin).
    assert (Hpre1 : rar_keys s `prefix_of` rar_keys s1).
    { destruct Hk1 as [[_ ->] | [_ ->]]; [done | by apply prefix_app_r]. }
    split_and!.
    + by eapply ingress_frame_trans.
    + intros Hs. apply Hnd. destruct Hk1 as [[_ ->] | [Hni ->]]; [done |].
      apply NoDup_app. split_and!; [done | | apply NoDup_singleton].
      intros k Hk ->%list_elem_of_singleton. done.
    + by etrans.
    + intros occ' [-> | Hocc']%elem_of_cons; [| by apply Hin].
      eapply elem_of_prefix; [| exact Hpre].
      destruct Hk1 as [[Hk ->] | [_ ->]]; [done |].
      apply elem_of_app. right. by apply list_elem_of_singleton.
Qed.


(** *** The loop over the pending RARs *)

Lemma remove_allocated_msg3s_key n (rar rar' : rar_t) m :
  remove_allocated_msg3s n rar m = Ok rar' -> rar_key rar' = rar_key rar.
Proof.
  unfold remove_allocated_msg3s. case_bool_decide; [done |]. by intros [= <-].
Qed.

Lemma schedule_pending_rars_frame pdcch_slot (rars : list rar_t) :
  forall (s : sched) rars' s' calls,
    schedule_pending_rars pdcch_slot rars s = Ok (rars', s', calls) ->
    allocation_frame s s' /\ (rar_key <$> rars') `sublist_of` (rar_key <$> rars).
Proof.
  induction rars as [| rar rest IH]; intros s rars' s' calls Hloop; cbn in Hloop.
  { injection Hloop as <- <- <-. split; [apply allocation_frame_refl | done]. }
  destruct (contains (rar_window rar) pdcch_slot); cbn in Hloop.
  - apply bind_Ok in Hloop as ([n s1] & Hrar%schedule_rar_frame & Hloop). cbn in Hloop.
    apply bind_Ok in Hloop as (_ & _ & Hloop).
    case_bool_decide; [case_bool_decide |].
    + apply bind_Ok in Hloop as ([[rest' s2] calls'] & [Hf Hsub]%IH & [= <- <- <-]).
      split; [by eapply allocation_frame_trans | by apply sublist_cons].
    + apply bind_Ok in Hloop as (rar' & Hkey%remove_allocated_msg3s_key & [= <- <- <-]).
      split; [done |]. cbn. by rewrite Hkey.
    + apply bind_Ok in Hloop as ([[rest' s2] calls'] & [Hf Hsub]%IH & [= <- <- <-]).
      split; [by eapply allocation_frame_trans | by apply sublist_skip].
  - destruct (slot_ge pdcch_slot (stop_ (rar_window rar))).
    + apply IH in Hloop as [Hf Hsub]. split; [| by apply sublist_cons].
      eapply allocation_frame_trans; [| done].
      apply allocation_frame_log, allocation_frame_refl.
    + injection Hloop as <- <- <-. split; [apply allocation_frame_refl | done].
Qed.

(** *** A whole slot *)

Lemma run_slot_frame (s s' : sched) e :
  run_slot s = Ok (e, s') ->
  cfg s' = cfg s /\ initial_active_dl_bwp s' = initial_active_dl_bwp s /\
  rar_data s' = rar_data s /\ msg3_data s' = msg3_data s /\
  pending_rachs s' = [] /\ pending_crcs s' = [] /\
  length (pending_msg3s s') = length (pending_msg3s s) /\
  Forall2 results_extended (res_alloc s) (res_alloc s') /\
  (NoDup (rar_keys s) -> NoDup (rar_keys s')).
Proof.
  unfold run_slot. intros Hr.
  apply bind_Ok in Hr as (pdcch_slot & _ & Hr).
  apply bind_Ok in Hr as (pdsch_td & _ & Hr). cbv zeta in Hr.
  apply bind_Ok in Hr as (s1 & Hcrc%handle_pending_crc_indications_impl_frame & Hr).
  apply bind_Ok in Hr as (s2 & Hrach & Hr).
  destruct Hcrc as (C1 & C2 & C3 & C4 & C5 & C6 & C7 & C8 & C9). cbn in *.
  assert (Hin : ingress_frame (set_queues [] (pending_crcs s1) s1) s2 /\
                (NoDup (rar_keys s1) -> NoDup (rar_keys s2))).
  { revert Hrach.
    match goal with
    | |- for_each ?body ?s0 _ = _ -> _ =>
        apply (for_each_invariant body
                 (fun s3 : sched => ingress_frame s0 s3 /\
                                    (NoDup (rar_keys s1) -> NoDup (rar_keys s3))))
    end.
    - intros s3 msg s4 _ [Hf Hnd] (Hf' & Hnd' & _)%handle_rach_indication_impl_frame.
      split; [by eapply ingress_frame_trans | auto].
    - split; [apply ingress_frame_refl | done]. }
  destruct Hin as [(I1 & I2 & I3 & I4 & I5 & I6 & I7 & I8 & I9) Hnd]. cbn in *.
  assert (Hlen2 : length (pending_msg3s s2) = length (pending_msg3s s)).
  { rewrite <- (length_fmap harq (pending_msg3s s2)), I9, length_fmap.
    rewrite <- (length_fmap preamble (pending_msg3s s1)), C8, length_fmap. done. }
  assert (Hkeys1 : rar_keys s1 = rar_keys s) by (unfold rar_keys; by rewrite C7).
  assert (Hearly : cfg s2 = cfg s /\ initial_active_dl_bwp s2 = initial_active_dl_bwp s /\
            rar_data s2 = rar_data s /\ msg3_data s2 = msg3_data s /\
            pending_rachs s2 = [] /\ pending_crcs s2 = [] /\
            length (pending_msg3s s2) = length (pending_msg3s s) /\
            Forall2 results_extended (res_alloc s) (res_alloc s2) /\
            (NoDup (rar_keys s) -> NoDup (rar_keys s2))).
  { split_and!; try congruence. intros Hs. apply Hnd. by rewrite Hkeys1. }
  destruct (_ || _); [by injection Hr as <- <- |].
  destruct (negb _); [by injection Hr as <- <- |].
  apply bind_Ok in Hr as (available & _ & Hr).
  destruct (negb _); [by injection Hr as <- <- |].
  apply bind_Ok in Hr as ([[rars s3] calls] & Hloop & [= <- <-]).
  apply schedule_pending_rars_frame in Hloop
    as [(A1 & A2 & A3 & A4 & A5 & A6 & A7 & A8 & A9) Hsub].
  destruct Hearly as (E1 & E2 & E3 & E4 & E5 & E6 & E7 & E8 & E9). cbn.
  split_and!; try congruence.
  - rewrite <- (length_fmap preamble (pending_msg3s s3)), A8, length_fmap. done.
  - eapply Forall2_trans_rel; [apply results_extended_trans | done..].
  - intros Hs. unfold rar_keys. cbn. eapply sublist_NoDup; [| exact Hsub]. by apply E9.
Qed.


(** X16.  [run_slot] only adds to the results.  For every slot of the cell
    resource allocator the slot point is unchanged and each of the lists
    [dl_pdcchs], [ul_pdcchs], [rar_grants] and [puschs] it had when [run_slot]
    was called is the front of the list it has afterwards: no entry that was
    there, from this or another scheduler, is removed or rewritten. *)
Theorem run_slot_results_only_grow (s s' : sched) (e : run_slot_exit) :
  run_slot s = Ok (e, s') -> Forall2 results_extended (res_alloc s) (res_alloc s').
Proof. intros Hr. apply run_slot_frame in Hr. by destruct_and!. Qed.

(** X17.  [run_slot] consumes the buffered events, also when it leaves
    through an early exit: both queues are empty afterwards.  The cell
    configuration and the cached RAR and Msg3 sizes are untouched and the
    table of Msg3 contexts keeps its size. *)
Theorem run_slot_consumes_events (s s' : sched) (e : run_slot_exit) :
  run_slot s = Ok (e, s') ->
  pending_rachs s' = [] /\ pending_crcs s' = [] /\
  cfg s' = cfg s /\ initial_active_dl_bwp s' = initial_active_dl_bwp s /\
  rar_data s' = rar_data s /\ msg3_data s' = msg3_data s /\
  length (pending_msg3s s') = length (pending_msg3s s).
Proof. intros Hr. apply run_slot_frame in Hr. by destruct_and!. Qed.

(** X18.  The pending RARs stay distinct: if no two pending RARs have the same
    RA-RNTI and PRACH slot when [run_slot] is called, no two have afterwards,
    whatever RACH indications were buffered. *)
Theorem run_slot_keeps_rars_distinct (s s' : sched) (e : run_slot_exit) :
  NoDup (rar_keys s) -> run_slot s = Ok (e, s') -> NoDup (rar_keys s').
Proof. intros Hnd Hr. apply run_slot_frame in Hr. destruct_and!. auto. Qed.

(** X10.  One pending RAR per PRACH occasion.  After
    [handle_rach_indication_impl] every occasion of the indication has a
    pending RAR with its RA-RNTI and the slot of the indication; occasions
    with the same RA-RNTI share it (the keys stay distinct), and the RARs that
    were pending keep their place at the front of the list.  Slot
    allocations and HARQ processes are not touched. *)
Theorem rach_occasions_get_one_rar (s s' : sched) (msg : rach_indication_message slot_point) :
  handle_rach_indication_impl s msg = Ok s' ->
  (NoDup (rar_keys s) -> NoDup (rar_keys s')) /\
  rar_keys s `prefix_of` rar_keys s' /\
  (forall occ, occ ∈ occasions msg ->
     (get_ra_rnti (rach_slot_rx msg) (start_symbol occ) (frequency_index occ) false,
      rach_slot_rx msg) ∈ rar_keys s') /\
  res_alloc s' = res_alloc s /\
  harq <$> pending_msg3s s' = harq <$> pending_msg3s s.
Proof.
  intros (Hf & Hnd & Hpre & Hin)%handle_rach_indication_impl_frame.
  destruct Hf as (_ & _ & _ & _ & _ & _ & Hres & _ & Hharq). done.
Qed.

End ra_slot.

Lemma sum_list_insert (l : list nat) k x y :
  l !! k = Some x -> (sum_list (<[k := y]> l) + x = sum_list l + y)%nat.
Proof.
  revert k. induction l as [| z l IH]; intros k Hk; [done |].
  destruct k as [| k]; simpl in *.
  - injection Hk as ->. lia.
  - specialize (IH k Hk). lia.
Qed.

Lemma last_set_back {A} (l : list A) x : l <> [] -> last (set_back l x) = Some x.
Proof.
  intros Hl. destruct (exists_last Hl) as (l' & y & ->). unfold set_back.
  rewrite length_app. cbn. rewrite insert_app_r_alt by lia.
  replace (Init.Nat.pred (length l' + 1) - length l')%nat with 0%nat by lia.
  cbn. by rewrite last_snoc.
Qed.

Lemma back_Ok {A} (l : list A) x : back l = Ok x <-> last l = Some x.
Proof. unfold back. destruct (last l); split; congruence. Qed.

Section ra_counts.
Import RaScheduler.
Context {slot_point harq_t grid_t pdcch_sch_t : Type}.
Context `{!SlotPoint slot_point} `{!UlHarqProcess slot_point harq_t}.
Context `{!ResourceGrid grid_t} `{!SchedHelpers slot_point pdcch_sch_t}.
Local Abbreviation sched := (ra_scheduler slot_point harq_t grid_t pdcch_sch_t).
Local Abbreviation rar_t := (pending_rar_t slot_point).
Local Abbreviation slot_alloc := (cell_slot_resource_allocator slot_point grid_t).

Lemma nof_results_update {A} (f : slot_alloc -> list A) (s : sched) k a a' :
  res_alloc s !! k = Some a ->
  (nof_results f (set_slot_alloc k a' s) + length (f a) =
   nof_results f s + length (f a'))%nat.
Proof.
  intros Ha. unfold nof_results. cbn. rewrite list_fmap_insert.
  apply sum_list_insert. by rewrite list_lookup_fmap, Ha.
Qed.

Lemma nof_results_same {A} (f : slot_alloc -> list A) (s : sched) k a a' :
  res_alloc s !! k = Some a -> length (f a') = length (f a) ->
  nof_results f (set_slot_alloc k a' s) = nof_results f s.
Proof. intros Ha Hlen. pose proof (nof_results_update f s k a a' Ha). lia. Qed.

Lemma nof_results_succ {A} (f : slot_alloc -> list A) (s : sched) k a a' :
  res_alloc s !! k = Some a -> length (f a') = S (length (f a)) ->
  nof_results f (set_slot_alloc k a' s) = S (nof_results f s).
Proof. intros Ha Hlen. pose proof (nof_results_update f s k a a' Ha). lia. Qed.

Local Abbreviation grown := results_grown.
Local Abbreviation last_rar := last_rar_of.

Lemma fill_msg3_grant_counts (rar : rar_t) k_rar (s s' : sched) ic rnti n :
  last_rar s k_rar rnti n ->
  fill_msg3_grant rar k_rar s ic = Ok s' ->
  grown s s' 0%nat 0%nat 0%nat 1%nat /\ last_rar s' k_rar rnti (S n).
Proof.
  intros (a & r & Ha & Hlast & Hrnti & Hn). unfold fill_msg3_grant. destruct ic as [i cand].
  intros (pusch_res & _ & Hr)%bind_Ok.
  apply bind_Ok in Hr as (msg3_delay & _ & Hr).
  apply bind_Ok in Hr as (c_rnti & _ & Hr).
  apply bind_Ok in Hr as (msg3 & _ & Hr).
  apply bind_Ok in Hr as (_ & _ & Hr).
  apply bind_Ok in Hr as (rar_alloc & Hra%at_index_Ok & Hr).
  apply bind_Ok in Hr as (r0 & Hr0%back_Ok & Hr).
  apply bind_Ok in Hr as (grants_ & [_ ->]%emplace_back_Ok & Hr).
  assert (rar_alloc = a) by congruence. subst rar_alloc.
  assert (r0 = r) by congruence. subst r0.
  cbv zeta in Hr.
  match type of Hr with
  | context [set_slot_alloc k_rar ?x s] => set (a1 := x) in *; set (s_a := set_slot_alloc k_rar a1 s) in *
  end.
  assert (Hne : rar_grants a <> []) by (intros E; by rewrite E in Hlast).
  assert (Ha1 : res_alloc s_a !! k_rar = Some a1).
  { cbn. apply list_lookup_insert_eq. by eapply lookup_lt_Some. }
  assert (Hga : grown s s_a 0%nat 0%nat 0%nat 0%nat).
  { unfold results_grown, s_a. rewrite !(nof_results_same _ s k_rar a a1 Ha);
      [lia | subst a1; cbn; by rewrite ?length_set_back ..]. }
  apply bind_Ok in Hr as (msg3_alloc & Hma%at_index_Ok & Hr).
  apply bind_Ok in Hr as (msg3_d & _ & Hr).
  apply bind_Ok in Hr as (puschs_ & [_ ->]%emplace_back_Ok & Hr).
  match type of Hr with
  | context [set_slot_alloc ?d ?x s_a] => set (a2 := x) in *; set (s_b := set_slot_alloc d a2 s_a) in *
  end.
  assert (Hgb : grown s_a s_b 0%nat 0%nat 0%nat 1%nat).
  { unfold results_grown, s_b.
    rewrite (nof_results_same dl_pdcchs s_a _ msg3_alloc a2 Hma) by done.
    rewrite (nof_results_same ul_pdcchs s_a _ msg3_alloc a2 Hma) by done.
    rewrite (nof_results_same rar_grants s_a _ msg3_alloc a2 Hma) by done.
    rewrite (nof_results_succ _ s_a _ msg3_alloc a2 Hma);
      [lia | subst a2; cbn; rewrite length_app; cbn; lia]. }
  assert (Hlb : last_rar s_b k_rar rnti (S n)).
  { destruct (decide (Z.to_nat msg3_delay = k_rar)) as [Hd | Hd].
    - exists a2. eexists. split_and!.
      + cbn. rewrite Hd. apply list_lookup_insert_eq. rewrite length_insert.
        by eapply lookup_lt_Some.
      + cbn. rewrite Hd in Hma. assert (msg3_alloc = a1) by congruence. subst msg3_alloc.
        cbn. by apply last_set_back.
      + done.
      + cbn. rewrite length_app. cbn. lia.
    - exists a1. eexists. split_and!.
      + cbn. rewrite list_lookup_insert_ne by done.
        apply list_lookup_insert_eq. by eapply lookup_lt_Some.
      + cbn. by apply last_set_back.
      + done.
      + cbn. rewrite length_app. cbn. lia. }
  destruct (harq_new_tx _ _ _ _ _) as [success h].
  apply bind_Ok in Hr as (_ & _ & [= <-]).
  split; [| exact Hlb].
  assert (Hfin : forall A (f : slot_alloc -> list A) v,
            nof_results f (set_pending_msg3s v s_b) = nof_results f s_b) by done.
  unfold results_grown in *. rewrite !Hfin. lia.
Qed.


Lemma results_grown_refl (s : sched) : results_grown s s 0 0 0 0.
Proof. unfold results_grown. lia. Qed.

Lemma results_grown_trans (s1 s2 s3 : sched) d1 u1 r1 p1 d2 u2 r2 p2 :
  results_grown s1 s2 d1 u1 r1 p1 -> results_grown s2 s3 d2 u2 r2 p2 ->
  results_grown s1 s3 (d1 + d2) (u1 + u2) (r1 + r2) (p1 + p2).
Proof. unfold results_grown. lia. Qed.

Lemma fill_msg3_grants_counts (rar : rar_t) k_rar ics : forall (s s' : sched) rnti n,
  last_rar s k_rar rnti n ->
  for_each (fill_msg3_grant rar k_rar) s ics = Ok s' ->
  grown s s' 0%nat 0%nat 0%nat (length ics) /\ last_rar s' k_rar rnti (n + length ics)%nat.
Proof.
  induction ics as [| ic ics IH]; intros s s' rnti n Hlast Hloop; cbn in Hloop.
  - injection Hloop as <-. split; [apply results_grown_refl |].
    cbn. by rewrite Nat.add_0_r.
  - apply bind_Ok in Hloop as (s1 & Hstep & Hloop).
    destruct (fill_msg3_grant_counts _ _ _ _ _ _ _ Hlast Hstep) as [Hg1 Hl1].
    destruct (IH _ _ _ _ Hl1 Hloop) as [Hg Hl]. split.
    + apply (results_grown_trans _ _ _ _ _ _ _ _ _ _ _ Hg1 Hg).
    + cbn. by replace (n + S (length ics))%nat with (S n + length ics)%nat by lia.
Qed.

Lemma fill_rar_grant_counts (rar : rar_t) rar_crbs cands (s s' : sched) rnti pdsch_td :
  (exists a p, res_alloc s !! 0%nat = Some a /\ last (dl_pdcchs a) = Some p /\
     dl_ctx_rnti p = rnti) ->
  pdsch_td_alloc_list (cfg s) !! 0%nat = Some pdsch_td ->
  fill_rar_grant rar rar_crbs cands s = Ok s' ->
  grown s s' 0%nat 0%nat 1%nat (length cands) /\ last_rar s' (k0 pdsch_td) rnti (length cands).
Proof.
  intros (a & p & Ha & Hlast & Hrnti) Htd. unfold fill_rar_grant.
  intros (pdcch_alloc & Hpa%at_index_Ok & Hr)%bind_Ok.
  apply bind_Ok in Hr as (pdsch_td' & Htd'%at_index_Ok & Hr).
  apply bind_Ok in Hr as (pdcch & Hp%back_Ok & Hr).
  assert (pdcch_alloc = a) by congruence. subst pdcch_alloc.
  assert (pdsch_td' = pdsch_td) by congruence. subst pdsch_td'.
  assert (pdcch = p) by congruence. subst pdcch.
  cbv zeta in Hr.
  match type of Hr with
  | context [set_slot_alloc 0 ?x s] =>
      set (a1 := x) in *; set (s_a := set_slot_alloc 0 a1 s) in *
  end.
  assert (Hga : grown s s_a 0%nat 0%nat 0%nat 0%nat).
  { unfold results_grown, s_a. rewrite !(nof_results_same _ s 0%nat a a1 Ha);
      [lia | subst a1; cbn; by rewrite ?length_set_back ..]. }
  apply bind_Ok in Hr as (rar_alloc & Hra%at_index_Ok & Hr).
  apply bind_Ok in Hr as (rar_d & _ & Hr).
  apply bind_Ok in Hr as (rar_grants_ & [_ ->]%emplace_back_Ok & Hr).
  match type of Hr with
  | context [set_slot_alloc ?k ?x s_a] =>
      set (a2 := x) in *; set (s_b := set_slot_alloc k a2 s_a) in *
  end.
  assert (Hgb : grown s_a s_b 0%nat 0%nat 1%nat 0%nat).
  { unfold results_grown, s_b.
    rewrite (nof_results_same dl_pdcchs s_a _ rar_alloc a2 Hra) by done.
    rewrite (nof_results_same ul_pdcchs s_a _ rar_alloc a2 Hra) by done.
    rewrite (nof_results_same puschs s_a _ rar_alloc a2 Hra) by done.
    rewrite (nof_results_succ _ s_a _ rar_alloc a2 Hra);
      [lia | subst a2; cbn; rewrite length_app; cbn; lia]. }
  assert (Hlb : last_rar s_b (k0 pdsch_td) rnti 0%nat).
  { exists a2. eexists. split_and!.
    - cbn. apply list_lookup_insert_eq. rewrite length_insert.
      apply lookup_lt_Some in Hra.
      change (res_alloc s_a) with (<[0%nat := a1]> (res_alloc s)) in Hra.
      by rewrite length_insert in Hra.
    - cbn. apply last_snoc.
    - done.
    - done. }
  destruct (fill_msg3_grants_counts _ _ _ _ _ _ _ Hlb Hr) as [Hg Hl].
  rewrite length_imap in Hg, Hl. split; [| exact Hl].
  unfold results_grown in *. lia.
Qed.

Lemma alloc_pdcch_common_counts rnti ss aggr (s s1 : sched) :
  alloc_pdcch_common 0 rnti ss aggr s = Ok (Some s1) ->
  grown s s1 1%nat 0%nat 0%nat 0%nat /\ cfg s1 = cfg s /\
  exists a p, res_alloc s1 !! 0%nat = Some a /\ last (dl_pdcchs a) = Some p /\
    dl_ctx_rnti p = rnti.
Proof.
  unfold alloc_pdcch_common. intros (a & Ha%at_index_Ok & Hr)%bind_Ok.
  destruct (full _ _); [done |].
  destruct (alloc_cces _ _ _ _ _) as [sch'|]; [| done].
  injection Hr as <-.
  match goal with
  | |- context [set_slot_alloc 0 ?x s] => set (a1 := x) in *
  end.
  split_and!.
  - assert (Hfin : forall A (f : slot_alloc -> list A) v (s2 : sched),
              nof_results f (set_pdcch_sch v s2) = nof_results f s2) by done.
    unfold results_grown. rewrite !Hfin.
    rewrite (nof_results_same ul_pdcchs s 0%nat a a1 Ha) by done.
    rewrite (nof_results_same rar_grants s 0%nat a a1 Ha) by done.
    rewrite (nof_results_same puschs s 0%nat a a1 Ha) by done.
    rewrite (nof_results_succ _ s 0%nat a a1 Ha);
      [lia | subst a1; cbn; rewrite length_app; cbn; lia].
  - done.
  - exists a1. eexists. split_and!.
    + cbn. apply list_lookup_insert_eq. by eapply lookup_lt_Some.
    + cbn. apply last_snoc.
    + done.
Qed.

(** X14.  What [schedule_rar] commits.  Either it returns 0 and the slot
    allocations, the PDCCH allocator, the Msg3 contexts and the pending RARs
    are as before; or the results have gained exactly one DL PDCCH, one RAR and
    as many PUSCHs as the number [n] it returns, no UL PDCCH, and the RAR, the
    last of its slot, has the RA-RNTI of the pending RAR and [n] Msg3 grants:
    one PUSCH per grant. *)
Theorem schedule_rar_commit_shape (rar : rar_t) (s s' : sched) (n : nat) :
  schedule_rar rar s = Ok (n, s') ->
  (n = 0%nat /\ nothing_committed s s') \/
  (results_grown s s' 1 0 1 n /\
   exists pdsch_td, pdsch_td_alloc_list (cfg s) !! 0%nat = Some pdsch_td /\
     last_rar_of s' (k0 pdsch_td) (ra_rnti rar) n).
Proof.
  unfold schedule_rar. intros Hr.
  apply bind_Ok in Hr as (rar_d & _ & Hr).
  apply bind_Ok in Hr as (pdcch_alloc & _ & Hr).
  apply bind_Ok in Hr as (pdsch_td & Htd%at_index_Ok & Hr).
  apply bind_Ok in Hr as (pdsch_alloc & _ & Hr).
  destruct (_ || _).
  { injection Hr as <- <-. left. split; [done | apply nothing_committed_log]. }
  apply bind_Ok in Hr as (max_nof_allocs & _ & Hr).
  case_bool_decide.
  { injection Hr as <- <-. left. split; [done | apply nothing_committed_log]. }
  apply bind_Ok in Hr as (msg3_candidates & _ & Hr).
  apply bind_Ok in Hr as ([s1|] & Hpdcch & Hr).
  - apply bind_Ok in Hr as (s2 & Hfill & [= <- <-]). right.
    apply alloc_pdcch_common_counts in Hpdcch as (Hg1 & Hcfg & Hlast).
    rewrite <- Hcfg in Htd.
    destruct (fill_rar_grant_counts _ _ _ _ _ _ _ Hlast Htd Hfill) as [Hg2 Hl].
    split.
    + apply (results_grown_trans _ _ _ _ _ _ _ _ _ _ _ Hg1 Hg2).
    + exists pdsch_td. split; [by rewrite <- Hcfg | done].
  - injection Hr as <- <-. left. split; [done | apply nothing_committed_refl].
Qed.


Lemma crb_to_prb_to_crb (bwp : bwp_configuration) (prbs : rb_interval) :
  crb_to_prb bwp (prb_to_crb bwp prbs) = prbs.
Proof.
  destruct prbs as [a b]. unfold crb_to_prb, prb_to_crb. cbn. f_equal; lia.
Qed.

Lemma alloc_ul_pdcch_common_counts rnti ss aggr (s s1 : sched) :
  alloc_ul_pdcch_common 0 rnti ss aggr s = Ok (Some s1) ->
  grown s s1 0%nat 1%nat 0%nat 0%nat /\ cfg s1 = cfg s /\
  pending_msg3s s1 = pending_msg3s s /\ logger s1 = logger s /\
  exists a p, res_alloc s1 !! 0%nat = Some a /\ last (ul_pdcchs a) = Some p /\
    ul_ctx_rnti p = rnti.
Proof.
  unfold alloc_ul_pdcch_common. intros (a & Ha%at_index_Ok & Hr)%bind_Ok.
  destruct (full _ _); [done |].
  destruct (alloc_cces _ _ _ _ _) as [sch'|]; [| done].
  injection Hr as <-.
  match goal with
  | |- context [set_slot_alloc 0 ?x s] => set (a1 := x) in *
  end.
  split_and!; try done.
  - assert (Hfin : forall A (f : slot_alloc -> list A) v (s2 : sched),
              nof_results f (set_pdcch_sch v s2) = nof_results f s2) by done.
    unfold results_grown. rewrite !Hfin.
    rewrite (nof_results_same dl_pdcchs s 0%nat a a1 Ha) by done.
    rewrite (nof_results_same rar_grants s 0%nat a a1 Ha) by done.
    rewrite (nof_results_same puschs s 0%nat a a1 Ha) by done.
    rewrite (nof_results_succ _ s 0%nat a a1 Ha);
      [lia | subst a1; cbn; rewrite length_app; cbn; lia].
  - exists a1. eexists. split_and!.
    + cbn. apply list_lookup_insert_eq. by eapply lookup_lt_Some.
    + cbn. apply last_snoc.
    + done.
Qed.

(** X15.  What [schedule_msg3_retx] commits for the Msg3 context [msg3].
    Either nothing; or, when [harq.new_retx] refuses, one UL PDCCH and no
    PUSCH; or one UL PDCCH and one PUSCH that belong together: both carry the
    TC-RNTI of the context, the DCI is of format 0_0 for TC-RNTI, the PUSCH is
    a retransmission ([new_data] false) on the PRBs of the HARQ process, and
    its redundancy version is the one of the DCI, an entry of {0, 2, 3, 1}. *)
Theorem schedule_msg3_retx_commit_shape (i_msg3 : nat) (s s' : sched)
    (msg3 : pending_msg3 harq_t) :
  pending_msg3s s !! i_msg3 = Some msg3 ->
  schedule_msg3_retx i_msg3 s = Ok s' ->
  nothing_committed s s' \/
  (results_grown s s' 0 1 0 0 /\ logger s' = logger s ++ [warn_failed_msg3_retx]) \/
  (results_grown s s' 0 1 0 1 /\
   exists a0 pdcch dci a4 pusch,
     res_alloc s' !! 0%nat = Some a0 /\ last (ul_pdcchs a0) = Some pdcch /\
     ul_ctx_rnti pdcch = tc_rnti (preamble msg3) /\
     ul_dci_type pdcch = tc_rnti_f0_0 /\ ul_dci pdcch = Some dci /\
     res_alloc s' !! 4%nat = Some a4 /\ last (puschs a4) = Some pusch /\
     pusch_rnti pusch = tc_rnti (preamble msg3) /\
     pusch_new_data pusch = false /\
     pusch_prbs pusch = harq_prbs (harq msg3) /\
     pusch_rv_index pusch = redundancy_version dci /\
     redundancy_version dci ∈ rv_idx).
Proof.
  intros Hm. unfold schedule_msg3_retx. intros Hr.
  apply bind_Ok in Hr as (pdcch_alloc & _ & Hr).
  apply bind_Ok in Hr as (pusch_alloc & _ & Hr).
  apply bind_Ok in Hr as (msg3_ctx & Hm'%at_index_Ok & Hr).
  assert (msg3_ctx = msg3) by congruence. subst msg3_ctx.
  destruct (_ || _).
  { injection Hr as <-. left. apply nothing_committed_log. }
  apply bind_Ok in Hr as (pusch_td & _ & Hr). cbv zeta in Hr.
  destruct (collides _ _).
  { injection Hr as <-. left. apply nothing_committed_refl. }
  apply bind_Ok in Hr as ([s1|] & Hpdcch & Hr).
  2: { injection Hr as <-. left. apply nothing_committed_log. }
  right.
  apply alloc_ul_pdcch_common_counts in Hpdcch as (Hg1 & Hcfg & Hmsg & Hlog & a & p & Ha & Hp & Hrnti).
  apply bind_Ok in Hr as (pusch_alloc1 & Hpa%at_index_Ok & Hr).
  match type of Hr with
  | context [set_slot_alloc 4 ?x s1] =>
      set (a1 := x) in *; set (s_a := set_slot_alloc 4 a1 s1) in *
  end.
  assert (Hga : grown s1 s_a 0%nat 0%nat 0%nat 0%nat).
  { unfold results_grown, s_a.
    rewrite (nof_results_same dl_pdcchs s1 4%nat _ a1 Hpa) by done.
    rewrite (nof_results_same ul_pdcchs s1 4%nat _ a1 Hpa) by done.
    rewrite (nof_results_same rar_grants s1 4%nat _ a1 Hpa) by done.
    rewrite (nof_results_same puschs s1 4%nat _ a1 Hpa) by done. lia. }
  assert (Ha0 : res_alloc s_a !! 0%nat = Some a).
  { cbn. by rewrite list_lookup_insert_ne. }
  destruct (harq_new_retx _ _ _) as [ok h].
  destruct ok; cbn [negb] in Hr.
  2: { injection Hr as <-. left. split.
       - assert (Hfin : forall A (f : slot_alloc -> list A) v e,
                   nof_results f (set_pending_msg3s v (log e s_a)) = nof_results f s_a)
           by done.
         unfold results_grown in *. rewrite !Hfin. lia.
       - cbn. by rewrite Hlog. }
  right.
  apply bind_Ok in Hr as (pdcch_alloc1 & Hpa1%at_index_Ok & Hr).
  apply bind_Ok in Hr as (pdcch & Hback%back_Ok & Hr).
  apply bind_Ok in Hr as (rv & Hrv%at_index_Ok & Hr).
  assert (pdcch_alloc1 = a) by congruence. subst pdcch_alloc1.
  assert (pdcch = p) by congruence. subst pdcch.
  match type of Hr with
  | context [set_slot_alloc 0 ?x s_a] =>
      set (a2 := x) in *; set (s_b := set_slot_alloc 0 a2 s_a) in *
  end.
  assert (Hgb : grown s_a s_b 0%nat 0%nat 0%nat 0%nat).
  { unfold results_grown, s_b.
    rewrite (nof_results_same dl_pdcchs s_a 0%nat a a2 Ha0) by done.
    rewrite (nof_results_same ul_pdcchs s_a 0%nat a a2 Ha0)
      by (subst a2; cbn; by rewrite length_set_back).
    rewrite (nof_results_same rar_grants s_a 0%nat a a2 Ha0) by done.
    rewrite (nof_results_same puschs s_a 0%nat a a2 Ha0) by done. lia. }
  apply bind_Ok in Hr as (pusch_alloc2 & Hpa2%at_index_Ok & Hr).
  apply bind_Ok in Hr as (puschs_ & [_ ->]%emplace_back_Ok & Hr).
  match type of Hr with
  | context [set_slot_alloc 4 ?x s_b] =>
      set (a3 := x) in *; set (s_c := set_slot_alloc 4 a3 s_b) in *
  end.
  assert (Hgc : grown s_b s_c 0%nat 0%nat 0%nat 1%nat).
  { unfold results_grown, s_c.
    rewrite (nof_results_same dl_pdcchs s_b 4%nat _ a3 Hpa2) by done.
    rewrite (nof_results_same ul_pdcchs s_b 4%nat _ a3 Hpa2) by done.
    rewrite (nof_results_same rar_grants s_b 4%nat _ a3 Hpa2) by done.
    rewrite (nof_results_succ puschs s_b 4%nat _ a3 Hpa2);
      [lia | subst a3; cbn; rewrite length_app; cbn; lia]. }
  injection Hr as <-. split.
  - assert (Hfin : forall A (f : slot_alloc -> list A) v,
              nof_results f (set_pending_msg3s v s_c) = nof_results f s_c) by done.
    unfold results_grown in *. rewrite !Hfin. lia.
  - assert (Hne : ul_pdcchs a <> []) by (intros E; by rewrite E in Hp).
    exists a2. eexists. eexists. exists a3. eexists. split_and!.
    + cbn. rewrite list_lookup_insert_ne by done. apply list_lookup_insert_eq.
      rewrite length_insert. by eapply lookup_lt_Some.
    + cbn. by apply last_set_back.
    + done.
    + done.
    + done.
    + cbn. apply list_lookup_insert_eq. rewrite !length_insert.
      apply lookup_lt_Some in Hpa. done.
    + cbn. apply last_snoc.
    + done.
    + done.
    + cbn. apply crb_to_prb_to_crb.
    + done.
    + cbn. by eapply list_elem_of_lookup_2.
Qed.

End ra_counts.

(** ** The further properties on the concrete cell *)

Section pool_concrete.
Import TxBufferPool Cell.

Lemma busy_pool_unique : identifiers_unique busy_pool.
Proof.
  intros i j rnti h dl Hi Hj.
  destruct i as [| [| [| [| i]]]]; destruct j as [| [| [| [| j]]]];
    vm_compute in Hi, Hj; congruence.
Qed.

Lemma released_pool_wf : pool_wf released_pool.
Proof. split; reflexivity. Qed.

(** Witness of X1: the four buffers of the busy pool at the tick of slot 20. *)
Lemma pool_arrays_stay_aligned_witness :
  pool_wf busy_pool /\
  exists p', run_slot (sl 20) busy_pool = Ok p' /\ pool_wf p' /\ length (buffers p') = 4%nat.
Proof.
  split; [exact busy_pool_wf |].
  destruct (pool_arrays_stay_aligned (sl 20) (id_harq 17930 2 true) 1 true busy_pool
              busy_pool_wf) as (_ & _ & (p' & Hrun & Hwf & Hlen) & _).
  exists p'. split_and!; [exact Hrun | exact Hwf | exact Hlen].
Defined.

(** Witness of X2: a retransmission for (0x4601, HARQ 0) in the busy pool. *)
Lemma reserve_keeps_identifiers_unique_witness :
  identifiers_unique busy_pool /\
  exists p', reserve (sl 5) (id_harq 17921 0 true) 2 false busy_pool = Ok (p', Some 0%nat) /\
    identifiers_unique p'.
Proof.
  split; [exact busy_pool_unique |].
  assert (Hr : reserve (sl 5) (id_harq 17921 0 true) 2 false busy_pool =
               Ok (pool_after (reserve (sl 5) (id_harq 17921 0 true) 2 false busy_pool),
                   Some 0%nat)) by (vm_compute; reflexivity).
  eexists. split; [exact Hr |].
  exact (proj1 (reserve_keeps_identifiers_unique (sl 5) busy_pool busy_pool_unique)
           _ _ _ _ _ Hr).
Defined.


(** Witness of X4: the anonymous buffer that is free again is reclaimed at
    slot 5, long before its expiration; the reserved one stays. *)
Lemma run_slot_reclaims_free_buffers_witness :
  pool_wf released_pool /\
  exists p', run_slot (sl 5) released_pool = Ok p' /\
    identifiers p' = [id_invalid; id_harq 17923 0 true] /\ reserved_in_use p'.
Proof.
  split; [exact released_pool_wf |].
  destruct (run_slot (sl 5) released_pool) as [p'|] eqn:Hrun;
    [| vm_compute in Hrun; discriminate].
  exists p'. split; [reflexivity |].
  destruct (run_slot_reclaims_free_buffers (sl 5) released_pool p' released_pool_wf Hrun)
    as (Hin_use & _).
  split; [| exact Hin_use].
  vm_compute in Hrun. injection Hrun as <-. reflexivity.
Defined.

(** Witness of X5: two ticks of the busy pool at slot 20. *)
Lemma run_slot_idempotent_witness :
  pool_wf busy_pool /\
  exists p', run_slot (sl 20) busy_pool = Ok p' /\ run_slot (sl 20) p' = Ok p'.
Proof.
  split; [exact busy_pool_wf |].
  destruct (run_slot (sl 20) busy_pool) as [p'|] eqn:Hrun;
    [| vm_compute in Hrun; discriminate].
  exists p'. split; [reflexivity |].
  exact (run_slot_idempotent (sl 20) busy_pool p' busy_pool_wf Hrun).
Defined.

(** Witness of X6: an anonymous reservation in the busy pool takes buffer
    2, the only free one. *)
Lemma reserve_anonymous_first_free_witness :
  exists p', reserve_anonymous (sl 20) 1 busy_pool = Ok (p', Some 2%nat) /\
    is_first id_invalid (identifiers busy_pool) 2 /\
    identifiers p' = <[2%nat := id_unknown]> (identifiers busy_pool).
Proof.
  assert (Hr : reserve_anonymous (sl 20) 1 busy_pool =
               Ok (pool_after (reserve_anonymous (sl 20) 1 busy_pool), Some 2%nat))
    by (vm_compute; reflexivity).
  eexists. split; [exact Hr |].
  destruct (reserve_anonymous_first_free (sl 20) 1 busy_pool _ _ Hr) as (_ & _ & Hsome).
  destruct (Hsome 2%nat eq_refl) as (_ & Hfirst & Hids & _).
  split; [exact Hfirst | exact Hids].
Defined.

End pool_concrete.

Section ra_concrete.
Import RaScheduler Cell.

(** The free-interval search of the cell returns at most the length asked
    for. *)
Lemma longest_run_le (n : nat) (runs : list rb_interval) : forall best,
  (rb_length best <= n)%nat -> Forall (fun r => rb_length r <= n)%nat runs ->
  (rb_length
     (foldl (fun best r => if bool_decide (rb_length best < rb_length r)%nat then r else best)
        best runs) <= n)%nat.
Proof.
  induction runs as [| r runs IH]; intros best Hbest Hall; [done |].
  apply Forall_cons in Hall as [Hr Hall]. cbn. apply IH; [| done].
  by case_bool_decide.
Qed.

Lemma first_fit_le (bits : crb_bitmap) (nof_rbs start_crb : nat) :
  (rb_length (first_fit bits nof_rbs start_crb) <= nof_rbs)%nat.
Proof.
  unfold first_fit.
  destruct (list_find _ _) as [[k r]|] eqn:Hfind.
  - unfold rb_resize, rb_length. cbn. lia.
  - apply list_find_None in Hfind. apply longest_run_le.
    + unfold rb_length. cbn. lia.
    + eapply Forall_impl; [exact Hfind |]. cbn. intros r Hr. lia.
Qed.

(** Witness of X8: the occasions of slots 10 and 11. *)
Lemma get_ra_rnti_injective_witness : 1 <= get_ra_rnti (sl 10) 0 0 false <= 17920.
Proof.
  refine (proj1 (get_ra_rnti_injective (sl 10) (sl 11) 0 0 1 2 false true _ _ _ _ _ _));
    vm_compute; intuition congruence.
Defined.

(** Witness of X9: a PRACH in the UL slot 17 of the TDD cell; slots 18 and
    19 are UL, the window starts at slot 20. *)
Lemma update_rar_window_first_dl_slot_witness :
  exists rar', update_rar_window tdd_cell_cfg 10 new_rar_17 = Ok rar' /\
    rar_window rar' = {| start_ := sl 20; stop_ := sl 30 |} /\
    tc_rntis rar' = [] /\ interval_length (rar_window rar') <> 0.
Proof.
  destruct (update_rar_window tdd_cell_cfg 10 new_rar_17) as [rar'|] eqn:Hrun;
    [| vm_compute in Hrun; discriminate].
  exists rar'. split; [reflexivity |].
  pose proof (update_rar_window_first_dl_slot tdd_cell_cfg 10 new_rar_17 rar' Hrun) as Hw.
  cbv zeta in Hw. destruct Hw as (_ & _ & Htc & Hlen & _).
  split_and!; [| exact Htc | exact Hlen].
  vm_compute in Hrun. injection Hrun as <-. reflexivity.
Defined.

(** Witness of X10: the RACH indication of scenario S1. *)
Lemma rach_occasions_get_one_rar_witness :
  exists s', handle_rach_indication_impl (idle_scheduler 11) rach_s1 = Ok s' /\
    (141, sl 10) ∈ rar_keys s' /\ res_alloc s' = res_alloc (idle_scheduler 11).
Proof.
  destruct (handle_rach_indication_impl (idle_scheduler 11) rach_s1) as [s'|] eqn:Hrun;
    [| vm_compute in Hrun; discriminate].
  exists s'. split; [reflexivity |].
  destruct (rach_occasions_get_one_rar (idle_scheduler 11) s' rach_s1 Hrun)
    as (_ & _ & Hin & Hres & _).
  split; [| exact Hres].
  apply (Hin {| start_symbol := 0; frequency_index := 0; preambles := [preamble_4601] |}).
  apply elem_of_cons. by left.
Defined.

(** Witness of X11: the preambles with TC-RNTI 0x4601 and 0x4611. *)
Lemma colliding_preambles_overwrite_witness :
  exists s1 s2,
    handle_preamble 141 0 (set_pending_rars [rar_141 []] (idle_scheduler 11)) preamble_4601
      = Ok s1 /\
    handle_preamble 141 0 s1 preamble_4611 = Ok s2 /\
    pending_msg3s s2 =
      <[1%nat := {| preamble := preamble_4611; harq := empty_harq 1 |}]>
        (pending_msg3s (idle_scheduler 11)).
Proof.
  destruct (handle_preamble 141 0 (set_pending_rars [rar_141 []] (idle_scheduler 11))
              preamble_4601) as [s1|] eqn:H1; [| vm_compute in H1; discriminate].
  destruct (handle_preamble 141 0 s1 preamble_4611) as [s2|] eqn:H2.
  2: { vm_compute in H1. injection H1 as <-. vm_compute in H2. discriminate. }
  exists s1, s2. split; [reflexivity |]. split; [exact H2 |].
  exact (proj2 (colliding_preambles_overwrite 141 0
                  (set_pending_rars [rar_141 []] (idle_scheduler 11)) s1 s2
                  preamble_4601 preamble_4611 (no_msg3 1)
                  eq_refl eq_refl eq_refl H1 H2)).
Defined.

(** Witness of X12: the CRC of scenario S3. *)
Lemma handle_crc_only_acks_matching_harq_witness :
  exists s',
    handle_crc (msg3_sent_scheduler 22)
      {| crc_ue_index := None; crc_rnti := 17921; crc_harq_id := 1; tb_crc_success := false |}
      = Ok s' /\
    res_alloc s' = res_alloc (msg3_sent_scheduler 22) /\
    pending_rars s' = pending_rars (msg3_sent_scheduler 22).
Proof.
  destruct (handle_crc (msg3_sent_scheduler 22)
              {| crc_ue_index := None; crc_rnti := 17921; crc_harq_id := 1;
                 tb_crc_success := false |}) as [s'|] eqn:Hrun;
    [| vm_compute in Hrun; discriminate].
  exists s'. split; [reflexivity |].
  destruct (handle_crc_only_acks_matching_harq _ _ _ Hrun) as (_ & Hres & _ & Hrars & _).
  split; [exact Hres | exact Hrars].
Defined.

(** Witness of X13: the pending RAR of scenario S1 at slot 11. *)
Lemma schedule_rar_allocs_bounded_witness :
  exists n s', schedule_rar (rar_141 [17921]) (idle_scheduler 11) = Ok (n, s') /\
    (n <= 1)%nat /\ (n <= 16)%nat.
Proof.
  destruct (schedule_rar (rar_141 [17921]) (idle_scheduler 11)) as [[n s']|] eqn:Hrun;
    [| vm_compute in Hrun; discriminate].
  exists n, s'. split; [reflexivity |].
  exact (schedule_rar_allocs_bounded first_fit_le (rar_141 [17921]) (idle_scheduler 11) s' n
           Hrun).
Defined.

(** Witness of X14: the pending RAR of scenario S1 at slot 11 gets one PDCCH,
    one RAR with one grant, one PUSCH. *)
Lemma schedule_rar_commit_shape_witness :
  exists s', schedule_rar (rar_141 [17921]) (idle_scheduler 11) = Ok (1%nat, s') /\
    results_grown (idle_scheduler 11) s' 1 0 1 1 /\
    last_rar_of s' 0 141 1.
Proof.
  destruct (schedule_rar (rar_141 [17921]) (idle_scheduler 11)) as [[n s']|] eqn:Hrun;
    [| vm_compute in Hrun; discriminate].
  assert (Hn : n = 1%nat).
  { pose proof Hrun as Hc. vm_compute in Hc. by injection Hc as <- _. }
  destruct (schedule_rar_commit_shape _ _ _ _ Hrun)
    as [[Hzero _] | (Hg & pdsch_td & Htd & Hlast)]; [congruence |].
  subst n. exists s'. split; [reflexivity |]. split; [exact Hg |].
  injection Htd as <-. exact Hlast.
Defined.

(** Witness of X15: the retransmission of scenario S3. *)
Lemma schedule_msg3_retx_commit_shape_witness :
  exists s', schedule_msg3_retx 1 (msg3_nacked_scheduler 22) = Ok s' /\
    results_grown (msg3_nacked_scheduler 22) s' 0 1 0 1.
Proof.
  destruct (schedule_msg3_retx 1 (msg3_nacked_scheduler 22)) as [s'|] eqn:Hrun;
    [| vm_compute in Hrun; discriminate].
  exists s'. split; [reflexivity |].
  destruct (schedule_msg3_retx_commit_shape 1 (msg3_nacked_scheduler 22) s' _ eq_refl Hrun)
    as [Hnone | [[_ Hlog] | [Hg _]]]; [| | exact Hg].
  - exfalso. destruct Hnone as (Hres & _).
    vm_compute in Hrun. injection Hrun as <-. vm_compute in Hres. discriminate.
  - exfalso. vm_compute in Hrun. injection Hrun as <-. vm_compute in Hlog. discriminate.
Defined.

(** Witness of X16: the slot of scenario S1. *)
Lemma run_slot_results_only_grow_witness :
  exists s',
    run_slot (handle_rach_indication rach_s1 (idle_scheduler 11)) = Ok (rars_scheduled, s') /\
    Forall2 results_extended (res_alloc (idle_scheduler 11)) (res_alloc s').
Proof.
  destruct (run_slot (handle_rach_indication rach_s1 (idle_scheduler 11)))
    as [[e s']|] eqn:Hrun; [| vm_compute in Hrun; discriminate].
  assert (He : e = rars_scheduled).
  { pose proof Hrun as Hc. vm_compute in Hc. by injection Hc as <- _. }
  subst e. exists s'. split; [reflexivity |].
  exact (run_slot_results_only_grow _ _ _ Hrun).
Defined.

(** Witness of X17: the slot of scenario S3, which starts from a queued CRC
    indication. *)
Lemma run_slot_consumes_events_witness :
  exists e s',
    run_slot (handle_crc_indication crc_nack (msg3_sent_scheduler 22)) = Ok (e, s') /\
    pending_rachs s' = [] /\ pending_crcs s' = [] /\
    length (pending_msg3s s') = 16%nat.
Proof.
  destruct (run_slot (handle_crc_indication crc_nack (msg3_sent_scheduler 22)))
    as [[e s']|] eqn:Hrun; [| vm_compute in Hrun; discriminate].
  exists e, s'. split; [reflexivity |].
  destruct (run_slot_consumes_events _ _ _ Hrun) as (Hr & Hc & _ & _ & _ & _ & Hlen).
  split_and!; [exact Hr | exact Hc | exact Hlen].
Defined.

(** Witness of X18: the slot of scenario S1 with the RAR of slot 10 already
    pending: the occasion of the indication joins it. *)
Lemma run_slot_keeps_rars_distinct_witness :
  NoDup (rar_keys (handle_rach_indication rach_s1
                     (set_pending_rars [rar_141 []] (idle_scheduler 11)))) /\
  exists e s',
    run_slot (handle_rach_indication rach_s1
                (set_pending_rars [rar_141 []] (idle_scheduler 11))) = Ok (e, s') /\
    NoDup (rar_keys s').
Proof.
  assert (Hnd : NoDup (rar_keys (handle_rach_indication rach_s1
                                   (set_pending_rars [rar_141 []] (idle_scheduler 11))))).
  { vm_compute. apply NoDup_singleton. }
  split; [exact Hnd |].
  destruct (run_slot (handle_rach_indication rach_s1
                        (set_pending_rars [rar_141 []] (idle_scheduler 11))))
    as [[e s']|] eqn:Hrun; [| vm_compute in Hrun; discriminate].
  exists e, s'. split; [reflexivity |].
  exact (run_slot_keeps_rars_distinct _ _ _ Hnd Hrun).
Defined.

End ra_concrete.

(** ** The search of [reserve] and the buffer it takes *)

Section pool_search.
Context `{SlotPoint slot_point}.
Import TxBufferPool.
Local Abbreviation pool := (tx_buffer_pool_impl slot_point).

(** The buffer index [reserve] works on: the first entry that holds [id],
    or, when there is none and the data is new, the first invalid entry. *)
Lemma reserve_target slot id n new_data (p : pool) i :
  stopped p = false ->
  is_first id (identifiers p) i \/
    ((id ∉ identifiers p) /\ new_data = true /\ is_first id_invalid (identifiers p) i) ->
  reserve slot id n new_data p = reserve_at slot id n (negb new_data) i p.
Proof.
  intros Hst Hi. unfold reserve. rewrite Hst.
  destruct Hi as [Hfirst | (Hnin & -> & Hfirst)].
  - by rewrite (proj2 (std_find_Some _ _ _) Hfirst).
  - rewrite (proj2 (std_find_None _ _) Hnin).
    by rewrite (proj2 (std_find_Some _ _ _) Hfirst).
Qed.

(** C6.  [reserve (slot, id, nof_codeblocks, new_data)] works on the first
    buffer whose identifier is [id] or, when no buffer has that identifier and
    [new_data] holds, on the first buffer whose identifier is invalid.  When
    that buffer is not locked, holds [nof_codeblocks] codeblocks in case of a
    retransmission, and the codeblocks are available, [reserve] returns it,
    locked, under the identifier [id] and with the expiration
    [slot + expire_timeout_slots]; without enough codeblocks it fails with
    "insufficient CBs".  Every result of [reserve] obeys: a stopped pool
    gives an invalid buffer; a valid buffer is the one of the search above, it
    was not locked and, for a retransmission, held [nof_codeblocks]
    codeblocks; without a buffer of that identifier a retransmission fails
    with "identifier for retransmissions not found" and new data without a
    free buffer with "insufficient buffers"; a retransmission with another
    number of codeblocks than the buffer holds fails; a locked target buffer
    fails. *)
Theorem reserve_search_order (slot : slot_point) (id : trx_buffer_identifier)
    (nof_cbs : nat) (new_data : bool) (p : pool) :
  (forall i buffer, stopped p = false ->
     is_first id (identifiers p) i \/
       ((id ∉ identifiers p) /\ new_data = true /\ is_first id_invalid (identifiers p) i) ->
     buffers p !! i = Some buffer -> is_locked buffer = false ->
     (new_data = false -> nof_cbs = get_nof_codeblocks buffer) ->
     ((nof_cbs <= codeblock_pool p + get_nof_codeblocks buffer)%nat ->
        exists p', reserve slot id nof_cbs new_data p = Ok (p', Some i) /\
          identifiers p' = <[i := id]> (identifiers p) /\
          expirations p' =
            <[i := Some (slot_add slot (expire_timeout_slots p))]> (expirations p) /\
          buffers p' =
            <[i := {| current_state := st_locked; nof_codeblocks := nof_cbs |}]> (buffers p) /\
          pool_log p' = pool_log p) /\
     ((codeblock_pool p + get_nof_codeblocks buffer < nof_cbs)%nat ->
        exists p', reserve slot id nof_cbs new_data p = Ok (p', None) /\
          identifiers p' = identifiers p /\ expirations p' = expirations p /\
          pool_log p' = pool_log p ++ [warn_insufficient_cbs])) /\
  (forall p' ub, reserve slot id nof_cbs new_data p = Ok (p', ub) ->
     (stopped p = true -> ub = None /\ p' = p) /\
     (forall i, ub = Some i ->
        stopped p = false /\
        (is_first id (identifiers p) i \/
         ((id ∉ identifiers p) /\ new_data = true /\ is_first id_invalid (identifiers p) i)) /\
        exists buffer, buffers p !! i = Some buffer /\ is_locked buffer = false /\
          (new_data = false -> nof_cbs = get_nof_codeblocks buffer)) /\
     (stopped p = false -> id ∉ identifiers p -> new_data = false ->
        ub = None /\ pool_log p' = pool_log p ++ [warn_retx_identifier_not_found]) /\
     (stopped p = false -> id ∉ identifiers p -> new_data = true ->
        id_invalid ∉ identifiers p ->
        ub = None /\ pool_log p' = pool_log p ++ [warn_insufficient_buffers]) /\
     (forall i buffer, stopped p = false -> is_first id (identifiers p) i ->
        buffers p !! i = Some buffer ->
        new_data = false -> nof_cbs <> get_nof_codeblocks buffer ->
        ub = None /\ pool_log p' = pool_log p ++ [warn_codeblocks_do_not_match]) /\
     (forall i buffer, stopped p = false ->
        is_first id (identifiers p) i \/
          ((id ∉ identifiers p) /\ new_data = true /\ is_first id_invalid (identifiers p) i) ->
        buffers p !! i = Some buffer -> is_locked buffer = true ->
        ub = None /\
        (pool_log p' = pool_log p ++ [warn_harq_already_in_use] \/
         pool_log p' = pool_log p ++ [warn_codeblocks_do_not_match]))).
Proof.
  split; [| intros p' ub Hr; by eapply reserve_results].
  intros i buffer Hst Hi Hb Hl Hretx.
  rewrite (reserve_target slot id nof_cbs new_data p i Hst Hi).
  unfold reserve_at. rewrite (proj2 (at_index_Ok _ _ _) Hb). cbn.
  assert (Hchk : negb new_data && negb (bool_decide (nof_cbs = get_nof_codeblocks buffer))
                 = false).
  { destruct new_data; [done |]. cbn. rewrite bool_decide_eq_true_2; [done |]. by apply Hretx. }
  rewrite Hchk. unfold buffer_reserve. rewrite Hl. unfold get_nof_codeblocks.
  split; intros Hcbs.
  - rewrite bool_decide_eq_true_2 by done. cbn. eexists. split; [done |]. done.
  - rewrite bool_decide_eq_false_2 by lia. cbn. eexists. split; [done |]. done.
Qed.

End pool_search.

Section pool_search_concrete.
Import TxBufferPool Cell.

(** Witness of C6: in the busy pool, a retransmission for (0x4601, HARQ 0)
    with the 2 codeblocks of buffer 0 gets buffer 0; with 1 codeblock it
    fails; new data for an identifier the pool does not hold takes buffer 2,
    the first free one. *)
Lemma reserve_search_order_witness :
  (exists p', reserve (sl 5) (id_harq 17921 0 true) 2 false busy_pool = Ok (p', Some 0%nat) /\
     identifiers p' = identifiers busy_pool) /\
  (exists p', reserve (sl 5) (id_harq 17921 0 true) 1 false busy_pool = Ok (p', None) /\
     pool_log p' = [warn_codeblocks_do_not_match]) /\
  (exists p', reserve (sl 5) (id_harq 17930 2 true) 1 true busy_pool = Ok (p', Some 2%nat)).
Proof.
  split_and!.
  - destruct (proj1 (reserve_search_order (sl 5) (id_harq 17921 0 true) 2 false busy_pool)
                0%nat {| current_state := st_reserved; nof_codeblocks := 2 |} eq_refl)
      as [Hok _]; [left; split; [reflexivity | intros j Hj; lia] | reflexivity | reflexivity
                  | reflexivity |].
    destruct Hok as (p' & Hr & Hids & _); [vm_compute; lia |].
    exists p'. split; [exact Hr |]. rewrite Hids. reflexivity.
  - destruct (reserve (sl 5) (id_harq 17921 0 true) 1 false busy_pool) as [[p' ub]|] eqn:Hrun;
      [| vm_compute in Hrun; discriminate].
    destruct (proj2 (reserve_search_order (sl 5) (id_harq 17921 0 true) 1 false busy_pool)
                p' ub Hrun) as (_ & _ & _ & _ & Hcbs & _).
    destruct (Hcbs 0%nat {| current_state := st_reserved; nof_codeblocks := 2 |} eq_refl)
      as [-> Hlog]; [split; [reflexivity | intros j Hj; lia] | reflexivity | reflexivity
                    | vm_compute; lia |].
    exists p'. split; [reflexivity | exact Hlog].
  - destruct (proj1 (reserve_search_order (sl 5) (id_harq 17930 2 true) 1 true busy_pool)
                2%nat {| current_state := st_available; nof_codeblocks := 0 |} eq_refl)
      as [Hok _]; [right | reflexivity | reflexivity | discriminate |].
    + split_and!; [| reflexivity | split; [reflexivity |]].
      * intros Hin. vm_compute in Hin. repeat (apply elem_of_cons in Hin as [Hin | Hin];
          [discriminate |]). by apply elem_of_nil in Hin.
      * intros j Hj Hjx. destruct j as [| [| j]]; [vm_compute in Hjx; discriminate.. | lia].
    + destruct Hok as (p' & Hr & _); [vm_compute; lia |]. exists p'. exact Hr.
Defined.

End pool_search_concrete.

(** ** The RARs a slot commits and the RAR window *)

(** A list [l] that extends [l0] by entries that satisfy [Q]. *)
Lemma extended_by_snoc {A} (Q : A -> Prop) (l0 l : list A) y :
  (exists new, l = l0 ++ new /\ Forall Q new) -> Q y ->
  exists new, l ++ [y] = l0 ++ new /\ Forall Q new.
Proof.
  intros (new & -> & Hall) Hy. exists (new ++ [y]). split; [by rewrite app_assoc |].
  apply Forall_app. split; [done |]. by apply Forall_singleton.
Qed.

Lemma extended_by_last {A} (Q : A -> Prop) (l0 l : list A) x :
  (exists new, l = l0 ++ new /\ Forall Q new) -> (length l0 < length l)%nat ->
  last l = Some x -> Q x.
Proof.
  intros (new & -> & Hall) Hlen Hlast. rewrite length_app in Hlen.
  apply last_app_Some in Hlast as [Hlast | [Hnone _]].
  - rewrite Forall_forall in Hall. by apply Hall, last_Some_elem_of.
  - apply last_None in Hnone. subst new. cbn in Hlen. lia.
Qed.

Lemma extended_by_set_back {A} (Q : A -> Prop) (l0 l : list A) y :
  (exists new, l = l0 ++ new /\ Forall Q new) -> (length l0 < length l)%nat -> Q y ->
  exists new, set_back l y = l0 ++ new /\ Forall Q new.
Proof.
  intros (new & -> & Hall) Hlen Hy. rewrite length_app in Hlen.
  exists (<[pred (length new) := y]> new). split.
  - unfold set_back. rewrite length_app, insert_app_r_alt by lia. do 2 f_equal. lia.
  - by apply Forall_insert.
Qed.

Section ra_window.
Import RaScheduler.
Context {slot_point harq_t grid_t pdcch_sch_t : Type}.
Context `{!SlotPoint slot_point} `{!UlHarqProcess slot_point harq_t}.
Context `{!ResourceGrid grid_t} `{!SchedHelpers slot_point pdcch_sch_t}.
Local Abbreviation sched := (ra_scheduler slot_point harq_t grid_t pdcch_sch_t).
Local Abbreviation rar_t := (pending_rar_t slot_point).
Local Abbreviation slot_alloc := (cell_slot_resource_allocator slot_point grid_t).

(** Between [s0] and [s] every slot got only DL PDCCHs and RARs whose RNTI
    satisfies [P]. *)
Local Abbreviation committed P s0 s :=
  (Forall2 (rars_committed P) (res_alloc s0) (res_alloc s)).

Local Abbreviation longer f s0 s k :=
  (exists a0 a, res_alloc s0 !! k = Some a0 /\ res_alloc s !! k = Some a /\
     (length (f a0) < length (f a))%nat).

Lemma rars_committed_refl P (a : slot_alloc) : rars_committed P a a.
Proof. split; exists []; by rewrite app_nil_r. Qed.

Lemma rars_committed_trans P (a b c : slot_alloc) :
  rars_committed P a b -> rars_committed P b c -> rars_committed P a c.
Proof.
  intros [(n1 & E1 & F1) (m1 & G1 & K1)] [(n2 & E2 & F2) (m2 & G2 & K2)]. split.
  - exists (n1 ++ n2). rewrite E2, E1, app_assoc. split; [done |]. by apply Forall_app.
  - exists (m1 ++ m2). rewrite G2, G1, app_assoc. split; [done |]. by apply Forall_app.
Qed.

Lemma rars_committed_mono (P Q : Z -> Prop) (a b : slot_alloc) :
  (forall rnti, P rnti -> Q rnti) -> rars_committed P a b -> rars_committed Q a b.
Proof.
  intros HPQ [(n & E & F) (m & G & K)]. split.
  - exists n. split; [done |]. eapply Forall_impl; [done |]. cbn. eauto.
  - exists m. split; [done |]. eapply Forall_impl; [done |]. cbn. eauto.
Qed.

Lemma committed_refl P (s : sched) : committed P s s.
Proof.
  apply Forall2_lookup. intros i. destruct (res_alloc s !! i); constructor.
  apply rars_committed_refl.
Qed.

Lemma committed_trans P (s1 s2 s3 : sched) :
  committed P s1 s2 -> committed P s2 s3 -> committed P s1 s3.
Proof. apply Forall2_trans_rel, rars_committed_trans. Qed.

Lemma committed_mono (P Q : Z -> Prop) (s1 s2 : sched) :
  (forall rnti, P rnti -> Q rnti) -> committed P s1 s2 -> committed Q s1 s2.
Proof.
  intros HPQ F. eapply Forall2_impl; [exact F |]. intros a b. by apply rars_committed_mono.
Qed.

(** A slot written back. *)
Lemma committed_update P (s0 s : sched) k (a a' : slot_alloc) :
  committed P s0 s -> res_alloc s !! k = Some a ->
  (forall a0, res_alloc s0 !! k = Some a0 -> rars_committed P a0 a -> rars_committed P a0 a') ->
  committed P s0 (set_slot_alloc k a' s).
Proof.
  intros F Ha Hext. cbn.
  destruct (Forall2_lookup_r _ _ _ k a F Ha) as (a0 & Ha0 & Hr).
  rewrite <- (list_insert_id (res_alloc s0) k a0 Ha0).
  apply Forall2_insert; [done |]. by apply Hext.
Qed.

Lemma alloc_pdcch_common_committed (P : Z -> Prop) k rnti ss aggr (s0 s s1 : sched) :
  committed P s0 s -> P rnti -> alloc_pdcch_common k rnti ss aggr s = Ok (Some s1) ->
  committed P s0 s1 /\ longer dl_pdcchs s0 s1 k.
Proof.
  intros Hc HP. unfold alloc_pdcch_common. intros (a & Ha%at_index_Ok & Hr)%bind_Ok.
  destruct (full _ _); [done |].
  destruct (alloc_cces _ _ _ _ _) as [sch'|]; [| done].
  injection Hr as <-.
  destruct (Forall2_lookup_r _ _ _ k a Hc Ha) as (a0 & Ha0 & Hr).
  split.
  - change (committed P s0
              (set_slot_alloc k
                 (set_dl_pdcchs
                    (dl_pdcchs a ++
                     [{| dl_ctx_rnti := rnti; dl_dci_type := dci_dl_unset; dl_dci := None |}]) a)
                 s)).
    eapply committed_update; [done.. |]. intros a0' _ [Hdl Hrar]. split; [| done].
    cbn. by apply extended_by_snoc.
  - exists a0. eexists. cbn. rewrite list_lookup_insert_eq by (by eapply lookup_lt_Some).
    split_and!; [done.. |]. cbn. rewrite length_app. cbn.
    destruct Hr as [(new & -> & _) _]. rewrite length_app. lia.
Qed.

Lemma fill_msg3_grant_committed (P : Z -> Prop) (rar : rar_t) k_rar (s0 s s' : sched) ic :
  committed P s0 s -> longer rar_grants s0 s k_rar ->
  fill_msg3_grant rar k_rar s ic = Ok s' ->
  committed P s0 s' /\ longer rar_grants s0 s' k_rar.
Proof.
  intros Hf Hlong. unfold fill_msg3_grant. destruct ic as [i cand].
  intros (pusch_res & _ & Hr)%bind_Ok.
  apply bind_Ok in Hr as (msg3_delay & _ & Hr).
  apply bind_Ok in Hr as (rnti & _ & Hr).
  apply bind_Ok in Hr as (msg3 & Hm%at_index_Ok & Hr).
  apply bind_Ok in Hr as (_ & _ & Hr).
  apply bind_Ok in Hr as (rar_alloc & Hra%at_index_Ok & Hr).
  apply bind_Ok in Hr as (r & Hback%back_Ok & Hr).
  apply bind_Ok in Hr as (grants_ & _ & Hr).
  cbv zeta in Hr.
  match type of Hr with
  | context [set_slot_alloc k_rar ?a s] =>
      assert (Hfa : committed P s0 (set_slot_alloc k_rar a s) /\
                    longer rar_grants s0 (set_slot_alloc k_rar a s) k_rar);
      [| set (s_a := set_slot_alloc k_rar a s) in *]
  end.
  { split.
    - eapply committed_update; [done.. |]. intros a0 Ha0 [Hdl Hrar].
      destruct Hlong as (a0' & a' & Ha0' & Ha' & Hlen).
      assert (a0' = a0) by congruence. assert (a' = rar_alloc) by congruence. subst.
      split; [done |]. cbn. apply extended_by_set_back; [done.. |]. cbn.
      by eapply (extended_by_last (fun x => P (pdsch_rnti x))).
    - eapply longer_update; [done.. |]. cbn. by rewrite length_set_back. }
  clear Hf Hlong Hra. destruct Hfa as [Hf Hlong].
  apply bind_Ok in Hr as (msg3_alloc & Hma%at_index_Ok & Hr).
  apply bind_Ok in Hr as (msg3_d & _ & Hr).
  apply bind_Ok in Hr as (puschs_ & [_ ->]%emplace_back_Ok & Hr).
  match type of Hr with
  | context [set_slot_alloc ?d ?a s_a] =>
      assert (Hfb : committed P s0 (set_slot_alloc d a s_a) /\
                    longer rar_grants s0 (set_slot_alloc d a s_a) k_rar);
      [| set (s_b := set_slot_alloc d a s_a) in *]
  end.
  { split.
    - eapply committed_update; [done.. |]. intros a0 Ha0 Hre. exact Hre.
    - eapply longer_update; [done.. |]. cbn. lia. }
  clear Hf Hlong Hma. destruct Hfb as [Hf Hlong].
  destruct (harq_new_tx _ _ _ _ _) as [success h].
  apply bind_Ok in Hr as (_ & _ & [= <-]).
  split; [exact Hf | exact Hlong].
Qed.

Lemma fill_rar_grant_committed (P : Z -> Prop) (rar : rar_t) rar_crbs cands (s0 s s' : sched) :
  committed P s0 s -> longer dl_pdcchs s0 s 0%nat ->
  fill_rar_grant rar rar_crbs cands s = Ok s' -> committed P s0 s'.
Proof.
  intros Hf Hlong. unfold fill_rar_grant.
  intros (pdcch_alloc & Hpa%at_index_Ok & Hr)%bind_Ok.
  apply bind_Ok in Hr as (pdsch_td & _ & Hr).
  apply bind_Ok in Hr as (pdcch & Hback%back_Ok & Hr).
  cbv zeta in Hr.
  assert (HP : P (dl_ctx_rnti pdcch)).
  { destruct Hlong as (a0 & a' & Ha0 & Ha' & Hlen).
    assert (a' = pdcch_alloc) by congruence. subst.
    destruct (Forall2_lookup_r _ _ _ _ _ Hf Hpa) as (a0' & Ha0' & [Hdl _]).
    assert (a0' = a0) by congruence. subst.
    by eapply (extended_by_last (fun x => P (dl_ctx_rnti x))). }
  match type of Hr with
  | context [set_slot_alloc 0 ?a s] =>
      assert (Hfa : committed P s0 (set_slot_alloc 0 a s));
      [| set (s_a := set_slot_alloc 0 a s) in * ]
  end.
  { eapply committed_update; [done.. |]. intros a0 Ha0 [Hdl Hrar].
    destruct Hlong as (a0' & a' & Ha0' & Ha' & Hlen).
    assert (a0' = a0) by congruence. assert (a' = pdcch_alloc) by congruence. subst.
    split; [| done]. cbn. by apply extended_by_set_back. }
  clear Hf Hlong Hpa.
  apply bind_Ok in Hr as (rar_alloc & Hra%at_index_Ok & Hr).
  apply bind_Ok in Hr as (rar_d & _ & Hr).
  apply bind_Ok in Hr as (rar_grants_ & [_ ->]%emplace_back_Ok & Hr).
  match type of Hr with
  | context [set_slot_alloc ?k ?a s_a] =>
      assert (Hfb : committed P s0 (set_slot_alloc k a s_a) /\
                    longer rar_grants s0 (set_slot_alloc k a s_a) k);
      [| set (s_b := set_slot_alloc k a s_a) in * ]
  end.
  { destruct (Forall2_lookup_r _ _ _ _ _ Hfa Hra) as (a0 & Ha0 & Hre).
    split.
    - eapply committed_update; [done.. |]. intros a0' _ [Hdl Hrar]. split; [done |].
      cbn. by apply extended_by_snoc.
    - exists a0. eexists. cbn.
      rewrite list_lookup_insert_eq by (by eapply lookup_lt_Some).
      split_and!; [done.. |]. cbn. rewrite length_app. cbn.
      destruct Hre as [_ (new & -> & _)]. rewrite length_app. lia. }
  revert Hr.
  match goal with
  | |- for_each ?body _ _ = _ -> _ =>
      intros Hr;
      apply (for_each_invariant body
               (fun s : sched => committed P s0 s /\
                                 longer rar_grants s0 s (k0 pdsch_td)) _ _ _) in Hr;
      [by destruct Hr | | done]
  end.
  intros s1 ic s2 _ [Hf1 Hl1] Hstep. by eapply fill_msg3_grant_committed.
Qed.

(** The DL PDCCHs and RARs that [schedule_rar] adds carry the RA-RNTI of the
    pending RAR it is called for. *)
Lemma schedule_rar_committed (rar : rar_t) (s s' : sched) n :
  schedule_rar rar s = Ok (n, s') -> committed (fun rnti => rnti = ra_rnti rar) s s'.
Proof.
  unfold schedule_rar. intros Hr.
  apply bind_Ok in Hr as (rar_d & _ & Hr).
  apply bind_Ok in Hr as (pdcch_alloc & _ & Hr).
  apply bind_Ok in Hr as (pdsch_td & _ & Hr).
  apply bind_Ok in Hr as (pdsch_alloc & _ & Hr).
  destruct (_ || _).
  { injection Hr as <- <-. exact (committed_refl _ s). }
  apply bind_Ok in Hr as (max_nof_allocs & _ & Hr).
  case_bool_decide.
  { injection Hr as <- <-. exact (committed_refl _ s). }
  apply bind_Ok in Hr as (msg3_candidates & _ & Hr).
  apply bind_Ok in Hr as ([s1|] & Hpdcch & Hr).
  - apply bind_Ok in Hr as (s2 & Hfill & [= <- <-]).
    apply (alloc_pdcch_common_committed (fun rnti => rnti = ra_rnti rar)) with (s0 := s)
      in Hpdcch as [Hf Hl]; [| apply committed_refl | done].
    by eapply fill_rar_grant_committed.
  - injection Hr as <- <-. apply committed_refl.
Qed.

Lemma in_window_rnti_cons pdcch_slot (rar : rar_t) rest rnti :
  in_window_rnti pdcch_slot rest rnti -> in_window_rnti pdcch_slot (rar :: rest) rnti.
Proof. intros (r & Hin & ?). exists r. split; [| done]. apply elem_of_cons. by right. Qed.

(** The loop over the pending RARs commits RARs only for the RARs of the
    list whose window contains the slot. *)
Lemma schedule_pending_rars_committed pdcch_slot (rars : list rar_t) :
  forall (s : sched) rars' s' calls,
    schedule_pending_rars pdcch_slot rars s = Ok (rars', s', calls) ->
    committed (in_window_rnti pdcch_slot rars) s s'.
Proof.
  induction rars as [| rar_req rest IH]; intros s rars' s' calls Hloop; cbn in Hloop.
  { injection Hloop as <- <- <-. apply committed_refl. }
  destruct (contains (rar_window rar_req) pdcch_slot) eqn:Hwin; cbn in Hloop.
  - apply bind_Ok in Hloop as ([n s1] & Hrar & Hloop). cbn in Hloop.
    apply bind_Ok in Hloop as (_ & _ & Hloop).
    assert (Hhead : committed (in_window_rnti pdcch_slot (rar_req :: rest)) s s1).
    { eapply committed_mono; [| by eapply schedule_rar_committed].
      intros rnti ->. exists rar_req. unfold contains in Hwin.
      apply andb_true_iff in Hwin as [? ?]. split_and!; try done. apply elem_of_cons. by left. }
    assert (Htail : forall rest' s2 calls',
              schedule_pending_rars pdcch_slot rest s1 = Ok (rest', s2, calls') ->
              committed (in_window_rnti pdcch_slot (rar_req :: rest)) s s2).
    { intros rest' s2 calls' Hrest. eapply committed_trans; [exact Hhead |].
      eapply committed_mono; [| by eapply IH]. apply in_window_rnti_cons. }
    case_bool_decide; [case_bool_decide |].
    + apply bind_Ok in Hloop as ([[rest' s2] calls'] & Hrest & [= <- <- <-]). by eapply Htail.
    + apply bind_Ok in Hloop as (rar' & _ & [= <- <- <-]). done.
    + apply bind_Ok in Hloop as ([[rest' s2] calls'] & Hrest & [= <- <- <-]). by eapply Htail.
  - destruct (slot_ge pdcch_slot (stop_ (rar_window rar_req))).
    + eapply committed_mono; [apply in_window_rnti_cons |]. exact (IH _ _ _ _ Hloop).
    + injection Hloop as <- <- <-. apply committed_refl.
Qed.


End ra_window.

Section ra_window_concrete.
Import RaScheduler Cell.


End ra_window_concrete.
